(** * Thumbnailer: the editor of [src/App.tsx], embedded and verified

    The development follows the source file top-down: the URL utility
    [getYouTubeID], the React state cells of [App], the event handlers,
    the canvas hit test and drag, and [drawToCanvas].

    Conventions of the embedding.
    - A JavaScript string is a [string]; a character is one code unit
      (the Latin-1 range of UTF-16).
    - A JavaScript [number] that carries a coordinate or a size is a
      rational [Q] (exact arithmetic, the idealisation of the doubles);
      [Date.now()] is an [N].
    - [string | null] is [option string].
    - An [async] handler is split at its [await]: the part that runs inside
      the click event, and the continuation that runs when the awaited
      promise settles.
    - A canvas is its size, the drawing state of its 2D context and the
      list of what was painted on it, each operation with the drawing state
      it ran in; what the browser makes of these (text measurement, filter
      arithmetic, rasterisation) stays outside.
    - A button with a [disabled] attribute dispatches its [onClick] only
      while the attribute is false. *)

From Stdlib Require Import List String Ascii Bool Arith NArith ZArith QArith.
From Stdlib Require Import Lia Lqa DecimalString DecimalN FinFun.
Import ListNotations.

Local Close Scope Q_scope.
Local Close Scope Z_scope.
Local Open Scope nat_scope.
Local Open Scope string_scope.
Local Open Scope list_scope.

(* ================================================================== *)
(** ** A backtracking matcher for the regular expression of [getYouTubeID] *)
(* ================================================================== *)

Module Regex.

(** The fragment of ECMAScript patterns that [regExp] uses. *)
Inductive re : Type :=
| Eps                         (* the empty pattern *)
| Chr (c : ascii)             (* a literal character, also an escaped one *)
| Dot                         (* [.] : anything but a line terminator *)
| Cls (p : ascii -> bool)     (* a class: [\w], [[^#&?]] *)
| Cat (r1 r2 : re)
| Alt (r1 r2 : re)            (* [r1|r2], left first *)
| Opt (r : re)                (* [r?], greedy *)
| Star (r : re)               (* [r*], greedy *)
| Grp (i : nat) (r : re).     (* the i-th capturing parenthesis *)

(** [match[i]]: [None] is JavaScript's [undefined]. *)
Definition captures : Type := nat -> option string.

Definition no_captures : captures := fun _ => None.

Definition set_capture (i : nat) (v : string) (c : captures) : captures :=
  fun j => if Nat.eqb j i then Some v else c j.

Definition isLineTerminator (c : ascii) : bool :=
  let n := nat_of_ascii c in Nat.eqb n 10 || Nat.eqb n 13.

(** What a sub-match consumed: the input at its start minus what is left. *)
Definition consumed (s rest : string) : string :=
  substring 0 (String.length s - String.length rest) s.

(** The matcher in continuation-passing style: [run r s c k] matches [r]
    at the front of [s] and hands the rest of the input and the captures
    to [k]; when [k] fails the matcher backtracks into [r]. *)
Fixpoint run (r : re) (s : string) (c : captures)
         (k : string -> captures -> option captures) {struct r}
  : option captures :=
  match r with
  | Eps => k s c
  | Chr a =>
      match s with
      | String b s' => if Ascii.eqb a b then k s' c else None
      | EmptyString => None
      end
  | Dot =>
      match s with
      | String b s' => if isLineTerminator b then None else k s' c
      | EmptyString => None
      end
  | Cls p =>
      match s with
      | String b s' => if p b then k s' c else None
      | EmptyString => None
      end
  | Cat r1 r2 => run r1 s c (fun s1 c1 => run r2 s1 c1 k)
  | Alt r1 r2 =>
      match run r1 s c k with
      | Some res => Some res
      | None => run r2 s c k
      end
  | Opt r1 =>
      match run r1 s c k with
      | Some res => Some res
      | None => k s c
      end
  | Star r1 =>
      (fix iterate (fuel : nat) (s0 : string) (c0 : captures) {struct fuel}
         : option captures :=
         match fuel with
         | O => k s0 c0
         | S fuel' =>
             match run r1 s0 c0
                     (fun s1 c1 =>
                        (* an iteration that consumes nothing is refused *)
                        if Nat.ltb (String.length s1) (String.length s0)
                        then iterate fuel' s1 c1 else None) with
             | Some res => Some res
             | None => k s0 c0
             end
         end) (String.length s) s c
  | Grp i r1 =>
      run r1 s c (fun s1 c1 => k s1 (set_capture i (consumed s s1) c1))
  end.

(** A pattern that starts with [^] (no [m] flag) is tried at index 0 only;
    nothing anchors the end. *)
Definition exec (r : re) (s : string) : option captures :=
  run r s no_captures (fun _ c => Some c).

Fixpoint lit (s : string) : re :=
  match s with
  | EmptyString => Eps
  | String a s' => Cat (Chr a) (lit s')
  end.

End Regex.

(* ================================================================== *)
(** ** Utility functions *)
(* ================================================================== *)

Import Regex.

Definition between (lo hi : nat) (c : ascii) : bool :=
  let n := nat_of_ascii c in Nat.leb lo n && Nat.leb n hi.

(** [\w] *)
Definition isWordChar (c : ascii) : bool :=
  between 97 122 c || between 65 90 c || between 48 57 c || Ascii.eqb c "_".

(** [[^#&?]] *)
Definition notHashAmpQuestion (c : ascii) : bool :=
  negb (Ascii.eqb c "#" || Ascii.eqb c "&" || Ascii.eqb c "?").

(** The pattern of [getYouTubeID], piece by piece (written with spaces):
    -  ^ .*                                           [Star Dot], from index 0
    -  ( (youtu.be\/) | (v\/) | (\/u\/\w\/) | (embed\/) | (watch\?) )
                                                      groups 1 to 6
    -  \??  v?  =?                                    three greedy options
    -  ( [^#&?]* )                                    group 7
    -  .*                                             the rest of the line *)
Definition regExp : re :=
  Cat (Star Dot)
   (Cat (Grp 1
          (Alt (Grp 2 (Cat (lit "youtu") (Cat Dot (lit "be/"))))
          (Alt (Grp 3 (lit "v/"))
          (Alt (Grp 4 (Cat (lit "/u/") (Cat (Cls isWordChar) (lit "/"))))
          (Alt (Grp 5 (lit "embed/"))
               (Grp 6 (lit "watch?")))))))
   (Cat (Opt (Chr "?"))
   (Cat (Opt (Chr "v"))
   (Cat (Opt (Chr "="))
   (Cat (Grp 7 (Star (Cls notHashAmpQuestion)))
        (Star Dot)))))).

(** [const getYouTubeID = (url) => { const match = url.match(regExp);
      return (match && match[7].length === 11) ? match[7] : null; }] *)
Definition getYouTubeID (url : string) : option string :=
  match exec regExp url with
  | Some m =>
      match m 7 with
      | Some g => if Nat.eqb (String.length g) 11 then Some g else None
      | None => None
      end
  | None => None
  end.

(* ================================================================== *)
(** ** Strings and truthiness, as JavaScript has them *)
(* ================================================================== *)

(** [!s] is true for the empty string only. *)
Definition truthy (s : string) : bool :=
  match s with EmptyString => false | String _ _ => true end.

(** [!v] for a [string | null]. *)
Definition truthyOpt (v : option string) : bool :=
  match v with Some s => truthy s | None => false end.

(** [a === b] between a [string | null] and a string. *)
Definition strictEq (v : option string) (s : string) : bool :=
  match v with Some a => String.eqb a s | None => false end.

(** White space and line terminators that [String.prototype.trim] strips
    (those that exist in the Latin-1 range): TAB, LF, VT, FF, CR, SP, NBSP. *)
Definition isWhiteSpace (c : ascii) : bool :=
  let n := nat_of_ascii c in
  Nat.eqb n 9 || Nat.eqb n 10 || Nat.eqb n 11 || Nat.eqb n 12 ||
  Nat.eqb n 13 || Nat.eqb n 32 || Nat.eqb n 160.

Fixpoint trimStart (s : string) : string :=
  match s with
  | String c s' => if isWhiteSpace c then trimStart s' else s
  | EmptyString => EmptyString
  end.

Fixpoint trimEnd (s : string) : string :=
  match s with
  | String c s' =>
      match trimEnd s' with
      | EmptyString => if isWhiteSpace c then EmptyString else String c EmptyString
      | t => String c t
      end
  | EmptyString => EmptyString
  end.

Definition trim (s : string) : string := trimEnd (trimStart s).

(** [Date.now().toString()]: the decimal digits of the millisecond count. *)
Definition Date_now_toString (now : N) : string :=
  NilZero.string_of_uint (N.to_uint now).

(* ================================================================== *)
(** ** The data model ([types.ts]) *)
(* ================================================================== *)

Record AdjustmentSettings : Type := mkAdjustments {
  brightness : Q;   (* 0-200, default 100 *)
  contrast   : Q;   (* 0-200, default 100 *)
  saturation : Q;   (* 0-200, default 100 *)
  grayscale  : Q;   (* 0-100, default 0 *)
  sepia      : Q;   (* 0-100, default 0 *)
  blur       : Q    (* 0-20, default 0 *)
}.

Record TextOverlay : Type := mkOverlay {
  id         : string;
  text       : string;
  x          : Q;   (* percentage 0-100 *)
  y          : Q;   (* percentage 0-100 *)
  color      : string;
  fontSize   : Q;
  fontFamily : string
}.

Definition DEFAULT_ADJUSTMENTS : AdjustmentSettings :=
  {| brightness := 100%Q; contrast := 100%Q; saturation := 100%Q;
     grayscale := 0%Q; sepia := 0%Q; blur := 0%Q |}.

(** [keyof AdjustmentSettings] *)
Inductive AdjustmentKey : Type :=
| K_brightness | K_contrast | K_saturation | K_grayscale | K_sepia | K_blur.

(** [{ ...prev, [key]: value }] *)
Definition setAdjustment (prev : AdjustmentSettings) (key : AdjustmentKey) (value : Q)
  : AdjustmentSettings :=
  match key with
  | K_brightness => {| brightness := value; contrast := contrast prev;
                       saturation := saturation prev; grayscale := grayscale prev;
                       sepia := sepia prev; blur := blur prev |}
  | K_contrast   => {| brightness := brightness prev; contrast := value;
                       saturation := saturation prev; grayscale := grayscale prev;
                       sepia := sepia prev; blur := blur prev |}
  | K_saturation => {| brightness := brightness prev; contrast := contrast prev;
                       saturation := value; grayscale := grayscale prev;
                       sepia := sepia prev; blur := blur prev |}
  | K_grayscale  => {| brightness := brightness prev; contrast := contrast prev;
                       saturation := saturation prev; grayscale := value;
                       sepia := sepia prev; blur := blur prev |}
  | K_sepia      => {| brightness := brightness prev; contrast := contrast prev;
                       saturation := saturation prev; grayscale := grayscale prev;
                       sepia := value; blur := blur prev |}
  | K_blur       => {| brightness := brightness prev; contrast := contrast prev;
                       saturation := saturation prev; grayscale := grayscale prev;
                       sepia := sepia prev; blur := value |}
  end.

(** A key of [TextOverlay] together with the value written under it. *)
Inductive OverlayUpdate : Type :=
| U_id (v : string) | U_text (v : string) | U_x (v : Q) | U_y (v : Q)
| U_color (v : string) | U_fontSize (v : Q) | U_fontFamily (v : string).

(** [{ ...t, [key]: value }] *)
Definition setOverlayField (t : TextOverlay) (u : OverlayUpdate) : TextOverlay :=
  match u with
  | U_id v         => mkOverlay v (text t) (x t) (y t) (color t) (fontSize t) (fontFamily t)
  | U_text v       => mkOverlay (id t) v (x t) (y t) (color t) (fontSize t) (fontFamily t)
  | U_x v          => mkOverlay (id t) (text t) v (y t) (color t) (fontSize t) (fontFamily t)
  | U_y v          => mkOverlay (id t) (text t) (x t) v (color t) (fontSize t) (fontFamily t)
  | U_color v      => mkOverlay (id t) (text t) (x t) (y t) v (fontSize t) (fontFamily t)
  | U_fontSize v   => mkOverlay (id t) (text t) (x t) (y t) (color t) v (fontFamily t)
  | U_fontFamily v => mkOverlay (id t) (text t) (x t) (y t) (color t) (fontSize t) v
  end.

Record Point : Type := mkPoint { px : Q; py : Q }.

(* ================================================================== *)
(** ** The state cells of [App] *)
(* ================================================================== *)

Record AppState : Type := mkState {
  youtubeUrl     : string;
  currentImage   : option string;
  adjustments    : AdjustmentSettings;
  aiPrompt       : string;
  isProcessing   : bool;
  errorMsg       : option string;
  textOverlays   : list TextOverlay;
  newText        : string;
  selectedTextId : option string;
  isDragging     : bool;
  dragOffset     : Point
}.

(** The values the [useState] calls start from. *)
Definition initialState : AppState :=
  {| youtubeUrl := ""; currentImage := None; adjustments := DEFAULT_ADJUSTMENTS;
     aiPrompt := ""; isProcessing := false; errorMsg := None; textOverlays := [];
     newText := ""; selectedTextId := None; isDragging := false;
     dragOffset := mkPoint 0%Q 0%Q |}.

(** One setter per state cell. *)
Definition setYoutubeUrl (v : string) (s : AppState) : AppState :=
  mkState v (currentImage s) (adjustments s) (aiPrompt s) (isProcessing s) (errorMsg s)
          (textOverlays s) (newText s) (selectedTextId s) (isDragging s) (dragOffset s).
Definition setCurrentImage (v : option string) (s : AppState) : AppState :=
  mkState (youtubeUrl s) v (adjustments s) (aiPrompt s) (isProcessing s) (errorMsg s)
          (textOverlays s) (newText s) (selectedTextId s) (isDragging s) (dragOffset s).
Definition setAdjustments (v : AdjustmentSettings) (s : AppState) : AppState :=
  mkState (youtubeUrl s) (currentImage s) v (aiPrompt s) (isProcessing s) (errorMsg s)
          (textOverlays s) (newText s) (selectedTextId s) (isDragging s) (dragOffset s).
Definition setAiPrompt (v : string) (s : AppState) : AppState :=
  mkState (youtubeUrl s) (currentImage s) (adjustments s) v (isProcessing s) (errorMsg s)
          (textOverlays s) (newText s) (selectedTextId s) (isDragging s) (dragOffset s).
Definition setIsProcessing (v : bool) (s : AppState) : AppState :=
  mkState (youtubeUrl s) (currentImage s) (adjustments s) (aiPrompt s) v (errorMsg s)
          (textOverlays s) (newText s) (selectedTextId s) (isDragging s) (dragOffset s).
Definition setErrorMsg (v : option string) (s : AppState) : AppState :=
  mkState (youtubeUrl s) (currentImage s) (adjustments s) (aiPrompt s) (isProcessing s) v
          (textOverlays s) (newText s) (selectedTextId s) (isDragging s) (dragOffset s).
Definition setTextOverlays (v : list TextOverlay) (s : AppState) : AppState :=
  mkState (youtubeUrl s) (currentImage s) (adjustments s) (aiPrompt s) (isProcessing s)
          (errorMsg s) v (newText s) (selectedTextId s) (isDragging s) (dragOffset s).
Definition setNewText (v : string) (s : AppState) : AppState :=
  mkState (youtubeUrl s) (currentImage s) (adjustments s) (aiPrompt s) (isProcessing s)
          (errorMsg s) (textOverlays s) v (selectedTextId s) (isDragging s) (dragOffset s).
Definition setSelectedTextId (v : option string) (s : AppState) : AppState :=
  mkState (youtubeUrl s) (currentImage s) (adjustments s) (aiPrompt s) (isProcessing s)
          (errorMsg s) (textOverlays s) (newText s) v (isDragging s) (dragOffset s).
Definition setIsDragging (v : bool) (s : AppState) : AppState :=
  mkState (youtubeUrl s) (currentImage s) (adjustments s) (aiPrompt s) (isProcessing s)
          (errorMsg s) (textOverlays s) (newText s) (selectedTextId s) v (dragOffset s).
Definition setDragOffset (v : Point) (s : AppState) : AppState :=
  mkState (youtubeUrl s) (currentImage s) (adjustments s) (aiPrompt s) (isProcessing s)
          (errorMsg s) (textOverlays s) (newText s) (selectedTextId s) (isDragging s) v.

(* ================================================================== *)
(** ** Handlers that do not touch the canvas *)
(* ================================================================== *)

(** [handleFetchYouTube], up to [await fetch(url)].  The second component
    tells whether the request was issued. *)
Definition handleFetchYouTube_begin (s : AppState) : AppState * bool :=
  let id := getYouTubeID (youtubeUrl s) in
  if negb (truthyOpt id)
  then (setErrorMsg (Some "INVALID TARGET URL") s, false)
  else (setIsProcessing true (setErrorMsg None s), true).

(** [handleFetchYouTube], from the settled request on: [Some objectUrl] when
    the response was ok, [None] when [fetch] threw or the response was not ok.
    The [finally] block runs in both cases. *)
Definition handleFetchYouTube_settle (response : option string) (s : AppState)
  : AppState :=
  let s1 :=
    match response with
    | Some objectUrl =>
        setSelectedTextId None
          (setTextOverlays []
             (setAdjustments DEFAULT_ADJUSTMENTS
                (setCurrentImage (Some objectUrl) s)))
    | None => setErrorMsg (Some "CONNECTION FAILED (Check URL or network)") s
    end in
  setIsProcessing false s1.

Definition handleReset (s : AppState) : AppState :=
  setSelectedTextId None (setTextOverlays [] (setAdjustments DEFAULT_ADJUSTMENTS s)).

Definition handleAdjustmentChange (key : AdjustmentKey) (value : Q) (s : AppState)
  : AppState :=
  setAdjustments (setAdjustment (adjustments s) key value) s.

(** [handleAddText]; [now] is what [Date.now()] reads when the click runs. *)
Definition handleAddText (now : N) (s : AppState) : AppState :=
  if negb (truthy (trim (newText s))) then s
  else
    let newId := Date_now_toString now in
    let newOverlay :=
      {| id := newId; text := newText s; x := 50%Q; y := 50%Q;
         color := "#00ff00"; fontSize := 48%Q; fontFamily := "Share Tech Mono" |} in
    setSelectedTextId (Some newId)
      (setNewText "" (setTextOverlays (textOverlays s ++ [newOverlay]) s)).

Definition updateSelectedText (u : OverlayUpdate) (s : AppState) : AppState :=
  if negb (truthyOpt (selectedTextId s)) then s
  else
    setTextOverlays
      (map (fun t => if strictEq (selectedTextId s) (id t) then setOverlayField t u else t)
           (textOverlays s))
      s.

(** The [onClick] of a row of the overlay list: [setSelectedTextId(t.id)]. *)
Definition selectOverlay (tid : string) (s : AppState) : AppState :=
  setSelectedTextId (Some tid) s.

(** The [onClick] of the [[X]] button of a row ([e.stopPropagation()] keeps
    the row's own handler from running):
    [setTextOverlays(prev => prev.filter(p => p.id !== t.id))]. *)
Definition deleteOverlay (tid : string) (s : AppState) : AppState :=
  setTextOverlays (filter (fun p => negb (String.eqb (id p) tid)) (textOverlays s)) s.

(** [handleDownload], up to [await drawToCanvas(...)].  The hidden canvas is
    mounted unconditionally, so [hiddenCanvasRef.current] is never null. *)
Definition handleDownload_begin (s : AppState) : AppState * bool :=
  if negb (truthyOpt (currentImage s)) then (s, false)
  else (setIsProcessing true s, true).

(** [handleDownload], after the drawing: the data URL is handed to a
    temporary link and the busy flag is cleared. *)
Definition handleDownload_finish (s : AppState) : AppState :=
  setIsProcessing false s.

(** [handleGeminiEdit], up to the first [await]. *)
Definition handleGeminiEdit_begin (s : AppState) : AppState * bool :=
  if negb (truthyOpt (currentImage s)) || negb (truthy (trim (aiPrompt s)))
  then (s, false)
  else (setErrorMsg None (setIsProcessing true s), true).

(** [handleGeminiEdit], from the settled call on: [inl newImageBase64] when
    [editImageWithGemini] resolved, [inr message] when the [try] block threw
    ([message] is [e.message || "AI PROTOCOL FAILED"]). *)
Definition handleGeminiEdit_settle (result : string + string) (s : AppState)
  : AppState :=
  let s1 :=
    match result with
    | inl newImageBase64 =>
        setAiPrompt ""
          (setTextOverlays []
             (setAdjustments DEFAULT_ADJUSTMENTS
                (setCurrentImage (Some newImageBase64) s)))
    | inr message => setErrorMsg (Some message) s
    end in
  setIsProcessing false s1.

(** The [disabled] attributes of the three buttons that start a long
    operation.  A disabled button dispatches no click. *)
Definition executeDisabled (s : AppState) : bool := isProcessing s.

Definition exportDisabled (s : AppState) : bool :=
  negb (truthyOpt (currentImage s)) || isProcessing s.

Definition compileEditDisabled (s : AppState) : bool :=
  negb (truthyOpt (currentImage s)) || isProcessing s || negb (truthy (aiPrompt s)).

(* ================================================================== *)
(** ** The canvas *)
(* ================================================================== *)

(** The value of [ctx.font], kept structured: weight, size in pixels and the
    list of families ([bold 48px "Impact", monospace] has two). *)
Record Font : Type := mkFont {
  bold     : bool;
  sizePx   : Q;
  families : list string
}.

(** One function of a [ctx.filter] list; the empty list is ['none']. *)
Inductive FilterFunction : Type :=
| f_brightness (percent : Q)
| f_contrast (percent : Q)
| f_saturate (percent : Q)
| f_grayscale (percent : Q)
| f_sepia (percent : Q)
| f_blur (pixels : Q).

(** The drawing state of a 2D context, restricted to what [App] sets. *)
Record ContextState : Type := mkContext {
  filter        : list FilterFunction;
  fillStyle     : string;
  font          : Font;
  textAlign     : string;
  textBaseline  : string;
  shadowColor   : string;
  shadowBlur    : Q;
  shadowOffsetX : Q;
  shadowOffsetY : Q;
  strokeStyle   : string;
  lineWidth     : Q;
  lineDash      : list Q
}.

(** The state of a fresh context; assigning [canvas.width] or
    [canvas.height] puts the context back into it. *)
Definition defaultContext : ContextState :=
  {| filter := []; fillStyle := "#000000";
     font := mkFont false 10%Q ["sans-serif"];
     textAlign := "start"; textBaseline := "alphabetic";
     shadowColor := "rgba(0, 0, 0, 0)"; shadowBlur := 0%Q;
     shadowOffsetX := 0%Q; shadowOffsetY := 0%Q;
     strokeStyle := "#000000"; lineWidth := 1%Q; lineDash := [] |}.

(** A decoded image: what [img.onload] sees. *)
Record Image : Type := mkImage {
  src           : string;
  naturalWidth  : N;
  naturalHeight : N
}.

(** What has been painted, each operation with the drawing state it ran in. *)
Inductive Paint : Type :=
| DrawImage (img : Image) (dx dy : Q) (st : ContextState)
| FillText (txt : string) (tx ty : Q) (st : ContextState)
| StrokeRect (rx ry rw rh : Q) (st : ContextState).

(** The two canvases of [App]. *)
Inductive CanvasRef : Type :=
| canvasRef          (* the visible preview *)
| hiddenCanvasRef.   (* the export surface *)

Definition isPreview (r : CanvasRef) : bool :=
  match r with canvasRef => true | hiddenCanvasRef => false end.

Record Canvas : Type := mkCanvas {
  element : CanvasRef;
  width   : N;
  height  : N;
  context : ContextState;
  bitmap  : list Paint      (* in painting order, since the last resize *)
}.

Definition NtoQ (n : N) : Q := inject_Z (Z.of_N n).

(** [canvas.width = w]: resizes, clears the bitmap, resets the context. *)
Definition setWidth (w : N) (c : Canvas) : Canvas :=
  mkCanvas (element c) w (height c) defaultContext [].

Definition setHeight (h : N) (c : Canvas) : Canvas :=
  mkCanvas (element c) (width c) h defaultContext [].

Definition withContext (f : ContextState -> ContextState) (c : Canvas) : Canvas :=
  mkCanvas (element c) (width c) (height c) (f (context c)) (bitmap c).

Definition paint (p : ContextState -> Paint) (c : Canvas) : Canvas :=
  mkCanvas (element c) (width c) (height c) (context c) (bitmap c ++ [p (context c)]).

(** Assignments to the properties of the context. *)
Definition set_filter (v : list FilterFunction) (st : ContextState) : ContextState :=
  mkContext v (fillStyle st) (font st) (textAlign st) (textBaseline st) (shadowColor st)
            (shadowBlur st) (shadowOffsetX st) (shadowOffsetY st) (strokeStyle st)
            (lineWidth st) (lineDash st).
Definition set_fillStyle (v : string) (st : ContextState) : ContextState :=
  mkContext (filter st) v (font st) (textAlign st) (textBaseline st) (shadowColor st)
            (shadowBlur st) (shadowOffsetX st) (shadowOffsetY st) (strokeStyle st)
            (lineWidth st) (lineDash st).
Definition set_font (v : Font) (st : ContextState) : ContextState :=
  mkContext (filter st) (fillStyle st) v (textAlign st) (textBaseline st) (shadowColor st)
            (shadowBlur st) (shadowOffsetX st) (shadowOffsetY st) (strokeStyle st)
            (lineWidth st) (lineDash st).
Definition set_textAlign (v : string) (st : ContextState) : ContextState :=
  mkContext (filter st) (fillStyle st) (font st) v (textBaseline st) (shadowColor st)
            (shadowBlur st) (shadowOffsetX st) (shadowOffsetY st) (strokeStyle st)
            (lineWidth st) (lineDash st).
Definition set_textBaseline (v : string) (st : ContextState) : ContextState :=
  mkContext (filter st) (fillStyle st) (font st) (textAlign st) v (shadowColor st)
            (shadowBlur st) (shadowOffsetX st) (shadowOffsetY st) (strokeStyle st)
            (lineWidth st) (lineDash st).
Definition set_shadowColor (v : string) (st : ContextState) : ContextState :=
  mkContext (filter st) (fillStyle st) (font st) (textAlign st) (textBaseline st) v
            (shadowBlur st) (shadowOffsetX st) (shadowOffsetY st) (strokeStyle st)
            (lineWidth st) (lineDash st).
Definition set_shadowBlur (v : Q) (st : ContextState) : ContextState :=
  mkContext (filter st) (fillStyle st) (font st) (textAlign st) (textBaseline st)
            (shadowColor st) v (shadowOffsetX st) (shadowOffsetY st) (strokeStyle st)
            (lineWidth st) (lineDash st).
Definition set_shadowOffsetX (v : Q) (st : ContextState) : ContextState :=
  mkContext (filter st) (fillStyle st) (font st) (textAlign st) (textBaseline st)
            (shadowColor st) (shadowBlur st) v (shadowOffsetY st) (strokeStyle st)
            (lineWidth st) (lineDash st).
Definition set_shadowOffsetY (v : Q) (st : ContextState) : ContextState :=
  mkContext (filter st) (fillStyle st) (font st) (textAlign st) (textBaseline st)
            (shadowColor st) (shadowBlur st) (shadowOffsetX st) v (strokeStyle st)
            (lineWidth st) (lineDash st).
Definition set_strokeStyle (v : string) (st : ContextState) : ContextState :=
  mkContext (filter st) (fillStyle st) (font st) (textAlign st) (textBaseline st)
            (shadowColor st) (shadowBlur st) (shadowOffsetX st) (shadowOffsetY st) v
            (lineWidth st) (lineDash st).
Definition set_lineWidth (v : Q) (st : ContextState) : ContextState :=
  mkContext (filter st) (fillStyle st) (font st) (textAlign st) (textBaseline st)
            (shadowColor st) (shadowBlur st) (shadowOffsetX st) (shadowOffsetY st)
            (strokeStyle st) v (lineDash st).
Definition setLineDash (v : list Q) (st : ContextState) : ContextState :=
  mkContext (filter st) (fillStyle st) (font st) (textAlign st) (textBaseline st)
            (shadowColor st) (shadowBlur st) (shadowOffsetX st) (shadowOffsetY st)
            (strokeStyle st) (lineWidth st) v.

(** The pointer event and the layout of the preview canvas on screen. *)
Record MouseEvent : Type := mkMouse { clientX : Q; clientY : Q }.

Record DOMRect : Type := mkRect {
  rect_left : Q; rect_top : Q; rect_width : Q; rect_height : Q
}.

Record Box : Type := mkBox {
  box_left : Q; box_right : Q; box_top : Q; box_bottom : Q
}.

(** Operations that are waiting on a promise. *)
Inductive Operation : Type :=
| FetchThumbnail
| ExportImage
| GeminiEdit.

Section Editor.

Local Open Scope Q_scope.

(** [ctx.measureText(text).width] under a given [ctx.font]: the text
    measurement of the browser, which the program takes as given. *)
Variable measureText : Font -> string -> Q.

(* ---------------------------------------------------------------- *)
(** *** Canvas interaction (drag and drop) *)
(* ---------------------------------------------------------------- *)

(** [getCanvasCoordinates]; [rect] is [canvas.getBoundingClientRect()]. *)
Definition getCanvasCoordinates (canvas : Canvas) (rect : DOMRect) (e : MouseEvent)
  : Point :=
  let scaleX := NtoQ (width canvas) / rect_width rect in
  let scaleY := NtoQ (height canvas) / rect_height rect in
  {| px := (clientX e - rect_left rect) * scaleX;
     py := (clientY e - rect_top rect) * scaleY |}.

(** [textX], [textY] of the collision loop. *)
Definition textAnchor (canvas : Canvas) (overlay : TextOverlay) : Point :=
  {| px := (x overlay / 100) * NtoQ (width canvas);
     py := (y overlay / 100) * NtoQ (height canvas) |}.

(** [left], [right], [top], [bottom] of the collision loop. *)
Definition hitBox (canvas : Canvas) (overlay : TextOverlay) : Box :=
  let fontSizePx := fontSize overlay * (NtoQ (width canvas) / 1000) in
  let ctx_font := mkFont true fontSizePx [fontFamily overlay] in
  let textWidth := measureText ctx_font (text overlay) in
  let textHeight := fontSizePx in
  let textX := px (textAnchor canvas overlay) in
  let textY := py (textAnchor canvas overlay) in
  {| box_left := textX - textWidth / 2;
     box_right := textX + textWidth / 2;
     box_top := textY - textHeight / 2;
     box_bottom := textY + textHeight / 2 |}.

(** [x >= left && x <= right && y >= top && y <= bottom] *)
Definition inBox (b : Box) (p : Point) : bool :=
  Qle_bool (box_left b) (px p) && Qle_bool (px p) (box_right b) &&
  Qle_bool (box_top b) (py p) && Qle_bool (py p) (box_bottom b).

(** [for (let i = textOverlays.length - 1; i >= 0; i--)]: [hitLoop n]
    runs the iterations [i = n-1, ..., 0] and yields the overlay at which
    the loop returns. *)
Fixpoint hitLoop (canvas : Canvas) (p : Point) (overlays : list TextOverlay)
         (n : nat) : option TextOverlay :=
  match n with
  | O => None
  | S i =>
      match nth_error overlays i with
      | Some overlay =>
          if inBox (hitBox canvas overlay) p then Some overlay
          else hitLoop canvas p overlays i
      | None => hitLoop canvas p overlays i
      end
  end.

Definition hitTest (canvas : Canvas) (p : Point) (overlays : list TextOverlay)
  : option TextOverlay :=
  hitLoop canvas p overlays (List.length overlays).

(** [handleCanvasMouseDown]; the event comes from the preview canvas, so
    [canvasRef.current] is that canvas and it has a 2D context. *)
Definition handleCanvasMouseDown (canvas : Canvas) (rect : DOMRect) (e : MouseEvent)
           (s : AppState) : AppState :=
  if negb (truthyOpt (currentImage s)) then s
  else
    let p := getCanvasCoordinates canvas rect e in
    match hitTest canvas p (textOverlays s) with
    | Some overlay =>
        setDragOffset
          {| px := px p - px (textAnchor canvas overlay);
             py := py p - py (textAnchor canvas overlay) |}
          (setIsDragging true (setSelectedTextId (Some (id overlay)) s))
    | None => setSelectedTextId None s
    end.

(** [{ ...t, x: newX, y: newY }] *)
Definition moveTo (t : TextOverlay) (newX newY : Q) : TextOverlay :=
  mkOverlay (id t) (text t) newX newY (color t) (fontSize t) (fontFamily t).

Definition handleCanvasMouseMove (canvas : Canvas) (rect : DOMRect) (e : MouseEvent)
           (s : AppState) : AppState :=
  if negb (isDragging s) || negb (truthyOpt (selectedTextId s)) then s
  else
    let p := getCanvasCoordinates canvas rect e in
    let newX := ((px p - px (dragOffset s)) / NtoQ (width canvas)) * 100 in
    let newY := ((py p - py (dragOffset s)) / NtoQ (height canvas)) * 100 in
    setTextOverlays
      (map (fun t => if strictEq (selectedTextId s) (id t) then moveTo t newX newY else t)
           (textOverlays s))
      s.

Definition handleCanvasMouseUp (s : AppState) : AppState :=
  setIsDragging false s.

(* ---------------------------------------------------------------- *)
(** *** Image processing *)
(* ---------------------------------------------------------------- *)

(** [filterString] *)
Definition filterString (adjs : AdjustmentSettings) : list FilterFunction :=
  [ f_brightness (brightness adjs); f_contrast (contrast adjs);
    f_saturate (saturation adjs); f_grayscale (grayscale adjs);
    f_sepia (sepia adjs); f_blur (blur adjs) ].

(** The rectangle of the dashed outline: the arguments of [strokeRect]. *)
Definition selectionRect (metrics_width fontSizePx xPos yPos : Q) : Q * Q * Q * Q :=
  let width := metrics_width + 20 in
  let height := fontSizePx + 20 in
  (xPos - width / 2, yPos - height / 2, width, height).

(** The body of [overlays.forEach(overlay => ...)]. *)
Definition drawOverlay (selectionId : option string) (canvas : Canvas)
           (overlay : TextOverlay) : Canvas :=
  let fontSizePx := fontSize overlay * (NtoQ (width canvas) / 1000) in
  let c1 := withContext (set_fillStyle (color overlay)) canvas in
  let c2 := withContext
              (set_font (mkFont true fontSizePx [fontFamily overlay; "monospace"])) c1 in
  let c3 := withContext (set_textAlign "center") c2 in
  let c4 := withContext (set_textBaseline "middle") c3 in
  let c5 := withContext (set_shadowColor "rgba(0,0,0,1)") c4 in
  let c6 := withContext (set_shadowBlur 0) c5 in
  let c7 := withContext (set_shadowOffsetX 4) c6 in
  let c8 := withContext (set_shadowOffsetY 4) c7 in
  let xPos := (x overlay / 100) * NtoQ (width canvas) in
  let yPos := (y overlay / 100) * NtoQ (height canvas) in
  let c9 := paint (FillText (text overlay) xPos yPos) c8 in
  (* only on the preview canvas, not on the hidden export one *)
  if strictEq selectionId (id overlay) && isPreview (element canvas)
  then
    let metrics_width := measureText (font (context c9)) (text overlay) in
    let '(rx, ry, rw, rh) := selectionRect metrics_width fontSizePx xPos yPos in
    let c10 := withContext (set_strokeStyle "#00ff00") c9 in
    let c11 := withContext (set_lineWidth 2) c10 in
    let c12 := withContext (setLineDash [5; 5]) c11 in
    let c13 := paint (StrokeRect rx ry rw rh) c12 in
    withContext (setLineDash []) c13
  else c9.

(** [drawToCanvas], from [img.onload] on: [img] is the decoded [imgSrc]. *)
Definition drawToCanvas (canvas : Canvas) (img : Image) (adjs : AdjustmentSettings)
           (overlays : list TextOverlay) (selectionId : option string) : Canvas :=
  let c1 := setWidth (naturalWidth img) canvas in
  let c2 := setHeight (naturalHeight img) c1 in
  let c3 := withContext (set_filter (filterString adjs)) c2 in
  let c4 := paint (DrawImage img 0 0) c3 in
  let c5 := withContext (set_filter []) c4 in
  fold_left (drawOverlay selectionId) overlays c5.

(* ---------------------------------------------------------------- *)
(** *** The session: state cells, operations in flight, events *)
(* ---------------------------------------------------------------- *)

Record Session : Type := mkSession {
  app      : AppState;
  inflight : list Operation
}.

(** What can happen to a mounted [App]: the user acts on an element of
    the page, or an awaited promise settles. *)
Inductive Event : Type :=
| ClickExecute
| ClickExport
| ClickCompileEdit
| ClickReboot
| ClickAdd (now : N)
| ClickRow (tid : string)
| ClickDelete (tid : string)
| InputUrl (v : string)
| InputPrompt (v : string)
| InputNewText (v : string)
| InputSlider (key : AdjustmentKey) (v : Q)
| SelectFontFamily (v : string)
| SlideFontSize (v : Q)
| PickColor (v : string)
| MouseDown (canvas : Canvas) (rect : DOMRect) (e : MouseEvent)
| MouseMove (canvas : Canvas) (rect : DOMRect) (e : MouseEvent)
| MouseUp
| MouseLeave
| FetchSettled (response : option string)
| ExportDrawn
| GeminiSettled (result : string + string).

Definition Operation_eqb (a b : Operation) : bool :=
  match a, b with
  | FetchThumbnail, FetchThumbnail => true
  | ExportImage, ExportImage => true
  | GeminiEdit, GeminiEdit => true
  | _, _ => false
  end.

Fixpoint removeFirst (op : Operation) (l : list Operation) : option (list Operation) :=
  match l with
  | [] => None
  | o :: l' =>
      if Operation_eqb op o then Some l'
      else match removeFirst op l' with
           | Some r => Some (o :: r)
           | None => None
           end
  end.

(** A click on a button whose handler is async: nothing when the button is
    disabled; otherwise the handler runs to its first [await]. *)
Definition clickAsync (disabled : bool) (begin : AppState -> AppState * bool)
           (op : Operation) (ss : Session) : Session :=
  if disabled then ss
  else
    let '(s', started) := begin (app ss) in
    mkSession s' (if started then inflight ss ++ [op] else inflight ss).

(** The continuation of an async handler runs when its promise settles. *)
Definition settle (op : Operation) (continue : AppState -> AppState) (ss : Session)
  : Session :=
  match removeFirst op (inflight ss) with
  | Some rest => mkSession (continue (app ss)) rest
  | None => ss
  end.

Definition sync (handler : AppState -> AppState) (ss : Session) : Session :=
  mkSession (handler (app ss)) (inflight ss).

(** A row of the overlay list exists for the overlays of the list only. *)
Definition hasRow (tid : string) (s : AppState) : bool :=
  existsb (fun t => String.eqb (id t) tid) (textOverlays s).

(** The controls of the selected text are rendered under
    [selectedTextId && ...] only. *)
Definition selectedControl (u : OverlayUpdate) (ss : Session) : Session :=
  if truthyOpt (selectedTextId (app ss)) then sync (updateSelectedText u) ss else ss.

Definition step (ev : Event) (ss : Session) : Session :=
  let s := app ss in
  match ev with
  | ClickExecute =>
      clickAsync (executeDisabled s) handleFetchYouTube_begin FetchThumbnail ss
  | ClickExport =>
      clickAsync (exportDisabled s) handleDownload_begin ExportImage ss
  | ClickCompileEdit =>
      clickAsync (compileEditDisabled s) handleGeminiEdit_begin GeminiEdit ss
  | ClickReboot => sync handleReset ss
  | ClickAdd now => sync (handleAddText now) ss
  | ClickRow tid => if hasRow tid s then sync (selectOverlay tid) ss else ss
  | ClickDelete tid => if hasRow tid s then sync (deleteOverlay tid) ss else ss
  | InputUrl v => sync (setYoutubeUrl v) ss
  | InputPrompt v => sync (setAiPrompt v) ss
  | InputNewText v => sync (setNewText v) ss
  | InputSlider key v => sync (handleAdjustmentChange key v) ss
  | SelectFontFamily v => selectedControl (U_fontFamily v) ss
  | SlideFontSize v => selectedControl (U_fontSize v) ss
  | PickColor v => selectedControl (U_color v) ss
  | MouseDown canvas rect e => sync (handleCanvasMouseDown canvas rect e) ss
  | MouseMove canvas rect e => sync (handleCanvasMouseMove canvas rect e) ss
  | MouseUp => sync handleCanvasMouseUp ss
  | MouseLeave => sync handleCanvasMouseUp ss
  | FetchSettled response =>
      settle FetchThumbnail (handleFetchYouTube_settle response) ss
  | ExportDrawn => settle ExportImage handleDownload_finish ss
  | GeminiSettled result =>
      settle GeminiEdit (handleGeminiEdit_settle result) ss
  end.

Definition run_events (evs : list Event) (ss : Session) : Session :=
  fold_left (fun acc ev => step ev acc) evs ss.

Definition initialSession : Session := mkSession initialState [].

(** The selection refers to an overlay of the list, or is empty. *)
Definition selectionValid (s : AppState) : bool :=
  match selectedTextId s with
  | None => true
  | Some sid => existsb (fun t => String.eqb (id t) sid) (textOverlays s)
  end.

End Editor.

(* ================================================================== *)
(** ** The Gemini service ([services/geminiService.ts]) *)
(* ================================================================== *)

Module GeminiService.

(** The pieces of a request and of a response that the service touches.
    A field that may be [undefined] is an [option]. *)
Record InlineData : Type := mkInlineData {
  data     : option string;
  mimeType : option string
}.

Record Part : Type := mkPart {
  inlineData : option InlineData;
  text       : option string
}.

Record Content : Type := mkContent { parts : option (list Part) }.

Record Candidate : Type := mkCandidate { content : option Content }.

Record GenerateContentResponse : Type := mkResponse {
  candidates : option (list Candidate)
}.

(** The argument of [ai.models.generateContent]. *)
Record GenerateContentParameters : Type := mkParameters {
  model    : string;
  contents : Content
}.

(** What the client library does with a key and a request: it resolves with
    a response or throws an error, whose [message] may be missing. *)
Definition GenerateContent : Type :=
  string -> GenerateContentParameters -> GenerateContentResponse + option string.

(** [a || b] between a possibly missing string and a default. *)
Definition orElse (a : option string) (b : string) : string :=
  match a with
  | Some s => if truthy s then s else b
  | None => b
  end.

(** [response.candidates?.[0]?.content?.parts] *)
Definition responseParts (response : GenerateContentResponse) : option (list Part) :=
  match candidates response with
  | Some (first :: _) =>
      match content first with
      | Some c => parts c
      | None => None
      end
  | _ => None
  end.

(** [for (const part of parts) { if (part.inlineData && part.inlineData.data)
      { ... return `data:${newMime};base64,${part.inlineData.data}`; } }] *)
Fixpoint firstImage (ps : list Part) : option string :=
  match ps with
  | [] => None
  | part :: rest =>
      match inlineData part with
      | Some inline =>
          match data inline with
          | Some d =>
              if truthy d
              then
                let newMime := orElse (mimeType inline) "image/png" in
                Some ("data:" ++ newMime ++ ";base64," ++ d)%string
              else firstImage rest
          | None => firstImage rest
          end
      | None => firstImage rest
      end
  end.

(** The object literal handed to [generateContent]. *)
Definition request (base64Image mimeType : string) (prompt : option string)
  : GenerateContentParameters :=
  {| model := "gemini-2.5-flash-image";
     contents :=
       {| parts :=
            Some [ {| inlineData :=
                        Some {| data := Some base64Image; mimeType := Some mimeType |};
                      text := None |};
                   {| inlineData := None; text := prompt |} ] |} |}.

(** [editImageWithGemini]: [inl] is the value the promise resolves with,
    [inr] the message of the error it rejects with.  [prompt] is [None]
    when the caller passes three arguments only. *)
Definition editImageWithGemini (generateContent : GenerateContent)
           (apiKey base64Image mimeType : string) (prompt : option string)
  : string + string :=
  if negb (truthy apiKey) then inr "ACCESS DENIED: MISSING API KEY"
  else
    let thrown : string + option string :=
      match generateContent apiKey (request base64Image mimeType prompt) with
      | inl response =>
          match responseParts response with
          | Some ps =>
              match firstImage ps with
              | Some url => inl url
              | None => inr (Some "GENERATION FAILED: NO IMAGE DATA RETURNED")
              end
          | None => inr (Some "GENERATION FAILED: NO IMAGE DATA RETURNED")
          end
      | inr message => inr message
      end in
    match thrown with
    | inl url => inl url
    | inr message => inr (orElse message "AI PROTOCOL FAILURE")
    end.

(** A part that carries image data: inline data with a non-empty string. *)
Definition carriesImage (part : Part) : bool :=
  match inlineData part with
  | Some inline => truthyOpt (data inline)
  | None => false
  end.

End GeminiService.

(** The call of [handleGeminiEdit]:
    [await editImageWithGemini(base64, 'image/png', aiPrompt)], three
    arguments for the four parameters; and what its [catch] makes of a
    rejection, [e.message || "AI PROTOCOL FAILED"]. *)
Definition handleGeminiEdit_call (generateContent : GeminiService.GenerateContent)
           (base64 aiPrompt : string) : string + string :=
  match GeminiService.editImageWithGemini generateContent base64 "image/png" aiPrompt None with
  | inl newImageBase64 => inl newImageBase64
  | inr message => inr (GeminiService.orElse (Some message) "AI PROTOCOL FAILED")
  end.

(* ================================================================== *)
(** ** What the controls of the selected text show *)
(* ================================================================== *)

(** [textOverlays.find(t => t.id === selectedTextId)] *)
Definition findSelected (s : AppState) : option TextOverlay :=
  find (fun t => strictEq (selectedTextId s) (id t)) (textOverlays s).

(** [find(...)?.fontFamily || 'Share Tech Mono'] *)
Definition shownFontFamily (s : AppState) : string :=
  match findSelected s with
  | Some t => if truthy (fontFamily t) then fontFamily t else "Share Tech Mono"
  | None => "Share Tech Mono"
  end.

(** [find(...)?.fontSize || 48]: the number 0 is falsy. *)
Definition shownFontSize (s : AppState) : Q :=
  match findSelected s with
  | Some t => if Qeq_bool (fontSize t) 0 then 48%Q else fontSize t
  | None => 48%Q
  end.

(** [find(...)?.color || '#00ff00'] *)
Definition shownColor (s : AppState) : string :=
  match findSelected s with
  | Some t => if truthy (color t) then color t else "#00ff00"
  | None => "#00ff00"
  end.

(* ================================================================== *)
(** ** Vocabulary of the properties, and sample inputs *)
(* ================================================================== *)

Fixpoint allWhiteSpace (s : string) : bool :=
  match s with
  | EmptyString => true
  | String c s' => isWhiteSpace c && allWhiteSpace s'
  end.

(** Captures only accumulate along a match. *)
Definition extends (c c' : captures) : Prop :=
  forall i, c i <> None -> c' i <> None.

Definition typing (v : string) : AppState := setNewText v initialState.

(** A text measurement in the manner of a fixed-pitch font: every character
    is six tenths of the font size wide. *)
Definition monoMeasure (f : Font) (t : string) : Q :=
  (sizePx f * (6 # 10) * inject_Z (Z.of_nat (String.length t)))%Q.

(** A session in which a thumbnail has been fetched and one label added. *)
Definition labelled : Session :=
  run_events monoMeasure
    [ InputUrl "https://youtu.be/dQw4w9WgXcQ"; ClickExecute;
      FetchSettled (Some "blob:thumbnail");
      InputNewText "HELLO"; ClickAdd 1700000000000 ]
    initialSession.

(** The identifiers of the overlays of a session, in list order. *)
Definition sessionIds (ss : Session) : list string :=
  map id (textOverlays (app ss)).

(** The readings of [Date.now()] at the clicks on ADD, in order. *)
Fixpoint addTimes (evs : list Event) : list N :=
  match evs with
  | [] => []
  | ClickAdd now :: evs' => now :: addTimes evs'
  | _ :: evs' => addTimes evs'
  end.

(** [l'] keeps distinctness and brings nothing that is not in [l]. *)
Definition idsWithin (l' l : list string) : Prop :=
  (NoDup l -> NoDup l') /\ incl l' l.

(** The identifiers are pairwise distinct and each prints a reading of
    [used]. *)
Definition idsFrom (used : list N) (ss : Session) : Prop :=
  NoDup (sessionIds ss) /\ incl (sessionIds ss) (map Date_now_toString used).

(** The buttons that start a long operation. *)
Definition startsLongOperation (ev : Event) : bool :=
  match ev with
  | ClickExecute | ClickExport | ClickCompileEdit => true
  | _ => false
  end.

(** The busy flag is set exactly while one operation is in flight, and
    there is never a second one. *)
Definition busyInvariant (ss : Session) : Prop :=
  (isProcessing (app ss) = true /\ exists op, inflight ss = [op]) \/
  (isProcessing (app ss) = false /\ inflight ss = []).

(** The same session with a prompt typed and a second fetch in flight. *)
Definition fetching : Session :=
  run_events monoMeasure [ InputPrompt "add a sunset"; ClickExecute ] labelled.

(** Two canvases show the same picture: same size, same painted operations,
    same drawing state.  Which element they are does not matter. *)
Definition samePicture (a b : Canvas) : Prop :=
  width a = width b /\ height a = height b /\
  context a = context b /\ bitmap a = bitmap b.

(** [r] is the topmost overlay of [overlays] (the one of greatest index)
    whose box contains [p], or nothing when no box contains [p]. *)
Definition topmostHit (measureText : Font -> string -> Q) (canvas : Canvas)
           (p : Point) (overlays : list TextOverlay) (r : option TextOverlay) : Prop :=
  match r with
  | Some o =>
      exists i,
        nth_error overlays i = Some o /\
        inBox (hitBox measureText canvas o) p = true /\
        forall j o', i < j -> nth_error overlays j = Some o' ->
                     inBox (hitBox measureText canvas o') p = false
  | None =>
      forall o', In o' overlays -> inBox (hitBox measureText canvas o') p = false
  end.

(** The preview canvas showing a 1280x720 thumbnail at half size, and two
    labels on top of each other in its middle. *)
Definition preview720 : Canvas := mkCanvas canvasRef 1280 720 defaultContext [].
Definition halfSize : DOMRect := mkRect 0%Q 0%Q 640%Q 360%Q.
Definition labelA : TextOverlay :=
  mkOverlay "1700000000000" "HELLO" 50%Q 50%Q "#00ff00" 48%Q "Share Tech Mono".
Definition labelB : TextOverlay :=
  mkOverlay "1700000005000" "WORLD" 50%Q 50%Q "#00ff00" 48%Q "Share Tech Mono".
Definition twoLabels : AppState :=
  setTextOverlays [labelA; labelB] (setCurrentImage (Some "blob:thumbnail") initialState).

Local Open Scope Q_scope.

(** A stroked rectangle is given by its corner and its size. *)
Definition Rect : Type := (Q * Q * Q * Q)%type.

Definition boxWidth (b : Box) : Q := box_right b - box_left b.
Definition boxHeight (b : Box) : Q := box_bottom b - box_top b.
Definition boxCenterX (b : Box) : Q := (box_left b + box_right b) / 2.
Definition boxCenterY (b : Box) : Q := (box_top b + box_bottom b) / 2.

(** [r] has the centre of [b] and is [d] wider and [d] taller. *)
Definition paddedBy (d : Q) (r : Rect) (b : Box) : Prop :=
  let '(rx, ry, rw, rh) := r in
  rw == boxWidth b + d /\ rh == boxHeight b + d /\
  rx + rw / 2 == boxCenterX b /\ ry + rh / 2 == boxCenterY b.

(** [r] and [b] are the same box: same width, same height, same centre. *)
Definition sameGeometry (r : Rect) (b : Box) : Prop :=
  let '(rx, ry, rw, rh) := r in
  rw == boxWidth b /\ rh == boxHeight b /\
  rx + rw / 2 == boxCenterX b /\ ry + rh / 2 == boxCenterY b.

(** The rectangles stroked on a canvas, in painting order. *)
Fixpoint outlines (bm : list Paint) : list Rect :=
  match bm with
  | [] => []
  | StrokeRect rx ry rw rh _ :: bm' => (rx, ry, rw, rh) :: outlines bm'
  | _ :: bm' => outlines bm'
  end.

(** The fonts under which the two sides measure the text of an overlay. *)
Definition fontSizePxOf (canvas : Canvas) (o : TextOverlay) : Q :=
  fontSize o * (NtoQ (width canvas) / 1000).
Definition renderFont (canvas : Canvas) (o : TextOverlay) : Font :=
  mkFont true (fontSizePxOf canvas o) [fontFamily o; "monospace"%string].
Definition hitFont (canvas : Canvas) (o : TextOverlay) : Font :=
  mkFont true (fontSizePxOf canvas o) [fontFamily o].

(** The rectangle [drawOverlay] strokes around a selected overlay. *)
Definition outlineOf (measureText : Font -> string -> Q) (canvas : Canvas)
           (o : TextOverlay) : Rect :=
  selectionRect (measureText (renderFont canvas o) (text o))
                (fontSizePxOf canvas o)
                ((x o / 100) * NtoQ (width canvas))
                ((y o / 100) * NtoQ (height canvas)).

Definition thumbnail720 : Image := mkImage "blob:thumbnail" 1280 720.

(** The events on which the selection can be left dangling: the delete
    button of the selected row, and an AI edit that resolves. *)
Definition breaksSelection (ev : Event) (s : AppState) : bool :=
  match ev with
  | ClickDelete tid => strictEq (selectedTextId s) tid
  | GeminiSettled (inl _) => true
  | _ => false
  end.

(** A pointer-down followed by a pointer-move, on the preview canvas. *)
Definition dragged (measureText : Font -> string -> Q) (canvas : Canvas)
           (rect : DOMRect) (e1 e2 : MouseEvent) (s : AppState) : AppState :=
  handleCanvasMouseMove canvas rect e2
    (handleCanvasMouseDown measureText canvas rect e1 s).

(** The anchor of [o'] is the anchor of [o] moved by [p2 - p1]. *)
Definition anchorMovedBy (canvas : Canvas) (o o' : TextOverlay) (p1 p2 : Point) : Prop :=
  px (textAnchor canvas o') == px (textAnchor canvas o) + (px p2 - px p1) /\
  py (textAnchor canvas o') == py (textAnchor canvas o) + (py p2 - py p1).

Definition sameAppearance (o o' : TextOverlay) : Prop :=
  id o' = id o /\ text o' = text o /\ color o' = color o /\
  fontSize o' = fontSize o /\ fontFamily o' = fontFamily o.

Definition pointerDown : MouseEvent := mkMouse 320%Q 180%Q.
Definition pointerMoved : MouseEvent := mkMouse 330%Q 180%Q.

(** A press inside the box of the labels but off their anchor: on the
    canvas it is 40 pixels left of the anchor and 10 above it. *)
Definition pointerOffCentre : MouseEvent := mkMouse 300%Q 175%Q.

(** The events that lead from the initial session to a thumbnail with the
    two labels on it. *)
Definition twoLabelEvents : list Event :=
  [ InputUrl "https://youtu.be/dQw4w9WgXcQ"; ClickExecute;
    FetchSettled (Some "blob:thumbnail");
    InputNewText "HELLO"; ClickAdd 1700000000000;
    InputNewText "WORLD"; ClickAdd 1700000005000 ].

(** The filter list of the neutral settings. *)
Definition neutralFilter : list FilterFunction :=
  [ f_brightness 100; f_contrast 100; f_saturate 100;
    f_grayscale 0; f_sepia 0; f_blur 0 ].

Local Close Scope Q_scope.

(* ================================================================== *)
(** ** Vocabulary for the further properties *)
(* ================================================================== *)

(** All characters of [s] satisfy [p]. *)
Fixpoint allChars (p : ascii -> bool) (s : string) : bool :=
  match s with
  | EmptyString => true
  | String a s' => p a && allChars p s'
  end.

(** [w] followed by some rest: the rest, when [s] starts with [w]. *)
Fixpoint dropPrefix (w s : string) : option string :=
  match w with
  | EmptyString => Some s
  | String a w' =>
      match s with
      | String b s' => if Ascii.eqb a b then dropPrefix w' s' else None
      | EmptyString => None
      end
  end.

(** What a greedy star over single characters of class [p] does: it takes
    the longest run first and gives characters back one by one until the
    continuation [k] succeeds. *)
Fixpoint greedy (p : ascii -> bool) (k : string -> captures -> option captures)
         (s : string) (c : captures) : option captures :=
  match s with
  | String b s' =>
      if p b
      then match greedy p k s' c with
           | Some res => Some res
           | None => k s c
           end
      else k s c
  | EmptyString => k s c
  end.

Definition notLineTerminator (a : ascii) : bool := negb (isLineTerminator a).

(** The two halves of [regExp] after its leading [.*]: the alternation of
    the five markers (groups 1 to 6), and what follows a marker. *)
Definition markers : re :=
  Grp 1
    (Alt (Grp 2 (Cat (lit "youtu") (Cat Dot (lit "be/"))))
    (Alt (Grp 3 (lit "v/"))
    (Alt (Grp 4 (Cat (lit "/u/") (Cat (Cls isWordChar) (lit "/"))))
    (Alt (Grp 5 (lit "embed/"))
         (Grp 6 (lit "watch?")))))).

Definition group7 : re := Grp 7 (Star (Cls notHashAmpQuestion)).

Definition afterMarker : re :=
  Cat (Opt (Chr "?")) (Cat (Opt (Chr "v")) (Cat (Opt (Chr "=")) (Cat group7 (Star Dot)))).

(** A character that can stand in a video identifier inside a URL: none of
    [#], [&], [?], [/], and no line terminator. *)
Definition idChar (a : ascii) : bool :=
  notHashAmpQuestion a && negb (Ascii.eqb a "/") && notLineTerminator a.

(** A character of what may follow the identifier: no [/], no [?], no line
    terminator. *)
Definition tailChar (a : ascii) : bool :=
  negb (Ascii.eqb a "/") && negb (Ascii.eqb a "?") && notLineTerminator a.

(** What follows the identifier in the URL: nothing, or a part that starts
    with [&] or [#]. *)
Definition urlTail (t : string) : bool :=
  match t with
  | EmptyString => true
  | String a _ => (Ascii.eqb a "&" || Ascii.eqb a "#") && allChars tailChar t
  end.

(** The first character of [s] is none of [v], [=]. *)
Definition plainStart (s : string) : bool :=
  match s with
  | EmptyString => true
  | String a _ => negb (Ascii.eqb a "v" || Ascii.eqb a "=")
  end.

(** No [/] and no [?]: what every marker of [regExp] needs is missing. *)
Definition noSlashQuestion (a : ascii) : bool :=
  negb (Ascii.eqb a "/") && negb (Ascii.eqb a "?").

(** [k], tried at a position of the URL: one of the markers, then the rest
    of the pattern. *)
Definition tryMarker (s : string) (c : captures) : option captures :=
  run (Cat markers afterMarker) s c (fun _ c' => Some c').

(** [s'] is what is left of [s] after some front part. *)
Definition restOf (s' s : string) : Prop := exists front, s = (front ++ s')%string.

(* ================================================================== *)
(** ** Further vocabulary *)
(* ================================================================== *)

(** Reading one knob. *)
Definition getAdjustment (adjs : AdjustmentSettings) (key : AdjustmentKey) : Q :=
  match key with
  | K_brightness => brightness adjs
  | K_contrast => contrast adjs
  | K_saturation => saturation adjs
  | K_grayscale => grayscale adjs
  | K_sepia => sepia adjs
  | K_blur => blur adjs
  end.

Definition AdjustmentKey_eqb (a b : AdjustmentKey) : bool :=
  match a, b with
  | K_brightness, K_brightness | K_contrast, K_contrast
  | K_saturation, K_saturation | K_grayscale, K_grayscale
  | K_sepia, K_sepia | K_blur, K_blur => true
  | _, _ => false
  end.

(** The keys of an overlay, the key and the value of an update, and reading
    one key of an overlay. *)
Inductive OverlayKey : Type :=
| F_id | F_text | F_x | F_y | F_color | F_fontSize | F_fontFamily.

Definition keyOf (u : OverlayUpdate) : OverlayKey :=
  match u with
  | U_id _ => F_id | U_text _ => F_text | U_x _ => F_x | U_y _ => F_y
  | U_color _ => F_color | U_fontSize _ => F_fontSize | U_fontFamily _ => F_fontFamily
  end.

Definition valueOf (u : OverlayUpdate) : string + Q :=
  match u with
  | U_id v | U_text v | U_color v | U_fontFamily v => inl v
  | U_x v | U_y v | U_fontSize v => inr v
  end.

Definition getOverlayField (t : TextOverlay) (k : OverlayKey) : string + Q :=
  match k with
  | F_id => inl (id t) | F_text => inl (text t)
  | F_x => inr (x t) | F_y => inr (y t)
  | F_color => inl (color t) | F_fontSize => inr (fontSize t)
  | F_fontFamily => inl (fontFamily t)
  end.

Definition OverlayKey_eqb (a b : OverlayKey) : bool :=
  match a, b with
  | F_id, F_id | F_text, F_text | F_x, F_x | F_y, F_y
  | F_color, F_color | F_fontSize, F_fontSize | F_fontFamily, F_fontFamily => true
  | _, _ => false
  end.

(** Every identifier of the list, and the selection when there is one, is a
    non-empty string. *)
Definition idsTruthy (s : AppState) : Prop :=
  (forall t, In t (textOverlays s) -> truthy (id t) = true) /\
  (forall sid, selectedTextId s = Some sid -> truthy sid = true).

(** A text as [fillText] painted it: the string, the anchor, and the part
    of the drawing state that shapes a text. *)
Record PaintedText : Type := mkPaintedText {
  pt_text : string;
  pt_x : Q;
  pt_y : Q;
  pt_filter : list FilterFunction;
  pt_fillStyle : string;
  pt_font : Font;
  pt_textAlign : string;
  pt_textBaseline : string;
  pt_shadowColor : string;
  pt_shadowBlur : Q;
  pt_shadowOffsetX : Q;
  pt_shadowOffsetY : Q
}.

(** The texts on a canvas, in painting order. *)
Fixpoint textsOf (bm : list Paint) : list PaintedText :=
  match bm with
  | [] => []
  | FillText txt tx ty st :: bm' =>
      mkPaintedText txt tx ty (filter st) (fillStyle st) (font st) (textAlign st)
                    (textBaseline st) (shadowColor st) (shadowBlur st)
                    (shadowOffsetX st) (shadowOffsetY st)
      :: textsOf bm'
  | _ :: bm' => textsOf bm'
  end.

(** The images on a canvas, each with the filter it was drawn under. *)
Fixpoint imagesOf (bm : list Paint) : list (Image * Q * Q * list FilterFunction) :=
  match bm with
  | [] => []
  | DrawImage img dx dy st :: bm' => (img, dx, dy, filter st) :: imagesOf bm'
  | _ :: bm' => imagesOf bm'
  end.

(** How an overlay shows on an image of the given size: centred on its
    percentage position, bold, sized in thousandths of the width, in its
    colour, with a hard black shadow 4 pixels down and right, unfiltered. *)
Definition paintedOverlay (w h : N) (o : TextOverlay) : PaintedText :=
  {| pt_text := text o;
     pt_x := (x o / 100) * NtoQ w;
     pt_y := (y o / 100) * NtoQ h;
     pt_filter := [];
     pt_fillStyle := color o;
     pt_font := mkFont true (fontSize o * (NtoQ w / 1000)) [fontFamily o; "monospace"];
     pt_textAlign := "center";
     pt_textBaseline := "middle";
     pt_shadowColor := "rgba(0,0,0,1)";
     pt_shadowBlur := 0;
     pt_shadowOffsetX := 4;
     pt_shadowOffsetY := 4 |}%Q.

(** The outline drawn for an overlay on an image of the given size. *)
Definition outlineAt (measureText : Font -> string -> Q) (w h : N) (o : TextOverlay)
  : Rect :=
  outlineOf measureText (mkCanvas canvasRef w h defaultContext []) o.

(** Sample inputs for the further properties. *)

(** A client library that throws an error without a message, and one that
    answers with a text part followed by a JPEG. *)
Definition libraryFails : GeminiService.GenerateContent := fun _ _ => inr None.

Definition libraryAnswers : GeminiService.GenerateContent :=
  fun _ _ =>
    inl (GeminiService.mkResponse
           (Some [GeminiService.mkCandidate
                    (Some (GeminiService.mkContent
                             (Some [GeminiService.mkPart None (Some "Here you are.");
                                    GeminiService.mkPart
                                      (Some (GeminiService.mkInlineData
                                               (Some "QUJD") (Some "image/jpeg")))
                                      None])))])).

(** The labelled session with a prompt typed, and with a blank one. *)
Definition prompted : Session := sync (setAiPrompt "add a sunset") labelled.
Definition blankPrompted : Session := sync (setAiPrompt "   ") labelled.

(** The labelled session after the click on the delete button of its row:
    the selection names no overlay. *)
Definition afterDelete : AppState :=
  app (step monoMeasure (ClickDelete "1700000000000") labelled).

Definition pointerElsewhere : MouseEvent := mkMouse 5%Q 5%Q.

(* ================================================================== *)
(** * Properties *)
(* ================================================================== *)

(** ** Strings *)

Lemma trimStart_empty_iff (s : string) :
  trimStart s = "" <-> allWhiteSpace s = true.
Proof.
  induction s as [|c s IH]; simpl.
  - split; reflexivity.
  - destruct (isWhiteSpace c); simpl.
    + exact IH.
    + split; discriminate.
Qed.

Lemma trimStart_head (s : string) (c : ascii) (t : string) :
  trimStart s = String c t -> isWhiteSpace c = false.
Proof.
  induction s as [|a s IH]; simpl; [discriminate|].
  destruct (isWhiteSpace a) eqn:Ha; [exact IH|].
  intros H. injection H as -> _. exact Ha.
Qed.

Lemma trimEnd_empty (s : string) :
  trimEnd s = "" -> allWhiteSpace s = true.
Proof.
  induction s as [|c s IH]; simpl; [reflexivity|].
  destruct (trimEnd s) eqn:Hs.
  - destruct (isWhiteSpace c); [intros _; simpl; now apply IH | discriminate].
  - discriminate.
Qed.

(** [trim] yields the empty string exactly on the strings made of white
    space only (the empty one among them). *)
Lemma trim_empty_iff (s : string) :
  trim s = "" <-> allWhiteSpace s = true.
Proof.
  unfold trim. split.
  - intros H. apply trimEnd_empty in H.
    destruct (trimStart s) as [|c t] eqn:Hs.
    + now apply trimStart_empty_iff.
    + apply trimStart_head in Hs. simpl in H. rewrite Hs in H. discriminate.
  - intros H. apply trimStart_empty_iff in H. rewrite H. reflexivity.
Qed.

Lemma truthy_false_iff (s : string) : truthy s = false <-> s = "".
Proof. destruct s; simpl; split; congruence. Qed.

Lemma strictEq_refl (s : string) : strictEq (Some s) s = true.
Proof. simpl. apply String.eqb_refl. Qed.

Example Date_now_toString_example :
  Date_now_toString 1700000000000 = "1700000000000" /\ Date_now_toString 0 = "0".
Proof. vm_compute. split; reflexivity. Qed.

Example trim_example : trim "  HELLO world  " = "HELLO world" /\ trim "   " = "".
Proof. split; reflexivity. Qed.

(** ** The matcher *)

Section RegexFacts.

Local Open Scope nat_scope.

Lemma extends_refl (c : captures) : extends c c.
Proof. intros i H. exact H. Qed.

Lemma extends_trans (a b c : captures) : extends a b -> extends b c -> extends a c.
Proof. intros H1 H2 i H. apply H2, H1, H. Qed.

Lemma extends_set (i : nat) (v : string) (c : captures) :
  extends c (set_capture i v c).
Proof.
  intros j H. unfold set_capture. destruct (Nat.eqb j i); [discriminate|exact H].
Qed.

(** A successful run ends in its continuation, with the captures it
    started from still defined. *)
Lemma run_sound (r : re) :
  forall s c k res,
    run r s c k = Some res ->
    exists s' c', k s' c' = Some res /\ extends c c'.
Proof.
  induction r as [|a| |p|r1 IH1 r2 IH2|r1 IH1 r2 IH2|r1 IH1|r1 IH1|i r1 IH1];
    intros s c k res H; cbn [run] in H.
  - exists s, c. split; [exact H|apply extends_refl].
  - destruct s as [|b s']; [discriminate|].
    destruct (Ascii.eqb a b); [|discriminate].
    exists s', c. split; [exact H|apply extends_refl].
  - destruct s as [|b s']; [discriminate|].
    destruct (isLineTerminator b); [discriminate|].
    exists s', c. split; [exact H|apply extends_refl].
  - destruct s as [|b s']; [discriminate|].
    destruct (p b); [|discriminate].
    exists s', c. split; [exact H|apply extends_refl].
  - apply IH1 in H. destruct H as (s1 & c1 & H & E1).
    apply IH2 in H. destruct H as (s2 & c2 & H & E2).
    exists s2, c2. split; [exact H|]. eapply extends_trans; eassumption.
  - destruct (run r1 s c k) as [res1|] eqn:H1.
    + injection H as <-. now apply IH1 in H1.
    + now apply IH2 in H.
  - destruct (run r1 s c k) as [res1|] eqn:H1.
    + injection H as <-. now apply IH1 in H1.
    + exists s, c. split; [exact H|apply extends_refl].
  - revert H. generalize (String.length s) as fuel. revert s c.
    intros s c fuel. revert s c.
    induction fuel as [|fuel IHf]; intros s c H.
    + exists s, c. split; [exact H|apply extends_refl].
    + match type of H with
      | match ?t with _ => _ end = _ => destruct t as [res1|] eqn:H1
      end.
      * injection H as <-. apply IH1 in H1. destruct H1 as (s1 & c1 & H1 & E1).
        destruct (Nat.ltb (String.length s1) (String.length s)); [|discriminate].
        apply IHf in H1. destruct H1 as (s2 & c2 & H2 & E2).
        exists s2, c2. split; [exact H2|]. eapply extends_trans; eassumption.
      * exists s, c. split; [exact H|apply extends_refl].
  - apply IH1 in H. destruct H as (s1 & c1 & H & E1).
    exists s1, (set_capture i (consumed s s1) c1). split; [exact H|].
    eapply extends_trans; [exact E1|apply extends_set].
Qed.

Lemma run_Cat (r1 r2 : re) s c k :
  run (Cat r1 r2) s c k = run r1 s c (fun s1 c1 => run r2 s1 c1 k).
Proof. reflexivity. Qed.

Lemma run_Grp (i : nat) (r : re) s c k :
  run (Grp i r) s c k =
  run r s c (fun s1 c1 => k s1 (set_capture i (consumed s s1) c1)).
Proof. reflexivity. Qed.

(** When [regExp] matches, its seventh group took part in the match:
    [match[7]] is a string, and [match[7].length] cannot throw. *)
Lemma regExp_group7_defined (url : string) (m : captures) :
  exec regExp url = Some m -> m 7 <> None.
Proof.
  unfold exec, regExp. intros H.
  do 5 (rewrite run_Cat in H; apply run_sound in H;
        destruct H as (? & ? & H & _); cbv beta in H).
  rewrite run_Cat, run_Grp in H. apply run_sound in H.
  destruct H as (s1 & c1 & H & _). cbv beta in H.
  apply run_sound in H. destruct H as (s2 & c2 & H & E).
  injection H as <-. apply E. unfold set_capture. simpl. discriminate.
Qed.

End RegexFacts.

(** ** [getYouTubeID] *)

Example getYouTubeID_watch :
  getYouTubeID "https://www.youtube.com/watch?v=dQw4w9WgXcQ" = Some "dQw4w9WgXcQ".
Proof. vm_compute. reflexivity. Qed.

Example getYouTubeID_short :
  getYouTubeID "https://youtu.be/dQw4w9WgXcQ?t=42" = Some "dQw4w9WgXcQ".
Proof. vm_compute. reflexivity. Qed.

Example getYouTubeID_embed :
  getYouTubeID "https://www.youtube.com/embed/dQw4w9WgXcQ" = Some "dQw4w9WgXcQ".
Proof. vm_compute. reflexivity. Qed.

Example getYouTubeID_too_short :
  getYouTubeID "https://youtu.be/short" = None.
Proof. vm_compute. reflexivity. Qed.

Example getYouTubeID_too_long :
  getYouTubeID "https://youtu.be/dQw4w9WgXcQ12" = None.
Proof. vm_compute. reflexivity. Qed.

Example getYouTubeID_no_pattern :
  getYouTubeID "https://example.org/index.html" = None.
Proof. vm_compute. reflexivity. Qed.

(** C10. Whatever the URL, [getYouTubeID] yields [null] or a string of
    exactly 11 characters; no identifier of another length comes out. *)
Theorem getYouTubeID_null_or_11 (url : string) :
  getYouTubeID url = None \/
  exists v, getYouTubeID url = Some v /\ String.length v = 11.
Proof.
  unfold getYouTubeID.
  destruct (exec regExp url) as [m|]; [|now left].
  destruct (m 7) as [g|]; [|now left].
  destruct (Nat.eqb (String.length g) 11) eqn:Hlen; [|now left].
  right. exists g. split; [reflexivity|]. now apply Nat.eqb_eq.
Qed.

(** ** [handleAddText] *)

(** C8. [handleAddText] changes nothing when the text of the input trims to
    the empty string; otherwise it appends exactly one overlay, placed at
    (50, 50), with colour [#00ff00], size 48 and font [Share Tech Mono],
    carrying the text, and that overlay becomes the selection. *)
Theorem handleAddText_spec (now : N) (s : AppState) :
  (trim (newText s) = "" -> handleAddText now s = s) /\
  (trim (newText s) <> "" ->
   exists o,
     textOverlays (handleAddText now s) = textOverlays s ++ [o] /\
     text o = newText s /\
     x o = 50%Q /\ y o = 50%Q /\
     color o = "#00ff00" /\ fontSize o = 48%Q /\ fontFamily o = "Share Tech Mono" /\
     selectedTextId (handleAddText now s) = Some (id o)).
Proof.
  unfold handleAddText. split; intros H.
  - rewrite H. reflexivity.
  - destruct (truthy (trim (newText s))) eqn:Ht.
    + simpl. eexists. split; [reflexivity|]. simpl. repeat split; reflexivity.
    + apply truthy_false_iff in Ht. contradiction.
Qed.

Lemma handleAddText_spec_witness :
  handleAddText 1700000000000 (typing "   ") = typing "   " /\
  handleAddText 1700000000000 (typing "") = typing "" /\
  exists o,
    textOverlays (handleAddText 1700000000000 (typing "HELLO")) = [] ++ [o] /\
    text o = "HELLO" /\
    x o = 50%Q /\ y o = 50%Q /\
    color o = "#00ff00" /\ fontSize o = 48%Q /\ fontFamily o = "Share Tech Mono" /\
    selectedTextId (handleAddText 1700000000000 (typing "HELLO")) = Some (id o).
Proof.
  split; [|split].
  - apply (proj1 (handleAddText_spec 1700000000000 (typing "   "))). reflexivity.
  - apply (proj1 (handleAddText_spec 1700000000000 (typing ""))). reflexivity.
  - apply (proj2 (handleAddText_spec 1700000000000 (typing "HELLO"))).
    simpl. discriminate.
Defined.

(** ** The selection and the overlay list *)

Example labelled_state :
  currentImage (app labelled) = Some "blob:thumbnail" /\
  map id (textOverlays (app labelled)) = ["1700000000000"] /\
  selectedTextId (app labelled) = Some "1700000000000" /\
  isProcessing (app labelled) = false /\
  inflight labelled = [] /\
  selectionValid (app labelled) = true.
Proof. vm_compute. repeat split; reflexivity. Qed.

(** The delete button filters the list and writes no other cell. *)
Lemma deleteOverlay_keeps_selection (tid : string) (s : AppState) :
  selectedTextId (deleteOverlay tid s) = selectedTextId s.
Proof. reflexivity. Qed.

(** The continuation of the AI edit writes image, adjustments, overlays,
    prompt and busy flag, and not the selection. *)
Lemma handleGeminiEdit_settle_keeps_selection (r : string + string) (s : AppState) :
  selectedTextId (handleGeminiEdit_settle r s) = selectedTextId s.
Proof. destruct r; reflexivity. Qed.

(** The two sibling paths that empty the overlay list clear the selection. *)
Lemma handleFetchYouTube_settle_clears_selection (objectUrl : string) (s : AppState) :
  textOverlays (handleFetchYouTube_settle (Some objectUrl) s) = [] /\
  selectedTextId (handleFetchYouTube_settle (Some objectUrl) s) = None.
Proof. split; reflexivity. Qed.

Lemma handleReset_clears_selection (s : AppState) :
  textOverlays (handleReset s) = [] /\ selectedTextId (handleReset s) = None.
Proof. split; reflexivity. Qed.

(** C1. The code at the failing inputs: with the label "1700000000000"
    selected, (a) a click on its delete button empties the list and leaves
    the selection on the deleted identifier; (b) an AI edit that resolves
    empties the list and leaves the selection as well; whereas (c) a fetch
    that resolves empties both.  After (a) and (b) the selection refers to
    no overlay of the list. *)
Theorem selection_dangles_after_delete_and_ai_edit :
  let afterDelete := step monoMeasure (ClickDelete "1700000000000") labelled in
  let afterEdit :=
    run_events monoMeasure
      [ InputPrompt "add a sunset"; ClickCompileEdit;
        GeminiSettled (inl "data:image/png;base64,AAAA") ] labelled in
  let afterFetch :=
    run_events monoMeasure
      [ ClickExecute; FetchSettled (Some "blob:again") ] labelled in
  (textOverlays (app afterDelete) = [] /\
   selectedTextId (app afterDelete) = Some "1700000000000" /\
   selectionValid (app afterDelete) = false) /\
  (currentImage (app afterEdit) = Some "data:image/png;base64,AAAA" /\
   textOverlays (app afterEdit) = [] /\
   selectedTextId (app afterEdit) = Some "1700000000000" /\
   selectionValid (app afterEdit) = false) /\
  (currentImage (app afterFetch) = Some "blob:again" /\
   textOverlays (app afterFetch) = [] /\
   selectedTextId (app afterFetch) = None /\
   selectionValid (app afterFetch) = true).
Proof. vm_compute. repeat split; reflexivity. Qed.

(** ** Identifiers *)

(** The identifier of a new overlay is a function of the clock alone. *)
Lemma handleAddText_id (now : N) (s : AppState) :
  trim (newText s) <> "" ->
  selectedTextId (handleAddText now s) = Some (Date_now_toString now).
Proof.
  intros H. unfold handleAddText.
  destruct (truthy (trim (newText s))) eqn:Ht; [reflexivity|].
  apply truthy_false_iff in Ht. contradiction.
Qed.

Lemma to_uint_not_Nil (n : N) : N.to_uint n <> Decimal.Nil.
Proof.
  intros H. pose proof (DecimalN.Unsigned.of_to n) as E.
  rewrite H in E. simpl in E. subst n. discriminate H.
Qed.

(** Distinct clock readings print as distinct identifiers. *)
Lemma Date_now_toString_inj (a b : N) :
  Date_now_toString a = Date_now_toString b -> a = b.
Proof.
  unfold Date_now_toString. intros H.
  apply (f_equal NilZero.uint_of_string) in H.
  rewrite !NilZero.usu in H by apply to_uint_not_Nil.
  injection H as H. now apply DecimalN.Unsigned.to_uint_inj.
Qed.

(** An add keeps the identifiers of the list pairwise distinct when the
    clock reads a value that no overlay of the list was created at. *)
Lemma handleAddText_fresh (now : N) (s : AppState) :
  NoDup (map id (textOverlays s)) ->
  ~ In (Date_now_toString now) (map id (textOverlays s)) ->
  NoDup (map id (textOverlays (handleAddText now s))).
Proof.
  intros Hnd Hfresh. unfold handleAddText.
  destruct (negb (truthy (trim (newText s)))); [exact Hnd|].
  cbn [textOverlays setSelectedTextId setNewText setTextOverlays].
  rewrite map_app. cbn [map id].
  apply NoDup_rev in Hnd.
  rewrite <- (rev_involutive (map id (textOverlays s) ++ _)), rev_app_distr.
  apply NoDup_rev. cbn [rev app]. constructor; [|exact Hnd].
  intros Hin. apply Hfresh. now apply in_rev.
Qed.

(** C5. The identifier of a new overlay is the print of the clock reading
    and of nothing else, so the identifiers of a session are not pairwise
    distinct: two adds for which [Date.now()] reads the same millisecond
    create two overlays with one identifier.  The rest of the program takes
    the identifier for a key of one overlay: the colour control of the
    selected text then recolours both, the delete button of either row
    removes both; and an add at the reading of an overlay that was deleted
    (the clock of the machine was set back) uses its identifier again. *)
Theorem two_adds_in_one_millisecond_share_an_id :
  let ss :=
    run_events monoMeasure
      [ InputNewText "FIRST"; ClickAdd 1700000000000;
        InputNewText "SECOND"; ClickAdd 1700000000000 ]
      initialSession in
  let again :=
    run_events monoMeasure
      [ InputNewText "FIRST"; ClickAdd 1700000000000;
        ClickDelete "1700000000000";
        InputNewText "SECOND"; ClickAdd 1700000000000 ]
      initialSession in
  map text (textOverlays (app ss)) = ["FIRST"; "SECOND"] /\
  map id (textOverlays (app ss)) = ["1700000000000"; "1700000000000"] /\
  ~ NoDup (map id (textOverlays (app ss))) /\
  map color (textOverlays (app (step monoMeasure (PickColor "#ff0000") ss))) =
    ["#ff0000"; "#ff0000"] /\
  textOverlays (app (step monoMeasure (ClickDelete "1700000000000") ss)) = [] /\
  map text (textOverlays (app again)) = ["SECOND"] /\
  map id (textOverlays (app again)) = ["1700000000000"].
Proof.
  vm_compute. repeat split; try reflexivity.
  intros H. inversion H as [|a l Hnotin Hnd]; subst.
  apply Hnotin. left. reflexivity.
Qed.

(** ** Identifiers along a session *)

Section Identifiers.

Variable measureText : Font -> string -> Q.

Lemma idsWithin_refl (l : list string) : idsWithin l l.
Proof. split; [auto|apply incl_refl]. Qed.

Lemma idsWithin_nil (l : list string) : idsWithin [] l.
Proof. split; [intros _; constructor|intros a []]. Qed.

Lemma idsWithin_filter (p : TextOverlay -> bool) (l : list TextOverlay) :
  idsWithin (map id (List.filter p l)) (map id l).
Proof.
  split.
  - induction l as [|t l IH]; simpl; [auto|].
    intros H. inversion H as [|a m Hnotin Hnd]; subst.
    destruct (p t); simpl; [|auto].
    constructor; [|auto]. intros Hin. apply Hnotin.
    apply in_map_iff in Hin. destruct Hin as (u & Hu & Hin).
    apply filter_In in Hin. apply in_map_iff. exists u. tauto.
  - intros a Hin. apply in_map_iff in Hin. destruct Hin as (u & Hu & Hin).
    apply filter_In in Hin. apply in_map_iff. exists u. tauto.
Qed.

Lemma idsWithin_map (f : TextOverlay -> TextOverlay) (l : list TextOverlay) :
  (forall t, id (f t) = id t) ->
  idsWithin (map id (map f l)) (map id l).
Proof.
  intros Hf. rewrite map_map.
  rewrite (map_ext (fun t => id (f t)) id Hf). apply idsWithin_refl.
Qed.

Lemma clickAsync_ids (disabled : bool) (begin : AppState -> AppState * bool)
      (op : Operation) (ss : Session) :
  textOverlays (fst (begin (app ss))) = textOverlays (app ss) ->
  idsWithin (sessionIds (clickAsync disabled begin op ss)) (sessionIds ss).
Proof.
  intros H. unfold sessionIds, clickAsync. destruct disabled; [apply idsWithin_refl|].
  destruct (begin (app ss)) as [s' started]. cbn [app fst] in *. rewrite H.
  apply idsWithin_refl.
Qed.

Lemma settle_ids (op : Operation) (k : AppState -> AppState) (ss : Session) :
  idsWithin (map id (textOverlays (k (app ss)))) (sessionIds ss) ->
  idsWithin (sessionIds (settle op k ss)) (sessionIds ss).
Proof.
  intros H. unfold settle.
  destruct (removeFirst op (inflight ss)); [exact H|apply idsWithin_refl].
Qed.

Lemma selectedControl_ids (u : OverlayUpdate) (ss : Session) :
  (forall t, id (setOverlayField t u) = id t) ->
  idsWithin (sessionIds (selectedControl u ss)) (sessionIds ss).
Proof.
  intros Hu. unfold selectedControl, sessionIds.
  destruct (truthyOpt (selectedTextId (app ss))); [|apply idsWithin_refl].
  cbn [sync app]. unfold updateSelectedText.
  destruct (negb (truthyOpt (selectedTextId (app ss)))); [apply idsWithin_refl|].
  cbn [textOverlays setTextOverlays]. apply idsWithin_map.
  intros t. destruct (strictEq _ _); [apply Hu|reflexivity].
Qed.

(** No event but an add brings a new identifier into the list. *)
Lemma step_ids (ev : Event) (ss : Session) :
  addTimes [ev] = [] ->
  idsWithin (sessionIds (step measureText ev ss)) (sessionIds ss).
Proof.
  intros Hev. destruct ev; try discriminate Hev; cbn [step].
  - apply clickAsync_ids. unfold handleFetchYouTube_begin.
    destruct (negb (truthyOpt (getYouTubeID (youtubeUrl (app ss))))); reflexivity.
  - apply clickAsync_ids. unfold handleDownload_begin.
    destruct (negb (truthyOpt (currentImage (app ss)))); reflexivity.
  - apply clickAsync_ids. unfold handleGeminiEdit_begin.
    destruct (negb (truthyOpt (currentImage (app ss)))
              || negb (truthy (trim (aiPrompt (app ss))))); reflexivity.
  - apply idsWithin_nil.
  - destruct (hasRow tid (app ss)); apply idsWithin_refl.
  - destruct (hasRow tid (app ss)); [|apply idsWithin_refl].
    apply idsWithin_filter.
  - apply idsWithin_refl.
  - apply idsWithin_refl.
  - apply idsWithin_refl.
  - apply idsWithin_refl.
  - apply selectedControl_ids. reflexivity.
  - apply selectedControl_ids. reflexivity.
  - apply selectedControl_ids. reflexivity.
  - unfold sessionIds. cbn [sync app]. unfold handleCanvasMouseDown.
    destruct (negb (truthyOpt (currentImage (app ss)))); [apply idsWithin_refl|].
    destruct (hitTest measureText canvas _ _); apply idsWithin_refl.
  - unfold sessionIds. cbn [sync app]. unfold handleCanvasMouseMove.
    destruct (negb (isDragging (app ss)) || negb (truthyOpt (selectedTextId (app ss))));
      [apply idsWithin_refl|].
    cbn [textOverlays setTextOverlays]. apply idsWithin_map.
    intros t. now destruct (strictEq _ _).
  - apply idsWithin_refl.
  - apply idsWithin_refl.
  - apply settle_ids. destruct response; [apply idsWithin_nil|apply idsWithin_refl].
  - apply settle_ids. apply idsWithin_refl.
  - apply settle_ids. destruct result; [apply idsWithin_nil|apply idsWithin_refl].
Qed.

(** An add at a reading that was not used before keeps the invariant. *)
Lemma add_ids (now : N) (used : list N) (ss : Session) :
  idsFrom used ss -> ~ In now used ->
  idsFrom (now :: used) (step measureText (ClickAdd now) ss).
Proof.
  intros (Hnd & Hincl) Hfresh. unfold idsFrom, sessionIds in *. cbn [step sync app].
  assert (Hnew : ~ In (Date_now_toString now) (map id (textOverlays (app ss)))).
  { intros Hin. apply Hincl in Hin. apply in_map_iff in Hin.
    destruct Hin as (u & Hu & Hin). apply Date_now_toString_inj in Hu.
    subst u. contradiction. }
  split; [now apply handleAddText_fresh|].
  unfold handleAddText.
  destruct (negb (truthy (trim (newText (app ss))))).
  - intros a Hin. right. now apply Hincl.
  - cbn [textOverlays setSelectedTextId setNewText setTextOverlays].
    rewrite map_app. cbn [map id]. intros a Hin.
    apply in_app_or in Hin. destruct Hin as [Hin|[<-|[]]].
    + right. now apply Hincl.
    + left. reflexivity.
Qed.

(** Along a sequence of events whose adds read pairwise distinct values,
    none of them used before, the identifiers stay pairwise distinct and
    every one prints a reading of an add. *)
Lemma run_events_idsFrom (evs : list Event) :
  forall used ss,
    idsFrom used ss ->
    NoDup (addTimes evs) ->
    (forall t, In t used -> ~ In t (addTimes evs)) ->
    idsFrom (rev (addTimes evs) ++ used) (run_events measureText evs ss).
Proof.
  unfold run_events.
  induction evs as [|ev evs IH]; intros used ss Hinv Hnd Hdisj; cbn [fold_left].
  - exact Hinv.
  - destruct (addTimes [ev]) as [|t l] eqn:Hev.
    + assert (Hsame : addTimes (ev :: evs) = addTimes evs)
        by (destruct ev; try reflexivity; discriminate Hev).
      rewrite Hsame in Hnd, Hdisj |- *.
      apply (IH used); auto.
      destruct (step_ids ev ss Hev) as (Hkeep & Hsub).
      destruct Hinv as (H1 & H2). split; [auto|].
      intros a Hin. apply H2, Hsub, Hin.
    + destruct ev; try discriminate Hev.
      cbn [addTimes] in *. inversion Hnd as [|a m Hnotin Hnd']; subst.
      cbn [rev]. rewrite <- app_assoc. cbn [List.app].
      apply (IH (now :: used)); auto.
      * apply add_ids; [exact Hinv|]. intros Hin.
        apply (Hdisj now Hin). left. reflexivity.
      * intros u [<-|Hu]; [exact Hnotin|].
        intros Hin. apply (Hdisj u Hu). right. exact Hin.
Qed.

(** X29. In every session reached from the initial one by events whose
    clicks on ADD read pairwise distinct values of [Date.now()], the
    identifiers of the overlays of the list are pairwise distinct, and each
    of them is the print of the reading of one of those clicks, whatever
    else (deletes, edits, drags, fetches, resets) happens in between. *)
Theorem distinct_readings_give_distinct_ids (evs : list Event) :
  NoDup (addTimes evs) ->
  let ss := run_events measureText evs initialSession in
  NoDup (sessionIds ss) /\
  forall i, In i (sessionIds ss) ->
            exists now, In now (addTimes evs) /\ i = Date_now_toString now.
Proof.
  intros Hnd ss.
  destruct (run_events_idsFrom evs [] initialSession) as (Hdistinct & Hprints); auto.
  { split; [constructor|intros a []]. }
  split; [exact Hdistinct|].
  intros i Hin. apply Hprints in Hin. apply in_map_iff in Hin.
  destruct Hin as (now & Hnow & Hin). exists now. split; [|now symmetry].
  rewrite app_nil_r in Hin. now apply in_rev.
Qed.

End Identifiers.

Lemma distinct_readings_give_distinct_ids_witness :
  let evs := [ InputNewText "FIRST"; ClickAdd 1700000000000;
               InputNewText "SECOND"; ClickAdd 1700000000001;
               ClickDelete "1700000000000";
               InputNewText "THIRD"; ClickAdd 1700000000002 ] in
  let ss := run_events monoMeasure evs initialSession in
  NoDup (sessionIds ss) /\
  forall i, In i (sessionIds ss) ->
            exists now, In now (addTimes evs) /\ i = Date_now_toString now.
Proof.
  intros evs.
  apply (distinct_readings_give_distinct_ids monoMeasure evs).
  cbn [addTimes evs]. repeat constructor; cbn [In]; intros H;
    repeat (destruct H as [H|H]; [discriminate H|]); exact H.
Defined.

(** ** The busy flag *)

Section BusyFlag.

Variable measureText : Font -> string -> Q.

Lemma busy_disables_buttons (s : AppState) :
  isProcessing s = true ->
  executeDisabled s = true /\ exportDisabled s = true /\
  compileEditDisabled s = true.
Proof.
  intros H. unfold executeDisabled, exportDisabled, compileEditDisabled.
  rewrite H. repeat split.
  - apply orb_true_r.
  - rewrite orb_true_r. reflexivity.
Qed.

(** C3. In a session whose busy flag is set, a click on any of the three
    buttons that start a long operation (fetch, export, AI edit) leaves the
    whole session as it is: no state cell changes (image, adjustments,
    overlays, selection among them) and no operation is added to those in
    flight. *)
Theorem busy_rejects_long_operations (ss : Session) (ev : Event) :
  isProcessing (app ss) = true ->
  startsLongOperation ev = true ->
  step measureText ev ss = ss.
Proof.
  intros Hbusy Hev.
  destruct (busy_disables_buttons (app ss) Hbusy) as (Hx & He & Hc).
  destruct ev; try discriminate Hev; simpl; unfold clickAsync.
  - now rewrite Hx.
  - now rewrite He.
  - now rewrite Hc.
Qed.

Lemma removeFirst_singleton (op o : Operation) (rest : list Operation) :
  removeFirst op [o] = Some rest -> rest = [].
Proof.
  simpl. destruct (Operation_eqb op o); intros H; [now injection H|discriminate].
Qed.

Lemma sync_busy (h : AppState -> AppState) (ss : Session) :
  (forall s, isProcessing (h s) = isProcessing s) ->
  busyInvariant ss -> busyInvariant (sync h ss).
Proof.
  intros Hh [[Hb Hop]|[Hb Hop]]; [left|right]; simpl; rewrite Hh; auto.
Qed.

Lemma clickAsync_busy (disabled : bool) (begin : AppState -> AppState * bool)
      (op : Operation) (ss : Session) :
  (isProcessing (app ss) = true -> disabled = true) ->
  (forall s, isProcessing s = false ->
             isProcessing (fst (begin s)) = snd (begin s)) ->
  busyInvariant ss -> busyInvariant (clickAsync disabled begin op ss).
Proof.
  intros Hdis Hbegin Hinv. unfold clickAsync.
  destruct disabled; [exact Hinv|].
  destruct Hinv as [[Hb _]|[Hb Hop]].
  - specialize (Hdis Hb). discriminate.
  - specialize (Hbegin (app ss) Hb).
    destruct (begin (app ss)) as [s' started]. simpl in Hbegin.
    destruct started; [left|right]; simpl; rewrite Hop;
      (split; [exact Hbegin|]); [eexists|]; reflexivity.
Qed.

Lemma settle_busy (op : Operation) (k : AppState -> AppState) (ss : Session) :
  (forall s, isProcessing (k s) = false) ->
  busyInvariant ss -> busyInvariant (settle op k ss).
Proof.
  intros Hk Hinv. unfold settle.
  destruct (removeFirst op (inflight ss)) as [rest|] eqn:Hr; [|exact Hinv].
  right. simpl. split; [apply Hk|].
  destruct Hinv as [[_ [o Hop]]|[_ Hop]]; rewrite Hop in Hr.
  - now apply removeFirst_singleton in Hr.
  - discriminate.
Qed.

Lemma selectedControl_busy (u : OverlayUpdate) (ss : Session) :
  busyInvariant ss -> busyInvariant (selectedControl u ss).
Proof.
  intros Hinv. unfold selectedControl.
  destruct (truthyOpt (selectedTextId (app ss))); auto.
  apply sync_busy; auto. clear. intros s. unfold updateSelectedText.
  destruct (negb (truthyOpt (selectedTextId s))); reflexivity.
Qed.

Lemma step_busy (ev : Event) (ss : Session) :
  busyInvariant ss -> busyInvariant (step measureText ev ss).
Proof.
  intros Hinv. destruct ev; simpl.
  - apply clickAsync_busy; auto.
    intros s Hs. unfold handleFetchYouTube_begin.
    destruct (negb (truthyOpt (getYouTubeID (youtubeUrl s)))); simpl; auto.
  - apply clickAsync_busy; auto.
    + intros Hb. unfold exportDisabled. rewrite Hb. apply orb_true_r.
    + intros s Hs. unfold handleDownload_begin.
      destruct (negb (truthyOpt (currentImage s))); simpl; auto.
  - apply clickAsync_busy; auto.
    + intros Hb. unfold compileEditDisabled. rewrite Hb.
      rewrite orb_true_r. reflexivity.
    + intros s Hs. unfold handleGeminiEdit_begin.
      destruct (negb (truthyOpt (currentImage s)) || negb (truthy (trim (aiPrompt s))));
        simpl; auto.
  - apply sync_busy; auto.
  - apply sync_busy; auto. intros s. unfold handleAddText.
    destruct (negb (truthy (trim (newText s)))); reflexivity.
  - destruct (hasRow tid (app ss)); auto; apply sync_busy; auto.
  - destruct (hasRow tid (app ss)); auto; apply sync_busy; auto.
  - apply sync_busy; auto.
  - apply sync_busy; auto.
  - apply sync_busy; auto.
  - apply sync_busy; auto.
  - now apply selectedControl_busy.
  - now apply selectedControl_busy.
  - now apply selectedControl_busy.
  - apply sync_busy; auto. intros s. unfold handleCanvasMouseDown.
    destruct (negb (truthyOpt (currentImage s))); [reflexivity|].
    destruct (hitTest _ _ _ _); reflexivity.
  - apply sync_busy; auto. intros s. unfold handleCanvasMouseMove.
    destruct (negb (isDragging s) || negb (truthyOpt (selectedTextId s)));
      reflexivity.
  - apply sync_busy; auto.
  - apply sync_busy; auto.
  - apply settle_busy; auto.
  - apply settle_busy; auto.
  - apply settle_busy; auto.
Qed.

(** X27. Every session reached from the initial one satisfies the invariant:
    at most one long operation is in flight at any time. *)
Lemma reachable_busy (evs : list Event) :
  busyInvariant (run_events measureText evs initialSession).
Proof.
  unfold run_events.
  assert (H : forall ss, busyInvariant ss ->
              busyInvariant (fold_left (fun acc ev => step measureText ev acc) evs ss)).
  { induction evs as [|ev evs IH]; intros ss Hss; simpl; [exact Hss|].
    apply IH. now apply step_busy. }
  apply H. right. split; reflexivity.
Qed.

End BusyFlag.

Lemma busy_rejects_long_operations_witness :
  isProcessing (app fetching) = true /\
  inflight fetching = [FetchThumbnail] /\
  step monoMeasure ClickExport fetching = fetching /\
  step monoMeasure ClickCompileEdit fetching = fetching /\
  step monoMeasure ClickExecute fetching = fetching.
Proof.
  split; [reflexivity|]. split; [reflexivity|].
  split; [|split].
  - apply (busy_rejects_long_operations monoMeasure fetching ClickExport);
      reflexivity.
  - apply (busy_rejects_long_operations monoMeasure fetching ClickCompileEdit);
      reflexivity.
  - apply (busy_rejects_long_operations monoMeasure fetching ClickExecute);
      reflexivity.
Defined.

(** ** [drawToCanvas]: preview and export *)

Section Parity.

Variable measureText : Font -> string -> Q.

Lemma drawOverlay_unselected (a b : Canvas) (overlay : TextOverlay) :
  samePicture a b ->
  samePicture (drawOverlay measureText None a overlay)
              (drawOverlay measureText None b overlay).
Proof.
  intros (Hw & Hh & Hc & Hb).
  destruct a as [ea wa ha ca ba], b as [eb wb hb cb bb].
  cbn [width height context bitmap] in Hw, Hh, Hc, Hb. subst.
  cbv beta iota zeta delta
      [samePicture drawOverlay strictEq andb paint withContext
       width height context bitmap element].
  repeat split.
Qed.

Lemma forEach_unselected (overlays : list TextOverlay) (a b : Canvas) :
  samePicture a b ->
  samePicture (fold_left (drawOverlay measureText None) overlays a)
              (fold_left (drawOverlay measureText None) overlays b).
Proof.
  revert a b. induction overlays as [|o overlays IH]; intros a b H; simpl.
  - exact H.
  - apply IH. now apply drawOverlay_unselected.
Qed.

(** C2. With [selectionId = null], [drawToCanvas] leaves the same picture
    on the preview canvas and on the hidden export canvas, for every
    image, adjustments and overlay list, and whatever size, drawing state
    and content the two canvases had before: same size, same sequence of
    painted operations with the same drawing state under each. *)
Theorem drawToCanvas_parity
        (wp hp : N) (ctxp : ContextState) (bmp : list Paint)
        (wh hh : N) (ctxh : ContextState) (bmh : list Paint)
        (img : Image) (adjs : AdjustmentSettings) (overlays : list TextOverlay) :
  samePicture
    (drawToCanvas measureText (mkCanvas canvasRef wp hp ctxp bmp)
                  img adjs overlays None)
    (drawToCanvas measureText (mkCanvas hiddenCanvasRef wh hh ctxh bmh)
                  img adjs overlays None).
Proof.
  unfold drawToCanvas. apply forEach_unselected.
  cbv beta iota zeta delta
      [samePicture paint withContext setHeight setWidth
       width height context bitmap element].
  repeat split.
Qed.

End Parity.

(** ** The hit test *)

Section HitTest.

Variable measureText : Font -> string -> Q.

Lemma hitLoop_spec (canvas : Canvas) (p : Point) (overlays : list TextOverlay)
      (n : nat) :
  match hitLoop measureText canvas p overlays n with
  | Some o =>
      exists i,
        i < n /\ nth_error overlays i = Some o /\ inBox (hitBox measureText canvas o) p = true /\
        forall j o', i < j -> j < n -> nth_error overlays j = Some o' ->
                     inBox (hitBox measureText canvas o') p = false
  | None =>
      forall j o', j < n -> nth_error overlays j = Some o' ->
                   inBox (hitBox measureText canvas o') p = false
  end.
Proof.
  induction n as [|n IH]; simpl.
  - intros j o' Hj. lia.
  - destruct (nth_error overlays n) as [o|] eqn:Hn.
    + destruct (inBox (hitBox measureText canvas o) p) eqn:Ho.
      * exists n. repeat split; auto. intros j o' H1 H2. lia.
      * destruct (hitLoop measureText canvas p overlays n) as [r|].
        -- destruct IH as (i & Hi & Hnth & Hin & Habove).
           exists i. repeat split; auto.
           intros j o' H1 H2 Hj.
           destruct (Nat.eq_dec j n) as [->|Hne].
           ++ rewrite Hn in Hj. injection Hj as <-. exact Ho.
           ++ apply (Habove j); auto. lia.
        -- intros j o' H1 Hj.
           destruct (Nat.eq_dec j n) as [->|Hne].
           ++ rewrite Hn in Hj. injection Hj as <-. exact Ho.
           ++ apply (IH j); auto. lia.
    + destruct (hitLoop measureText canvas p overlays n) as [r|].
      * destruct IH as (i & Hi & Hnth & Hin & Habove).
        exists i. repeat split; auto.
        intros j o' H1 H2 Hj.
        destruct (Nat.eq_dec j n) as [->|Hne].
        -- rewrite Hn in Hj. discriminate.
        -- apply (Habove j); auto. lia.
      * intros j o' H1 Hj.
        destruct (Nat.eq_dec j n) as [->|Hne].
        -- rewrite Hn in Hj. discriminate.
        -- apply (IH j); auto. lia.
Qed.

Lemma hitTest_topmost (canvas : Canvas) (p : Point) (overlays : list TextOverlay) :
  topmostHit measureText canvas p overlays (hitTest measureText canvas p overlays).
Proof.
  unfold hitTest, topmostHit.
  pose proof (hitLoop_spec canvas p overlays (List.length overlays)) as H.
  destruct (hitLoop measureText canvas p overlays (List.length overlays)) as [o|].
  - destruct H as (i & Hi & Hnth & Hin & Habove).
    exists i. repeat split; auto.
    intros j o' H1 Hj. apply (Habove j); auto.
    apply nth_error_Some. congruence.
  - intros o' Hin. apply In_nth_error in Hin. destruct Hin as [j Hj].
    apply (H j); auto. apply nth_error_Some. congruence.
Qed.

(** The topmost hit is unique: the loop cannot yield anything else. *)
Lemma topmostHit_unique (canvas : Canvas) (p : Point) (overlays : list TextOverlay)
      (r1 r2 : option TextOverlay) :
  topmostHit measureText canvas p overlays r1 ->
  topmostHit measureText canvas p overlays r2 -> r1 = r2.
Proof.
  destruct r1 as [o1|], r2 as [o2|]; simpl; intros H1 H2; auto.
  - destruct H1 as (i & Hi & Hin1 & Hab1), H2 as (j & Hj & Hin2 & Hab2).
    destruct (Nat.lt_trichotomy i j) as [Hlt|[->|Hgt]].
    + rewrite (Hab1 j o2 Hlt Hj) in Hin2. discriminate.
    + congruence.
    + rewrite (Hab2 i o1 Hgt Hi) in Hin1. discriminate.
  - destruct H1 as (i & Hi & Hin1 & _).
    apply nth_error_In in Hi. rewrite (H2 o1 Hi) in Hin1. discriminate.
  - destruct H2 as (j & Hj & Hin2 & _).
    apply nth_error_In in Hj. rewrite (H1 o2 Hj) in Hin2. discriminate.
Qed.

(** C6. For every overlay list and every point of the bitmap, the hit
    test yields the topmost (last inserted) overlay whose box contains the
    point, and nothing when no box contains it; for overlays inserted in
    the order [A; B], a point inside both boxes resolves to [B]; and on a
    loaded image the pointer-down handler selects exactly the overlay the
    hit test yields (none when it yields none). *)
Theorem hitTest_returns_topmost :
  (forall canvas p overlays,
      topmostHit measureText canvas p overlays
                 (hitTest measureText canvas p overlays)) /\
  (forall canvas p A B,
      inBox (hitBox measureText canvas A) p = true ->
      inBox (hitBox measureText canvas B) p = true ->
      hitTest measureText canvas p [A; B] = Some B) /\
  (forall canvas rect e s,
      truthyOpt (currentImage s) = true ->
      selectedTextId (handleCanvasMouseDown measureText canvas rect e s) =
      option_map id
        (hitTest measureText canvas
                 (getCanvasCoordinates canvas rect e) (textOverlays s))).
Proof.
  split; [|split].
  - apply hitTest_topmost.
  - intros canvas p A B HA HB. unfold hitTest. simpl. rewrite HB. reflexivity.
  - intros canvas rect e s Himg. unfold handleCanvasMouseDown.
    rewrite Himg. simpl.
    destruct (hitTest measureText canvas _ (textOverlays s)); reflexivity.
Qed.

End HitTest.

Lemma hitTest_returns_topmost_witness :
  let p := getCanvasCoordinates preview720 halfSize (mkMouse 320%Q 180%Q) in
  inBox (hitBox monoMeasure preview720 labelA) p = true /\
  inBox (hitBox monoMeasure preview720 labelB) p = true /\
  hitTest monoMeasure preview720 p [labelA; labelB] = Some labelB /\
  selectedTextId
    (handleCanvasMouseDown monoMeasure preview720 halfSize (mkMouse 320%Q 180%Q)
                           twoLabels) =
  option_map id (hitTest monoMeasure preview720 p (textOverlays twoLabels)).
Proof.
  intros p.
  assert (HA : inBox (hitBox monoMeasure preview720 labelA) p = true)
    by (vm_compute; reflexivity).
  assert (HB : inBox (hitBox monoMeasure preview720 labelB) p = true)
    by (vm_compute; reflexivity).
  split; [exact HA|]. split; [exact HB|]. split.
  - exact (proj1 (proj2 (hitTest_returns_topmost monoMeasure)) preview720 p
                 labelA labelB HA HB).
  - apply (proj2 (proj2 (hitTest_returns_topmost monoMeasure))). reflexivity.
Defined.

(** ** The selection outline and the hit box *)

Local Open Scope Q_scope.

Section Outline.

Variable measureText : Font -> string -> Q.

Lemma hitBox_ext (a b : Canvas) (o : TextOverlay) :
  width a = width b -> height a = height b ->
  hitBox measureText a o = hitBox measureText b o.
Proof.
  intros Hw Hh. unfold hitBox, textAnchor. rewrite Hw, Hh. reflexivity.
Qed.

Lemma outlineOf_ext (a b : Canvas) (o : TextOverlay) :
  width a = width b -> height a = height b ->
  outlineOf measureText a o = outlineOf measureText b o.
Proof.
  intros Hw Hh. unfold outlineOf, renderFont, fontSizePxOf.
  rewrite Hw, Hh. reflexivity.
Qed.

(** The outline against the hit box of the same overlay on the same
    canvas: same centre, 20 pixels taller, and 20 pixels wider when the
    text measures the same under both fonts. *)
Lemma outlineOf_padded (canvas : Canvas) (o : TextOverlay) :
  measureText (renderFont canvas o) (text o) ==
  measureText (hitFont canvas o) (text o) ->
  paddedBy 20 (outlineOf measureText canvas o) (hitBox measureText canvas o).
Proof.
  intros Hm.
  unfold paddedBy, outlineOf, selectionRect, hitBox, textAnchor,
    boxWidth, boxHeight, boxCenterX, boxCenterY.
  cbn [box_left box_right box_top box_bottom px py].
  fold (fontSizePxOf canvas o). fold (hitFont canvas o).
  rewrite Hm. repeat split; field.
Qed.

Lemma drawOverlay_frame (sel : option string) (c : Canvas) (o : TextOverlay) :
  element (drawOverlay measureText sel c o) = element c /\
  width (drawOverlay measureText sel c o) = width c /\
  height (drawOverlay measureText sel c o) = height c /\
  exists more, bitmap (drawOverlay measureText sel c o) = bitmap c ++ more.
Proof.
  destruct c as [e w h st bm].
  cbv beta iota zeta delta
      [drawOverlay paint withContext selectionRect
       width height context bitmap element].
  destruct (strictEq sel (id o) && isPreview e)%bool.
  - repeat split. rewrite <- app_assoc. eexists. reflexivity.
  - repeat split. eexists. reflexivity.
Qed.

Lemma forEach_frame (sel : option string) (overlays : list TextOverlay) (c : Canvas) :
  let c' := fold_left (drawOverlay measureText sel) overlays c in
  element c' = element c /\ width c' = width c /\ height c' = height c /\
  exists more, bitmap c' = bitmap c ++ more.
Proof.
  revert c. induction overlays as [|o overlays IH]; intros c; simpl.
  - repeat split. exists []. now rewrite app_nil_r.
  - destruct (IH (drawOverlay measureText sel c o)) as (He & Hw & Hh & m1 & Hb).
    destruct (drawOverlay_frame sel c o) as (He' & Hw' & Hh' & m2 & Hb').
    repeat split; try congruence.
    exists (m2 ++ m1). rewrite Hb, Hb'. now rewrite app_assoc.
Qed.

(** On the preview canvas the selected overlay gets its text and then the
    dashed rectangle [outlineOf], stroked in green with dashes [5; 5]. *)
Lemma drawOverlay_selected (c : Canvas) (o : TextOverlay) :
  element c = canvasRef ->
  exists txt st,
    bitmap (drawOverlay measureText (Some (id o)) c o) =
    bitmap c ++ [txt; let '(rx, ry, rw, rh) := outlineOf measureText c o in
                      StrokeRect rx ry rw rh st] /\
    strokeStyle st = "#00ff00"%string /\ lineDash st = [5; 5].
Proof.
  destruct c as [e w h st bm]. cbn [element]. intros ->.
  cbv beta iota zeta delta
      [drawOverlay paint withContext selectionRect outlineOf renderFont
       fontSizePxOf width height context bitmap element
       set_filter set_fillStyle set_font set_textAlign set_textBaseline
       set_shadowColor set_shadowBlur set_shadowOffsetX set_shadowOffsetY
       set_strokeStyle set_lineWidth setLineDash
       filter fillStyle font textAlign textBaseline shadowColor shadowBlur
       shadowOffsetX shadowOffsetY strokeStyle lineWidth lineDash].
  rewrite strictEq_refl. cbn [isPreview andb].
  rewrite <- app_assoc. do 2 eexists. split; [reflexivity|]. split; reflexivity.
Qed.

End Outline.

Section OutlineOnPreview.

Variable measureText : Font -> string -> Q.

Lemma outlines_app (a b : list Paint) :
  outlines (a ++ b) = outlines a ++ outlines b.
Proof.
  induction a as [|p a IH]; simpl; [reflexivity|].
  destruct p; simpl; now rewrite IH.
Qed.

Lemma forEach_selected (overlays : list TextOverlay) (o : TextOverlay) (c : Canvas) :
  element c = canvasRef -> In o overlays ->
  In (outlineOf measureText c o)
     (outlines (bitmap (fold_left (drawOverlay measureText (Some (id o))) overlays c))).
Proof.
  intros He Hin. apply in_split in Hin. destruct Hin as (l1 & l2 & ->).
  rewrite fold_left_app. simpl.
  set (c1 := fold_left (drawOverlay measureText (Some (id o))) l1 c).
  destruct (forEach_frame measureText (Some (id o)) l1 c) as (He1 & Hw1 & Hh1 & _).
  fold c1 in He1, Hw1, Hh1.
  destruct (drawOverlay_selected measureText c1 o) as (txt & st & Hb & _);
    [congruence|].
  destruct (forEach_frame measureText (Some (id o)) l2
                          (drawOverlay measureText (Some (id o)) c1 o))
    as (_ & _ & _ & more & Hb2).
  simpl in Hb2. rewrite Hb2, Hb.
  rewrite (outlineOf_ext measureText c c1 o) by congruence.
  destruct (outlineOf measureText c1 o) as [[[rx ry] rw] rh].
  rewrite !outlines_app. apply in_or_app. left. apply in_or_app. right.
  destruct txt; simpl; auto.
Qed.

(** C4, as amended. When the preview canvas is drawn with an overlay of
    the list selected, the dashed outline stroked around that overlay has
    the same centre as the box the hit test uses for it, and is 20 pixels
    wider and 20 pixels taller (10 pixels of padding on each side),
    provided the text measures the same under the font of the drawing
    (which names [monospace] as fallback) and the font of the hit test. *)
Theorem outline_is_padded_hit_box
        (canvas : Canvas) (img : Image) (adjs : AdjustmentSettings)
        (overlays : list TextOverlay) (o : TextOverlay) :
  element canvas = canvasRef ->
  In o overlays ->
  let c := drawToCanvas measureText canvas img adjs overlays (Some (id o)) in
  measureText (renderFont c o) (text o) == measureText (hitFont c o) (text o) ->
  In (outlineOf measureText c o) (outlines (bitmap c)) /\
  paddedBy 20 (outlineOf measureText c o) (hitBox measureText c o).
Proof.
  intros He Hin c Hm. split; [|now apply outlineOf_padded].
  subst c. unfold drawToCanvas.
  set (c5 := withContext (set_filter []) _).
  assert (He5 : element c5 = canvasRef) by exact He.
  destruct (forEach_frame measureText (Some (id o)) overlays c5)
    as (_ & Hw & Hh & _).
  rewrite (outlineOf_ext measureText _ c5 o Hw Hh).
  now apply forEach_selected.
Qed.

End OutlineOnPreview.

Section OutlineOnExport.

Variable measureText : Font -> string -> Q.

Lemma drawOverlay_hidden (sel : option string) (c : Canvas) (o : TextOverlay) :
  element c = hiddenCanvasRef ->
  drawOverlay measureText sel c o = drawOverlay measureText None c o.
Proof.
  intros He. unfold drawOverlay. rewrite He. cbn [isPreview strictEq].
  rewrite andb_false_r. reflexivity.
Qed.

Lemma forEach_hidden (sel : option string) (overlays : list TextOverlay) (c : Canvas) :
  element c = hiddenCanvasRef ->
  fold_left (drawOverlay measureText sel) overlays c =
  fold_left (drawOverlay measureText None) overlays c.
Proof.
  revert c. induction overlays as [|o overlays IH]; intros c He; simpl.
  - reflexivity.
  - rewrite (drawOverlay_hidden sel c o He). apply IH.
    destruct (drawOverlay_frame measureText None c o) as (He' & _). congruence.
Qed.

(** The hidden export canvas never gets an outline: whatever selection is
    passed, [drawToCanvas] draws on it what it draws for [null]. *)
Lemma drawToCanvas_hidden_ignores_selection
      (canvas : Canvas) (img : Image) (adjs : AdjustmentSettings)
      (overlays : list TextOverlay) (sel : option string) :
  element canvas = hiddenCanvasRef ->
  drawToCanvas measureText canvas img adjs overlays sel =
  drawToCanvas measureText canvas img adjs overlays None.
Proof.
  intros He. unfold drawToCanvas. apply forEach_hidden. exact He.
Qed.

End OutlineOnExport.

Lemma outline_is_padded_hit_box_witness :
  let c := drawToCanvas monoMeasure preview720 thumbnail720 DEFAULT_ADJUSTMENTS
                        [labelA; labelB] (Some (id labelB)) in
  In (outlineOf monoMeasure c labelB) (outlines (bitmap c)) /\
  paddedBy 20 (outlineOf monoMeasure c labelB) (hitBox monoMeasure c labelB).
Proof.
  apply (outline_is_padded_hit_box monoMeasure preview720 thumbnail720
           DEFAULT_ADJUSTMENTS [labelA; labelB] labelB).
  - reflexivity.
  - right. left. reflexivity.
  - vm_compute. reflexivity.
Defined.

(** The counterexample to C4 as it is stated: drawn on the preview with the
    label selected, the outline is 204.32 by 81.44 pixels where the hit box
    of the same label is 184.32 by 61.44. *)
Lemma outline_differs_from_hit_box :
  let c := drawToCanvas monoMeasure preview720 thumbnail720 DEFAULT_ADJUSTMENTS
                        [labelA] (Some (id labelA)) in
  exists rx ry rw rh,
    outlines (bitmap c) = [(rx, ry, rw, rh)] /\
    rw == 20432 # 100 /\ rh == 8144 # 100 /\
    boxWidth (hitBox monoMeasure c labelA) == 18432 # 100 /\
    boxHeight (hitBox monoMeasure c labelA) == 6144 # 100 /\
    ~ sameGeometry (rx, ry, rw, rh) (hitBox monoMeasure c labelA).
Proof.
  intros c. do 4 eexists. split; [vm_compute; reflexivity|].
  split; [vm_compute; reflexivity|]. split; [vm_compute; reflexivity|].
  split; [vm_compute; reflexivity|]. split; [vm_compute; reflexivity|].
  intros (Hw & _). vm_compute in Hw. discriminate.
Qed.

(** ** Where the selection stays valid *)

Section SelectionInvariant.

Variable measureText : Font -> string -> Q.

Lemma hasId_map (f : TextOverlay -> TextOverlay) (sid : string)
      (l : list TextOverlay) :
  (forall t, id (f t) = id t) ->
  existsb (fun t => String.eqb (id t) sid) (map f l) =
  existsb (fun t => String.eqb (id t) sid) l.
Proof.
  intros Hf. induction l as [|t l IH]; simpl; [reflexivity|].
  now rewrite Hf, IH.
Qed.

Lemma hasId_filter (sid tid : string) (l : list TextOverlay) :
  String.eqb sid tid = false ->
  existsb (fun t => String.eqb (id t) sid)
          (List.filter (fun p => negb (String.eqb (id p) tid)) l) =
  existsb (fun t => String.eqb (id t) sid) l.
Proof.
  intros Hne. induction l as [|t l IH]; simpl; [reflexivity|].
  destruct (String.eqb (id t) tid) eqn:Ht; simpl.
  - apply String.eqb_eq in Ht.
    destruct (String.eqb (id t) sid) eqn:Hs; simpl; [|exact IH].
    apply String.eqb_eq in Hs. rewrite <- Hs, Ht, String.eqb_refl in Hne.
    discriminate.
  - now rewrite IH.
Qed.

Lemma hasId_app (sid : string) (l : list TextOverlay) (o : TextOverlay) :
  id o = sid ->
  existsb (fun t => String.eqb (id t) sid) (l ++ [o]) = true.
Proof.
  intros <-. rewrite existsb_app. simpl.
  rewrite String.eqb_refl. now rewrite orb_true_r.
Qed.

Lemma hitTest_In (canvas : Canvas) (p : Point) (overlays : list TextOverlay)
      (o : TextOverlay) :
  hitTest measureText canvas p overlays = Some o -> In o overlays.
Proof.
  intros H. pose proof (hitTest_topmost measureText canvas p overlays) as T.
  rewrite H in T. destruct T as (i & Hi & _). now apply nth_error_In in Hi.
Qed.

Lemma sync_valid (h : AppState -> AppState) (ss : Session) :
  selectionValid (h (app ss)) = true ->
  selectionValid (app (sync h ss)) = true.
Proof. intros H. exact H. Qed.

Lemma settle_valid (op : Operation) (k : AppState -> AppState) (ss : Session) :
  selectionValid (app ss) = true ->
  selectionValid (k (app ss)) = true ->
  selectionValid (app (settle op k ss)) = true.
Proof.
  intros H0 H1. unfold settle.
  destruct (removeFirst op (inflight ss)); assumption.
Qed.

Lemma clickAsync_valid (disabled : bool) (begin : AppState -> AppState * bool)
      (op : Operation) (ss : Session) :
  selectionValid (app ss) = true ->
  selectionValid (fst (begin (app ss))) = true ->
  selectionValid (app (clickAsync disabled begin op ss)) = true.
Proof.
  intros H0 H1. unfold clickAsync. destruct disabled; [assumption|].
  destruct (begin (app ss)) as [s' started]. exact H1.
Qed.

(** X28. Every event other than those two keeps the selection on an overlay of
    the list (or empty). *)
Theorem selection_valid_elsewhere (ev : Event) (ss : Session) :
  selectionValid (app ss) = true ->
  breaksSelection ev (app ss) = false ->
  selectionValid (app (step measureText ev ss)) = true.
Proof.
  intros Hv Hev. destruct ss as [s ops]. cbn [app] in Hv, Hev.
  destruct ev; cbn [step app]; cbn [breaksSelection] in Hev.
  - apply clickAsync_valid; [exact Hv|]. cbn [app].
    unfold handleFetchYouTube_begin.
    destruct (negb (truthyOpt (getYouTubeID (youtubeUrl s)))); exact Hv.
  - apply clickAsync_valid; [exact Hv|]. cbn [app].
    unfold handleDownload_begin.
    destruct (negb (truthyOpt (currentImage s))); exact Hv.
  - apply clickAsync_valid; [exact Hv|]. cbn [app].
    unfold handleGeminiEdit_begin.
    destruct (negb (truthyOpt (currentImage s)) || negb (truthy (trim (aiPrompt s))));
      exact Hv.
  - reflexivity.
  - apply sync_valid. cbn [app]. unfold handleAddText.
    destruct (negb (truthy (trim (newText s)))); [exact Hv|].
    unfold selectionValid. cbn. now apply hasId_app.
  - destruct (hasRow tid s) eqn:Hrow; [|exact Hv]. exact Hrow.
  - destruct (hasRow tid s) eqn:Hrow; [|exact Hv].
    apply sync_valid. cbn [app]. unfold selectionValid, deleteOverlay in *.
    cbn [selectedTextId textOverlays setTextOverlays].
    destruct (selectedTextId s) as [sid|]; [|reflexivity].
    cbn [strictEq] in Hev. now rewrite hasId_filter.
  - exact Hv.
  - exact Hv.
  - exact Hv.
  - exact Hv.
  - unfold selectedControl. cbn [app].
    destruct (truthyOpt (selectedTextId s)); [|exact Hv].
    apply sync_valid. cbn [app]. unfold updateSelectedText.
    destruct (negb (truthyOpt (selectedTextId s))); [exact Hv|].
    unfold selectionValid in *. cbn [selectedTextId textOverlays setTextOverlays].
    destruct (selectedTextId s) as [sid|]; [|reflexivity].
    rewrite hasId_map; [exact Hv|]. intros t. now destruct (strictEq _ _).
  - unfold selectedControl. cbn [app].
    destruct (truthyOpt (selectedTextId s)); [|exact Hv].
    apply sync_valid. cbn [app]. unfold updateSelectedText.
    destruct (negb (truthyOpt (selectedTextId s))); [exact Hv|].
    unfold selectionValid in *. cbn [selectedTextId textOverlays setTextOverlays].
    destruct (selectedTextId s) as [sid|]; [|reflexivity].
    rewrite hasId_map; [exact Hv|]. intros t. now destruct (strictEq _ _).
  - unfold selectedControl. cbn [app].
    destruct (truthyOpt (selectedTextId s)); [|exact Hv].
    apply sync_valid. cbn [app]. unfold updateSelectedText.
    destruct (negb (truthyOpt (selectedTextId s))); [exact Hv|].
    unfold selectionValid in *. cbn [selectedTextId textOverlays setTextOverlays].
    destruct (selectedTextId s) as [sid|]; [|reflexivity].
    rewrite hasId_map; [exact Hv|]. intros t. now destruct (strictEq _ _).
  - apply sync_valid. cbn [app]. unfold handleCanvasMouseDown.
    destruct (negb (truthyOpt (currentImage s))); [exact Hv|].
    destruct (hitTest measureText canvas _ (textOverlays s)) as [o|] eqn:Hhit;
      [|reflexivity].
    apply hitTest_In in Hhit. unfold selectionValid.
    cbn [selectedTextId textOverlays setDragOffset setIsDragging setSelectedTextId].
    apply existsb_exists. exists o. split; [exact Hhit|apply String.eqb_refl].
  - apply sync_valid. cbn [app]. unfold handleCanvasMouseMove.
    destruct (negb (isDragging s) || negb (truthyOpt (selectedTextId s)));
      [exact Hv|].
    unfold selectionValid in *. cbn [selectedTextId textOverlays setTextOverlays].
    destruct (selectedTextId s) as [sid|]; [|reflexivity].
    rewrite hasId_map; [exact Hv|]. intros t. now destruct (strictEq _ _).
  - exact Hv.
  - exact Hv.
  - apply settle_valid; [exact Hv|]. cbn [app]. now destruct response.
  - apply settle_valid; [exact Hv|]. exact Hv.
  - apply settle_valid; [exact Hv|]. cbn [app].
    destruct result; [discriminate|exact Hv].
Qed.

End SelectionInvariant.

(** ** Dragging *)

Section Drag.

Variable measureText : Font -> string -> Q.

Lemma NtoQ_nonzero (n : N) : (0 < n)%N -> ~ NtoQ n == 0.
Proof.
  intros Hn H. unfold NtoQ, Qeq in H. simpl in H. lia.
Qed.

Lemma Date_now_toString_truthy (now : N) : truthy (Date_now_toString now) = true.
Proof.
  unfold Date_now_toString, NilZero.string_of_uint.
  destruct (N.to_uint now); reflexivity.
Qed.

(** What the pointer-down leaves when the hit test finds [o]. *)
Lemma handleCanvasMouseDown_hit (canvas : Canvas) (rect : DOMRect) (e : MouseEvent)
      (s : AppState) (o : TextOverlay) :
  truthyOpt (currentImage s) = true ->
  hitTest measureText canvas (getCanvasCoordinates canvas rect e) (textOverlays s)
  = Some o ->
  let s1 := handleCanvasMouseDown measureText canvas rect e s in
  let p := getCanvasCoordinates canvas rect e in
  selectedTextId s1 = Some (id o) /\ isDragging s1 = true /\
  textOverlays s1 = textOverlays s /\
  dragOffset s1 = {| px := px p - px (textAnchor canvas o);
                     py := py p - py (textAnchor canvas o) |}.
Proof.
  intros Himg Hhit. unfold handleCanvasMouseDown.
  rewrite Himg. cbn [negb]. rewrite Hhit. repeat split.
Qed.

(** On a loaded image and a canvas of positive size, when the hit test of
    the pointer-down resolves to [o] and the identifier of [o] is not the
    empty string, the pointer-move puts the anchor of [o] where it was plus
    the way of the pointer, and changes nothing else of [o]. *)
Lemma drag_moves_the_hit_overlay
      (canvas : Canvas) (rect : DOMRect) (e1 e2 : MouseEvent)
      (s : AppState) (o : TextOverlay) (i : nat) :
  truthyOpt (currentImage s) = true ->
  (0 < width canvas)%N -> (0 < height canvas)%N ->
  truthy (id o) = true ->
  nth_error (textOverlays s) i = Some o ->
  hitTest measureText canvas (getCanvasCoordinates canvas rect e1) (textOverlays s)
  = Some o ->
  exists o',
    nth_error (textOverlays (dragged measureText canvas rect e1 e2 s)) i = Some o' /\
    anchorMovedBy canvas o o'
                  (getCanvasCoordinates canvas rect e1)
                  (getCanvasCoordinates canvas rect e2) /\
    sameAppearance o o'.
Proof.
  intros Himg Hw Hh Hid Hnth Hhit.
  destruct (handleCanvasMouseDown_hit canvas rect e1 s o Himg Hhit)
    as (Hsel & Hdrag & Hov & Hoff).
  unfold dragged, handleCanvasMouseMove.
  set (s1 := handleCanvasMouseDown measureText canvas rect e1 s) in *.
  rewrite Hdrag, Hsel, Hov, Hoff. cbn [truthyOpt negb orb px py].
  rewrite Hid. cbn [negb textOverlays setTextOverlays].
  rewrite nth_error_map, Hnth. cbn [option_map].
  rewrite strictEq_refl.
  eexists. split; [reflexivity|]. split.
  - apply NtoQ_nonzero in Hw. apply NtoQ_nonzero in Hh.
    unfold anchorMovedBy, textAnchor, moveTo. cbn [px py x y].
    split; field; assumption.
  - unfold sameAppearance, moveTo. cbn. repeat split.
Qed.

End Drag.

(** A drag takes the overlay the hit test resolves to and no other: with
    two labels on top of each other and the pointer going down inside the
    boxes of both, the upper label follows the pointer and the lower one
    stays where it was. *)
Lemma drag_leaves_covered_overlay :
  let p1 := getCanvasCoordinates preview720 halfSize pointerDown in
  let p2 := getCanvasCoordinates preview720 halfSize pointerMoved in
  let s1 := handleCanvasMouseDown monoMeasure preview720 halfSize pointerDown twoLabels in
  let s2 := dragged monoMeasure preview720 halfSize pointerDown pointerMoved twoLabels in
  nth_error (textOverlays twoLabels) 0 = Some labelA /\
  inBox (hitBox monoMeasure preview720 labelA) p1 = true /\
  isDragging s1 = true /\
  px p2 - px p1 == 20 /\ py p2 - py p1 == 0 /\
  nth_error (textOverlays s2) 0 = Some labelA /\
  ~ anchorMovedBy preview720 labelA labelA p1 p2 /\
  exists labelB',
    nth_error (textOverlays s2) 1 = Some labelB' /\
    anchorMovedBy preview720 labelB labelB' p1 p2.
Proof.
  intros p1 p2 s1 s2.
  split; [reflexivity|]. split; [vm_compute; reflexivity|].
  split; [vm_compute; reflexivity|]. split; [vm_compute; reflexivity|].
  split; [vm_compute; reflexivity|]. split; [vm_compute; reflexivity|].
  split.
  - intros (Hx & _). vm_compute in Hx. discriminate.
  - eexists. split; [vm_compute; reflexivity|].
    split; vm_compute; reflexivity.
Qed.

(** ** The adjustment filter *)

(** [filterString] loses nothing: the filter list is the neutral one for the
    default settings and for no others. *)
Lemma filterString_neutral_iff (adjs : AdjustmentSettings) :
  filterString adjs = neutralFilter <-> adjs = DEFAULT_ADJUSTMENTS.
Proof.
  split.
  - destruct adjs as [b c s g p r]. unfold filterString, neutralFilter.
    cbn [brightness contrast saturation grayscale sepia blur].
    intros H. injection H as -> -> -> -> -> ->. reflexivity.
  - intros ->. reflexivity.
Qed.

(** [drawToCanvas] never paints the image without a filter: under the
    default settings the image is drawn once, at the origin, with the
    six-function neutral filter list installed; what that list does to the
    pixels is the business of the canvas implementation. *)
Lemma drawToCanvas_default_filter (measureText : Font -> string -> Q)
      (canvas : Canvas) (img : Image) (sel : option string) :
  exists st,
    bitmap (drawToCanvas measureText canvas img DEFAULT_ADJUSTMENTS [] sel) =
    [DrawImage img 0 0 st] /\
    filter st = neutralFilter.
Proof.
  destruct canvas as [e w h st0 bm].
  eexists. split; reflexivity.
Qed.

Local Close Scope Q_scope.

(* ================================================================== *)
(** * Further properties of the code *)
(* ================================================================== *)

(** ** The matcher, equationally *)

Section MatcherEquations.

Lemma regExp_parts : regExp = Cat (Star Dot) (Cat markers afterMarker).
Proof. reflexivity. Qed.

Lemma run_Alt (r1 r2 : re) s c k :
  run (Alt r1 r2) s c k =
  match run r1 s c k with Some res => Some res | None => run r2 s c k end.
Proof. reflexivity. Qed.

Lemma run_Opt (r : re) s c k :
  run (Opt r) s c k =
  match run r s c k with Some res => Some res | None => k s c end.
Proof. reflexivity. Qed.

Lemma run_Chr (a b : ascii) s c k :
  run (Chr a) (String b s) c k = if Ascii.eqb a b then k s c else None.
Proof. reflexivity. Qed.

Lemma run_lit (w : string) :
  forall s c k,
    run (lit w) s c k =
    match dropPrefix w s with Some rest => k rest c | None => None end.
Proof.
  induction w as [|a w IH]; intros s c k.
  - reflexivity.
  - cbn [lit dropPrefix]. rewrite run_Cat.
    destruct s as [|b s]; [reflexivity|]. rewrite run_Chr.
    destruct (Ascii.eqb a b); [apply IH|reflexivity].
Qed.

Lemma dropPrefix_app (w : string) :
  forall s rest, dropPrefix w s = Some rest -> s = (w ++ rest)%string.
Proof.
  induction w as [|a w IH]; intros s rest H; cbn [dropPrefix] in H.
  - now injection H as ->.
  - destruct s as [|b s]; [discriminate|].
    destruct (Ascii.eqb a b) eqn:E; [|discriminate].
    apply Ascii.eqb_eq in E. subst b. cbn [append]. f_equal. now apply IH.
Qed.

Lemma dropPrefix_here (w rest : string) : dropPrefix w (w ++ rest)%string = Some rest.
Proof.
  induction w as [|a w IH]; cbn [dropPrefix append]; [reflexivity|].
  now rewrite Ascii.eqb_refl.
Qed.

Lemma allChars_app (p : ascii -> bool) (s t : string) :
  allChars p (s ++ t)%string = allChars p s && allChars p t.
Proof.
  induction s as [|a s IH]; cbn [append allChars]; [reflexivity|].
  now rewrite IH, andb_assoc.
Qed.

Lemma allChars_weaken (p q : ascii -> bool) (s : string) :
  (forall a, p a = true -> q a = true) ->
  allChars p s = true -> allChars q s = true.
Proof.
  intros Hpq. induction s as [|a s IH]; cbn [allChars]; [reflexivity|].
  intros H. apply andb_true_iff in H. destruct H as [Ha Hs].
  now rewrite (Hpq a Ha), IH.
Qed.

(** The star of a character class is [greedy]. *)
Lemma run_Star_Cls (p : ascii -> bool) s c k :
  run (Star (Cls p)) s c k = greedy p k s c.
Proof.
  cbn [run].
  remember (String.length s) as fuel eqn:Hf.
  assert (Hle : String.length s <= fuel) by lia. clear Hf.
  revert s Hle. induction fuel as [|fuel IH]; intros s Hle.
  - destruct s; [reflexivity|cbn in Hle; lia].
  - destruct s as [|b s]; [reflexivity|].
    cbn [greedy]. destruct (p b); [|reflexivity].
    cbn [String.length]. rewrite (proj2 (Nat.ltb_lt _ _) (Nat.lt_succ_diag_r _)).
    rewrite IH by (cbn in Hle; lia). reflexivity.
Qed.

Lemma run_Star_Dot s c k :
  run (Star Dot) s c k = greedy notLineTerminator k s c.
Proof.
  cbn [run].
  remember (String.length s) as fuel eqn:Hf.
  assert (Hle : String.length s <= fuel) by lia. clear Hf.
  revert s Hle. induction fuel as [|fuel IH]; intros s Hle.
  - destruct s; [reflexivity|cbn in Hle; lia].
  - destruct s as [|b s]; [reflexivity|].
    cbn [greedy]. unfold notLineTerminator at 1.
    destruct (isLineTerminator b); [reflexivity|]. cbn [negb].
    cbn [String.length]. rewrite (proj2 (Nat.ltb_lt _ _) (Nat.lt_succ_diag_r _)).
    rewrite IH by (cbn in Hle; lia). reflexivity.
Qed.

End MatcherEquations.

Section GreedyFacts.

Variable p : ascii -> bool.
Variable k : string -> captures -> option captures.

Lemma greedy_none (s : string) (c : captures) :
  (forall pre t, s = (pre ++ t)%string -> k t c = None) ->
  greedy p k s c = None.
Proof.
  induction s as [|b s IH]; intros H; cbn [greedy].
  - apply (H "" ""). reflexivity.
  - assert (Hs : greedy p k s c = None).
    { apply IH. intros pre t ->. apply (H (String b pre) t). reflexivity. }
    rewrite Hs. destruct (p b); apply (H "" (String b s)); reflexivity.
Qed.

Lemma greedy_found (pre s : string) (c res : captures) :
  allChars p pre = true ->
  greedy p k s c = Some res ->
  greedy p k (pre ++ s) c = Some res.
Proof.
  induction pre as [|a pre IH]; cbn [append allChars greedy]; intros Hp H.
  - exact H.
  - apply andb_true_iff in Hp. destruct Hp as [-> Hp]. now rewrite IH.
Qed.

Lemma greedy_back (a : ascii) (s : string) (c : captures) :
  greedy p k s c = None ->
  greedy p k (String a s) c = k (String a s) c.
Proof. intros H. cbn [greedy]. rewrite H. now destruct (p a). Qed.

Lemma greedy_stop (body tail : string) (c res : captures) :
  allChars p body = true ->
  match tail with EmptyString => True | String a _ => p a = false end ->
  k tail c = Some res ->
  greedy p k (body ++ tail) c = Some res.
Proof.
  intros Hb Ht Hk. induction body as [|a body IH]; cbn [append].
  - destruct tail as [|b tail]; cbn [greedy]; [exact Hk|]. now rewrite Ht.
  - cbn [allChars] in Hb. apply andb_true_iff in Hb. destruct Hb as [Ha Hb].
    cbn [greedy]. now rewrite Ha, (IH Hb).
Qed.

(** A successful greedy star took characters of the class only and ended in
    its continuation. *)
Lemma greedy_inv (s : string) (c res : captures) :
  greedy p k s c = Some res ->
  exists body rest,
    s = (body ++ rest)%string /\ allChars p body = true /\ k rest c = Some res.
Proof.
  induction s as [|b s IH]; cbn [greedy]; intros H.
  - exists "", "". auto.
  - destruct (p b) eqn:Hb.
    + destruct (greedy p k s c) as [r|] eqn:Hg.
      * injection H as <-. destruct (IH eq_refl) as (body & rest & -> & Hall & Hk).
        exists (String b body), rest. cbn [append allChars]. rewrite Hb. auto.
      * exists "", (String b s). auto.
    + exists "", (String b s). auto.
Qed.

End GreedyFacts.

Lemma greedy_accept (p : ascii -> bool) (s : string) (c : captures) :
  greedy p (fun _ c' => Some c') s c = Some c.
Proof.
  induction s as [|b s IH]; cbn [greedy]; [reflexivity|].
  rewrite IH. now destruct (p b).
Qed.

Lemma String_length_app (s t : string) :
  String.length (s ++ t) = String.length s + String.length t.
Proof. induction s as [|a s IH]; cbn; [reflexivity|now rewrite IH]. Qed.

Lemma substring_prefix (s t : string) :
  substring 0 (String.length s) (s ++ t) = s.
Proof. induction s as [|a s IH]; cbn; [now destruct t|now rewrite IH]. Qed.

Lemma consumed_app (body rest : string) : consumed (body ++ rest) rest = body.
Proof.
  unfold consumed. rewrite String_length_app.
  replace (String.length body + String.length rest - String.length rest)
    with (String.length body) by lia.
  apply substring_prefix.
Qed.

(** ** [getYouTubeID] on the shapes of URL it is written for *)

Section Markers.

Lemma lit_fails (q : ascii -> bool) (w s : string) c k :
  allChars q s = true -> allChars q w = false ->
  run (lit w) s c k = None.
Proof.
  intros Hs Hw. rewrite run_lit.
  destruct (dropPrefix w s) as [rest|] eqn:E; [|reflexivity].
  apply dropPrefix_app in E. subst s. rewrite allChars_app in Hs.
  apply andb_true_iff in Hs. destruct Hs as [Hs _]. congruence.
Qed.

Lemma lit_then (w s : string) c k :
  (forall rest, s = (w ++ rest)%string -> k rest c = None) ->
  run (lit w) s c k = None.
Proof.
  intros H. rewrite run_lit.
  destruct (dropPrefix w s) as [rest|] eqn:E; [|reflexivity].
  apply H. now apply dropPrefix_app.
Qed.

(** Every marker holds a [/] or a [?]: on a text with neither, none
    matches. *)
Lemma markers_need_slash (s : string) c k :
  allChars noSlashQuestion s = true -> run markers s c k = None.
Proof.
  intros Hs. unfold markers. rewrite run_Grp.
  rewrite run_Alt, run_Grp, run_Cat.
  rewrite lit_then.
  2:{ intros rest ->. rewrite allChars_app in Hs.
      apply andb_true_iff in Hs. destruct Hs as [_ Hs].
      rewrite run_Cat. destruct rest as [|b rest]; [reflexivity|].
      cbn [run]. destruct (isLineTerminator b); [reflexivity|].
      cbn [allChars] in Hs. apply andb_true_iff in Hs. destruct Hs as [_ Hs].
      now apply (lit_fails noSlashQuestion). }
  rewrite run_Alt, run_Grp, (lit_fails noSlashQuestion) by (auto; reflexivity).
  rewrite run_Alt, run_Grp, run_Cat, (lit_fails noSlashQuestion)
    by (auto; reflexivity).
  rewrite run_Alt, run_Grp, (lit_fails noSlashQuestion) by (auto; reflexivity).
  rewrite run_Grp, (lit_fails noSlashQuestion) by (auto; reflexivity).
  reflexivity.
Qed.

Lemma tryMarker_needs_slash (s : string) c :
  allChars noSlashQuestion s = true -> tryMarker s c = None.
Proof. intros Hs. unfold tryMarker. rewrite run_Cat. now apply markers_need_slash. Qed.

(** Without [/] and [?] no position of the text carries a marker. *)
Lemma no_marker_inside (s : string) c :
  allChars noSlashQuestion s = true ->
  greedy notLineTerminator tryMarker s c = None.
Proof.
  intros Hs. apply greedy_none. intros pre t ->.
  rewrite allChars_app in Hs. apply andb_true_iff in Hs.
  apply tryMarker_needs_slash. tauto.
Qed.

Lemma exec_regExp (url : string) :
  exec regExp url = greedy notLineTerminator tryMarker url no_captures.
Proof. unfold exec. rewrite regExp_parts, run_Cat, run_Star_Dot. reflexivity. Qed.

End Markers.

Section AfterTheMarker.

Lemma run_Opt_Chr_skip (a : ascii) (s : string) c k :
  match s with EmptyString => True | String b _ => Ascii.eqb a b = false end ->
  run (Opt (Chr a)) s c k = k s c.
Proof.
  intros H. rewrite run_Opt. destruct s as [|b s]; [reflexivity|].
  rewrite run_Chr, H. reflexivity.
Qed.

Lemma run_Opt_Chr_take (a : ascii) (s : string) c k res :
  k s c = Some res -> run (Opt (Chr a)) (String a s) c k = Some res.
Proof. intros H. now rewrite run_Opt, run_Chr, Ascii.eqb_refl, H. Qed.

(** Group 7 takes the identifier, up to the end or to the first of [#],
    [&], [?]; the final [.*] takes what is left. *)
Lemma group7_takes (body tail : string) c :
  allChars notHashAmpQuestion body = true ->
  match tail with
  | EmptyString => True
  | String a _ => notHashAmpQuestion a = false
  end ->
  run (Cat group7 (Star Dot)) (body ++ tail) c (fun _ c' => Some c') =
  Some (set_capture 7 body c).
Proof.
  intros Hb Ht. unfold group7. rewrite run_Cat, run_Grp, run_Star_Cls.
  apply greedy_stop; auto.
  rewrite run_Star_Dot, greedy_accept, consumed_app. reflexivity.
Qed.

Lemma afterMarker_plain (s : string) c k :
  match s with
  | EmptyString => True
  | String b _ =>
      Ascii.eqb "?" b = false /\ Ascii.eqb "v" b = false /\ Ascii.eqb "=" b = false
  end ->
  run afterMarker s c k = run (Cat group7 (Star Dot)) s c k.
Proof.
  intros H. unfold afterMarker.
  rewrite run_Cat, run_Opt_Chr_skip by (destruct s; tauto).
  rewrite run_Cat, run_Opt_Chr_skip by (destruct s; tauto).
  rewrite run_Cat, run_Opt_Chr_skip by (destruct s; tauto).
  reflexivity.
Qed.

(** After [watch?] the pattern steps over [v=]. *)
Lemma afterMarker_v_eq (s : string) c k res :
  run (Cat group7 (Star Dot)) s c k = Some res ->
  run afterMarker (String "v" (String "=" s)) c k = Some res.
Proof.
  intros H. unfold afterMarker.
  rewrite run_Cat, run_Opt_Chr_skip by reflexivity.
  rewrite run_Cat. apply run_Opt_Chr_take.
  rewrite run_Cat. apply run_Opt_Chr_take. exact H.
Qed.

Lemma urlTail_stops (tail : string) :
  urlTail tail = true ->
  match tail with
  | EmptyString => True
  | String a _ => notHashAmpQuestion a = false
  end.
Proof.
  destruct tail as [|a tail]; [auto|]. cbn [urlTail]. intros H.
  apply andb_true_iff in H. destruct H as [H _]. unfold notHashAmpQuestion.
  apply orb_true_iff in H. destruct H as [H|H]; rewrite H;
    [now rewrite orb_true_r | reflexivity].
Qed.

Lemma idChar_facts (a : ascii) :
  idChar a = true ->
  notHashAmpQuestion a = true /\ noSlashQuestion a = true /\
  notLineTerminator a = true.
Proof.
  unfold idChar, noSlashQuestion, notHashAmpQuestion. intros H.
  apply andb_true_iff in H. destruct H as [H Hl].
  apply andb_true_iff in H. destruct H as [Hq Hs].
  repeat split; auto. rewrite Hs. cbn [andb].
  apply negb_true_iff in Hq. apply orb_false_iff in Hq. destruct Hq as [_ Hq].
  now rewrite Hq.
Qed.

Lemma tailChar_facts (a : ascii) :
  tailChar a = true -> noSlashQuestion a = true /\ notLineTerminator a = true.
Proof.
  unfold tailChar, noSlashQuestion. intros H.
  apply andb_true_iff in H. tauto.
Qed.

Lemma urlTail_chars (tail : string) :
  urlTail tail = true -> allChars tailChar tail = true.
Proof.
  destruct tail as [|a tail]; [reflexivity|]. cbn [urlTail]. intros H.
  apply andb_true_iff in H. tauto.
Qed.

(** Identifier and tail together hold no [/], no [?], no line terminator. *)
Lemma id_tail_plain (id tail : string) :
  allChars idChar id = true -> urlTail tail = true ->
  allChars noSlashQuestion (id ++ tail) = true /\
  allChars notLineTerminator (id ++ tail) = true.
Proof.
  intros Hi Ht. apply urlTail_chars in Ht. rewrite !allChars_app.
  split; apply andb_true_iff; split.
  - apply (allChars_weaken idChar); auto. intros a H. now apply idChar_facts.
  - apply (allChars_weaken tailChar); auto. intros a H. now apply tailChar_facts.
  - apply (allChars_weaken idChar); auto. intros a H. now apply idChar_facts.
  - apply (allChars_weaken tailChar); auto. intros a H. now apply tailChar_facts.
Qed.

End AfterTheMarker.

Section UrlShapes.

Lemma greedy_back_none (p : ascii -> bool) k (a : ascii) (s : string) c :
  greedy p k s c = None -> k (String a s) c = None ->
  greedy p k (String a s) c = None.
Proof. intros H1 H2. now rewrite greedy_back. Qed.

Lemma watch_marker (s : string) c k :
  run markers ("watch?" ++ s) c k =
  k s (set_capture 1 (consumed ("watch?" ++ s) s)
         (set_capture 6 (consumed ("watch?" ++ s) s) c)).
Proof. reflexivity. Qed.

Lemma short_marker (s : string) c k :
  run markers ("youtu.be/" ++ s) c k =
  match k s (set_capture 1 (consumed ("youtu.be/" ++ s) s)
               (set_capture 2 (consumed ("youtu.be/" ++ s) s) c)) with
  | Some res => Some res
  | None => None
  end.
Proof. reflexivity. Qed.

Lemma embed_marker (s : string) c k :
  run markers ("embed/" ++ s) c k =
  match k s (set_capture 1 (consumed ("embed/" ++ s) s)
               (set_capture 5 (consumed ("embed/" ++ s) s) c)) with
  | Some res => Some res
  | None => None
  end.
Proof. reflexivity. Qed.

(** At a [/] that a text without [/] and [?] follows, no marker matches. *)
Lemma slash_position (s : string) c :
  allChars noSlashQuestion s = true -> tryMarker (String "/" s) c = None.
Proof.
  intros Hs. unfold tryMarker. rewrite run_Cat. unfold markers.
  rewrite run_Grp, run_Alt.
  replace (run (Grp 2 _) _ _ _) with (@None captures) by reflexivity.
  rewrite run_Alt.
  replace (run (Grp 3 _) _ _ _) with (@None captures) by reflexivity.
  rewrite run_Alt, run_Grp, run_Cat, lit_then.
  2:{ intros rest E. cbn [append] in E. injection E as ->.
      cbn [allChars] in Hs. apply andb_true_iff in Hs. destruct Hs as [_ Hs].
      cbn [allChars] in Hs. apply andb_true_iff in Hs. destruct Hs as [Hs _].
      discriminate Hs. }
  reflexivity.
Qed.

End UrlShapes.

Section UrlTheorems.

Ltac give_back :=
  repeat (apply greedy_back_none; [|reflexivity]).

Lemma found_is_returned (url id : string) (m : captures) :
  String.length id = 11 ->
  exec regExp url = Some m -> m 7 = Some id ->
  getYouTubeID url = Some id.
Proof.
  intros Hlen He Hm. unfold getYouTubeID. rewrite He, Hm, Hlen. reflexivity.
Qed.

(** X1. A watch URL: whatever stands before [watch?v=] (no line break in
    it), an identifier of 11 characters that are none of [#], [&], [?], [/]
    and line breaks, and after it nothing or a part that starts with [&] or
    [#]: [getYouTubeID] yields exactly the identifier. *)
Theorem getYouTubeID_watch_url (pre id tail : string) :
  allChars notLineTerminator pre = true ->
  String.length id = 11 ->
  allChars idChar id = true ->
  urlTail tail = true ->
  getYouTubeID (pre ++ "watch?v=" ++ id ++ tail) = Some id.
Proof.
  intros Hpre Hlen Hid Htail.
  destruct (id_tail_plain id tail Hid Htail) as [Hplain _].
  eapply (found_is_returned _ id); [exact Hlen| |].
  - rewrite exec_regExp. apply greedy_found; [exact Hpre|].
    cbn [append]. rewrite greedy_back.
    + unfold tryMarker. rewrite run_Cat.
      change (String "w" (String "a" (String "t" (String "c" (String "h"
               (String "?" (String "v" (String "=" (id ++ tail)%string))))))))
        with ("watch?" ++ String "v" (String "=" (id ++ tail)))%string.
      rewrite watch_marker. apply afterMarker_v_eq. apply group7_takes.
      * apply (allChars_weaken idChar); auto. intros a H. now apply idChar_facts.
      * now apply urlTail_stops.
    + give_back. now apply no_marker_inside.
  - reflexivity.
Qed.

Lemma id_start (id tail : string) :
  String.length id = 11 -> allChars idChar id = true -> plainStart id = true ->
  match (id ++ tail)%string with
  | EmptyString => True
  | String b _ =>
      Ascii.eqb "?" b = false /\ Ascii.eqb "v" b = false /\ Ascii.eqb "=" b = false
  end.
Proof.
  destruct id as [|a id]; [discriminate|]. intros _ Hid Hp. cbn [append].
  cbn [allChars] in Hid. apply andb_true_iff in Hid. destruct Hid as [Ha _].
  apply idChar_facts in Ha. destruct Ha as (Hq & _ & _).
  unfold notHashAmpQuestion in Hq. apply negb_true_iff in Hq.
  apply orb_false_iff in Hq. destruct Hq as [_ Hq].
  cbn [plainStart] in Hp. apply negb_true_iff in Hp.
  apply orb_false_iff in Hp. destruct Hp as [Hv He].
  rewrite (Ascii.eqb_sym "?" a), (Ascii.eqb_sym "v" a), (Ascii.eqb_sym "=" a).
  auto.
Qed.

(** X2. A short link: whatever stands before [youtu.be/] (no line break in
    it), an identifier of 11 such characters that does not begin with [v] or
    [=], and after it nothing or a part that starts with [&] or [#]:
    [getYouTubeID] yields exactly the identifier. *)
Theorem getYouTubeID_short_link (pre id tail : string) :
  allChars notLineTerminator pre = true ->
  String.length id = 11 ->
  allChars idChar id = true ->
  plainStart id = true ->
  urlTail tail = true ->
  getYouTubeID (pre ++ "youtu.be/" ++ id ++ tail) = Some id.
Proof.
  intros Hpre Hlen Hid Hstart Htail.
  destruct (id_tail_plain id tail Hid Htail) as [Hplain _].
  eapply (found_is_returned _ id); [exact Hlen| |].
  - rewrite exec_regExp. apply greedy_found; [exact Hpre|].
    cbn [append]. rewrite greedy_back.
    + unfold tryMarker. rewrite run_Cat.
      change (String "y" (String "o" (String "u" (String "t" (String "u"
               (String "." (String "b" (String "e" (String "/"
               (id ++ tail)%string)))))))))
        with ("youtu.be/" ++ (id ++ tail))%string.
      rewrite short_marker, afterMarker_plain by now apply id_start.
      rewrite group7_takes; [reflexivity| |now apply urlTail_stops].
      apply (allChars_weaken idChar); auto. intros a H. now apply idChar_facts.
    + give_back. apply greedy_back_none; [now apply no_marker_inside|].
      now apply slash_position.
  - reflexivity.
Qed.

(** X3. An embed URL, under the same conditions as a short link. *)
Theorem getYouTubeID_embed_url (pre id tail : string) :
  allChars notLineTerminator pre = true ->
  String.length id = 11 ->
  allChars idChar id = true ->
  plainStart id = true ->
  urlTail tail = true ->
  getYouTubeID (pre ++ "embed/" ++ id ++ tail) = Some id.
Proof.
  intros Hpre Hlen Hid Hstart Htail.
  destruct (id_tail_plain id tail Hid Htail) as [Hplain _].
  eapply (found_is_returned _ id); [exact Hlen| |].
  - rewrite exec_regExp. apply greedy_found; [exact Hpre|].
    cbn [append]. rewrite greedy_back.
    + unfold tryMarker. rewrite run_Cat.
      change (String "e" (String "m" (String "b" (String "e" (String "d"
               (String "/" (id ++ tail)%string))))))
        with ("embed/" ++ (id ++ tail))%string.
      rewrite embed_marker, afterMarker_plain by now apply id_start.
      rewrite group7_takes; [reflexivity| |now apply urlTail_stops].
      apply (allChars_weaken idChar); auto. intros a H. now apply idChar_facts.
    + give_back. apply greedy_back_none; [now apply no_marker_inside|].
      now apply slash_position.
  - reflexivity.
Qed.

Lemma other_length_is_refused (url g : string) (m : captures) :
  String.length g <> 11 ->
  exec regExp url = Some m -> m 7 = Some g ->
  getYouTubeID url = None.
Proof.
  intros Hlen He Hm. unfold getYouTubeID. rewrite He, Hm.
  apply Nat.eqb_neq in Hlen. now rewrite Hlen.
Qed.

(** X4. A short link whose identifier begins with [v] is refused: the
    pattern takes the [v] for the [v] of [v=], the seventh group holds at
    most the ten characters after it, and the result is [null]. *)
Theorem getYouTubeID_short_v_refused (pre rest tail : string) :
  allChars notLineTerminator pre = true ->
  String.length rest = 10 ->
  allChars idChar rest = true ->
  urlTail tail = true ->
  getYouTubeID (pre ++ "youtu.be/" ++ String "v" rest ++ tail) = None.
Proof.
  intros Hpre Hlen Hid Htail.
  assert (Hid' : allChars idChar (String "v" rest) = true)
    by (cbn [allChars]; now rewrite Hid).
  destruct (id_tail_plain _ tail Hid' Htail) as [Hplain _].
  assert (Hq : allChars notHashAmpQuestion rest = true).
  { apply (allChars_weaken idChar); auto. intros a H. now apply idChar_facts. }
  destruct rest as [|b rest']; [discriminate|].
  destruct (Ascii.eqb "=" b) eqn:Eb.
  - (* the identifier goes on with [=], which is stepped over as well *)
    apply Ascii.eqb_eq in Eb. subst b.
    eapply (other_length_is_refused _ rest').
    + cbn in Hlen. lia.
    + rewrite exec_regExp. apply greedy_found; [exact Hpre|].
      cbn [append]. rewrite greedy_back.
      * unfold tryMarker. rewrite run_Cat.
        change (String "y" (String "o" (String "u" (String "t" (String "u"
                 (String "." (String "b" (String "e" (String "/"
                 (String "v" (String "=" (rest' ++ tail)%string)))))))))))
          with ("youtu.be/" ++ String "v" (String "=" (rest' ++ tail)))%string.
        rewrite short_marker.
        erewrite afterMarker_v_eq; [reflexivity|].
        apply group7_takes; [|now apply urlTail_stops].
        cbn [allChars] in Hq. apply andb_true_iff in Hq. tauto.
      * give_back. apply no_marker_inside.
        cbn [append allChars] in Hplain.
        apply andb_true_iff in Hplain. destruct Hplain as [_ Hplain].
        apply andb_true_iff in Hplain. tauto.
    + reflexivity.
  - eapply (other_length_is_refused _ (String b rest')).
    + cbn in Hlen |- *. lia.
    + rewrite exec_regExp. apply greedy_found; [exact Hpre|].
      cbn [append]. rewrite greedy_back.
      * unfold tryMarker. rewrite run_Cat.
        change (String "y" (String "o" (String "u" (String "t" (String "u"
                 (String "." (String "b" (String "e" (String "/"
                 (String "v" (String b (rest' ++ tail)%string)))))))))))
          with ("youtu.be/" ++ String "v" (String b (rest' ++ tail)))%string.
        rewrite short_marker. unfold afterMarker.
        rewrite run_Cat, run_Opt_Chr_skip by reflexivity.
        rewrite run_Cat.
        erewrite run_Opt_Chr_take; [reflexivity|].
        rewrite run_Cat, run_Opt_Chr_skip by exact Eb.
        change (String b (rest' ++ tail)%string) with (String b rest' ++ tail)%string.
        apply group7_takes; [exact Hq|now apply urlTail_stops].
      * give_back. now apply no_marker_inside.
    + reflexivity.
Qed.

(** X5. A text that holds neither [/] nor [?] is no video URL:
    [getYouTubeID] yields [null] for it, the empty text included. *)
Theorem getYouTubeID_needs_marker (url : string) :
  allChars noSlashQuestion url = true -> getYouTubeID url = None.
Proof.
  intros H. unfold getYouTubeID. rewrite exec_regExp.
  now rewrite no_marker_inside.
Qed.

End UrlTheorems.

Section ResultShape.

Lemma restOf_refl (s : string) : restOf s s.
Proof. exists "". reflexivity. Qed.

Lemma append_assoc (a b c : string) : ((a ++ b) ++ c = a ++ (b ++ c))%string.
Proof. induction a as [|x a IH]; cbn [append]; [reflexivity|now rewrite IH]. Qed.

Lemma restOf_trans (a b c : string) : restOf a b -> restOf b c -> restOf a c.
Proof.
  intros [f1 ->] [f2 ->]. exists (f2 ++ f1)%string. now rewrite append_assoc.
Qed.

Lemma restOf_tail (b : ascii) (s : string) : restOf s (String b s).
Proof. exists (String b ""). reflexivity. Qed.

(** A successful run hands its continuation a rest of the input. *)
Lemma run_rest (r : re) :
  forall s c k res,
    run r s c k = Some res ->
    exists s' c', k s' c' = Some res /\ restOf s' s.
Proof.
  induction r as [|a| |p|r1 IH1 r2 IH2|r1 IH1 r2 IH2|r1 IH1|r1 IH1|i r1 IH1];
    intros s c k res H; cbn [run] in H.
  - exists s, c. split; [exact H|apply restOf_refl].
  - destruct s as [|b s']; [discriminate|].
    destruct (Ascii.eqb a b); [|discriminate].
    exists s', c. split; [exact H|apply restOf_tail].
  - destruct s as [|b s']; [discriminate|].
    destruct (isLineTerminator b); [discriminate|].
    exists s', c. split; [exact H|apply restOf_tail].
  - destruct s as [|b s']; [discriminate|].
    destruct (p b); [|discriminate].
    exists s', c. split; [exact H|apply restOf_tail].
  - apply IH1 in H. destruct H as (s1 & c1 & H & E1).
    apply IH2 in H. destruct H as (s2 & c2 & H & E2).
    exists s2, c2. split; [exact H|]. eapply restOf_trans; eassumption.
  - destruct (run r1 s c k) as [res1|] eqn:H1.
    + injection H as <-. now apply IH1 in H1.
    + now apply IH2 in H.
  - destruct (run r1 s c k) as [res1|] eqn:H1.
    + injection H as <-. now apply IH1 in H1.
    + exists s, c. split; [exact H|apply restOf_refl].
  - revert H. generalize (String.length s) as fuel. revert s c.
    intros s c fuel. revert s c.
    induction fuel as [|fuel IHf]; intros s c H.
    + exists s, c. split; [exact H|apply restOf_refl].
    + match type of H with
      | match ?t with _ => _ end = _ => destruct t as [res1|] eqn:H1
      end.
      * injection H as <-. apply IH1 in H1. destruct H1 as (s1 & c1 & H1 & E1).
        destruct (Nat.ltb (String.length s1) (String.length s)); [|discriminate].
        apply IHf in H1. destruct H1 as (s2 & c2 & H2 & E2).
        exists s2, c2. split; [exact H2|]. eapply restOf_trans; eassumption.
      * exists s, c. split; [exact H|apply restOf_refl].
  - apply IH1 in H. destruct H as (s1 & c1 & H & E1).
    exists s1, (set_capture i (consumed s s1) c1). split; [exact H|exact E1].
Qed.

(** What the seventh group holds after a match: a piece of the URL, free
    of [#], [&] and [?]. *)
Lemma regExp_group7 (url : string) (m : captures) :
  exec regExp url = Some m ->
  exists front g back,
    m 7 = Some g /\ url = (front ++ g ++ back)%string /\
    allChars notHashAmpQuestion g = true.
Proof.
  rewrite exec_regExp. intros H.
  apply greedy_inv in H. destruct H as (f0 & s0 & -> & _ & H).
  unfold tryMarker in H. rewrite run_Cat in H.
  apply run_rest in H. destruct H as (s1 & c1 & H & [f1 ->]).
  unfold afterMarker in H.
  rewrite run_Cat in H. apply run_rest in H. destruct H as (s2 & c2 & H & [f2 ->]).
  rewrite run_Cat in H. apply run_rest in H. destruct H as (s3 & c3 & H & [f3 ->]).
  rewrite run_Cat in H. apply run_rest in H. destruct H as (s4 & c4 & H & [f4 ->]).
  unfold group7 in H. rewrite run_Cat, run_Grp, run_Star_Cls in H.
  apply greedy_inv in H. destruct H as (g & back & -> & Hg & H).
  rewrite run_Star_Dot, greedy_accept, consumed_app in H. injection H as <-.
  exists (f0 ++ f1 ++ f2 ++ f3 ++ f4)%string, g, back.
  split; [reflexivity|]. split; [|exact Hg].
  now rewrite !append_assoc.
Qed.

(** X6. What [getYouTubeID] yields is cut out of the URL: eleven
    consecutive characters of it, none of them [#], [&] or [?]. *)
Theorem getYouTubeID_is_piece_of_url (url v : string) :
  getYouTubeID url = Some v ->
  String.length v = 11 /\
  allChars notHashAmpQuestion v = true /\
  exists front back, url = (front ++ v ++ back)%string.
Proof.
  unfold getYouTubeID. intros H.
  destruct (exec regExp url) as [m|] eqn:He; [|discriminate].
  destruct (regExp_group7 url m He) as (front & g & back & Hm & Hurl & Hg).
  rewrite Hm in H. destruct (Nat.eqb (String.length g) 11) eqn:Hlen; [|discriminate].
  injection H as <-. apply Nat.eqb_eq in Hlen. eauto.
Qed.

End ResultShape.

(** ** The Gemini service *)

Section Gemini.

Import GeminiService.

Variable generateContent : GenerateContent.

Lemma orElse_truthy (a : option string) (b : string) :
  truthy b = true -> truthy (orElse a b) = true.
Proof.
  intros Hb. unfold orElse. destruct a as [s|]; [|exact Hb].
  destruct (truthy s) eqn:Hs; [exact Hs|exact Hb].
Qed.

(** [firstImage] finds the first part that carries image data and builds
    the data URL from it; it finds nothing exactly when no part does. *)
Lemma firstImage_spec (ps : list Part) :
  match firstImage ps with
  | Some url =>
      exists before part inline d after,
        ps = before ++ part :: after /\
        forallb (fun q => negb (carriesImage q)) before = true /\
        inlineData part = Some inline /\ data inline = Some d /\ truthy d = true /\
        url = ("data:" ++ orElse (mimeType inline) "image/png" ++ ";base64," ++ d)%string
  | None => forallb (fun q => negb (carriesImage q)) ps = true
  end.
Proof.
  induction ps as [|part rest IH]; cbn [firstImage]; [reflexivity|].
  destruct (inlineData part) as [inline|] eqn:Hi.
  - destruct (data inline) as [d|] eqn:Hd.
    + destruct (truthy d) eqn:Ht.
      * exists [], part, inline, d, rest. repeat split; auto.
      * destruct (firstImage rest) as [url|].
        -- destruct IH as (before & p & i & d' & after & -> & Hb & H1 & H2 & H3 & H4).
           exists (part :: before), p, i, d', after. repeat split; auto.
           cbn [forallb]. unfold carriesImage at 1. rewrite Hi, Hd. cbn. now rewrite Ht.
        -- cbn [forallb]. unfold carriesImage at 1. rewrite Hi, Hd. cbn. now rewrite Ht.
    + destruct (firstImage rest) as [url|].
      * destruct IH as (before & p & i & d' & after & -> & Hb & H1 & H2 & H3 & H4).
        exists (part :: before), p, i, d', after. repeat split; auto.
        cbn [forallb]. unfold carriesImage at 1. now rewrite Hi, Hd.
      * cbn [forallb]. unfold carriesImage at 1. now rewrite Hi, Hd.
  - destruct (firstImage rest) as [url|].
    + destruct IH as (before & p & i & d' & after & -> & Hb & H1 & H2 & H3 & H4).
      exists (part :: before), p, i, d', after. repeat split; auto.
      cbn [forallb]. unfold carriesImage at 1. now rewrite Hi.
    + cbn [forallb]. unfold carriesImage at 1. now rewrite Hi.
Qed.

(** X12. When [editImageWithGemini] resolves, the key was not empty, the
    client library resolved, and the value is the data URL of the first
    part of the first candidate that carries image data: [data:], its MIME
    type ([image/png] when the part names none), [;base64,], its data. *)
Theorem editImageWithGemini_resolves
        (apiKey base64Image mime : string) (prompt : option string) (url : string) :
  editImageWithGemini generateContent apiKey base64Image mime prompt = inl url ->
  truthy apiKey = true /\
  exists response ps before part inline d after,
    generateContent apiKey (request base64Image mime prompt) = inl response /\
    responseParts response = Some ps /\
    ps = before ++ part :: after /\
    forallb (fun q => negb (carriesImage q)) before = true /\
    inlineData part = Some inline /\ data inline = Some d /\ truthy d = true /\
    url = ("data:" ++ orElse (mimeType inline) "image/png" ++ ";base64," ++ d)%string.
Proof.
  unfold editImageWithGemini. destruct (truthy apiKey); cbn [negb]; [|discriminate].
  destruct (generateContent apiKey _) as [response|msg] eqn:Hg; [|discriminate].
  destruct (responseParts response) as [ps|] eqn:Hp; [|discriminate].
  pose proof (firstImage_spec ps) as Hf.
  destruct (firstImage ps) as [u|]; [|discriminate].
  intros H. injection H as <-. split; [reflexivity|].
  destruct Hf as (before & part & inline & d & after & H1 & H2 & H3 & H4 & H5 & H6).
  exists response, ps, before, part, inline, d, after. repeat split; auto.
Qed.

(** X13. [editImageWithGemini] never rejects without a message: the message
    is [ACCESS DENIED: MISSING API KEY] for an empty key (before anything is
    sent), [GENERATION FAILED: NO IMAGE DATA RETURNED] when the library
    resolved with a response in which no part of the first candidate carries
    image data, and otherwise the message of the error the library threw, or
    [AI PROTOCOL FAILURE] when that error has none. *)
Theorem editImageWithGemini_rejects
        (apiKey base64Image mime : string) (prompt : option string) (message : string) :
  editImageWithGemini generateContent apiKey base64Image mime prompt = inr message ->
  truthy message = true /\
  (if negb (truthy apiKey) then message = "ACCESS DENIED: MISSING API KEY"
   else
     match generateContent apiKey (request base64Image mime prompt) with
     | inl response =>
         message = "GENERATION FAILED: NO IMAGE DATA RETURNED" /\
         match responseParts response with
         | Some ps => forallb (fun q => negb (carriesImage q)) ps = true
         | None => True
         end
     | inr thrown => message = orElse thrown "AI PROTOCOL FAILURE"
     end).
Proof.
  unfold editImageWithGemini. destruct (truthy apiKey); cbn [negb].
  - destruct (generateContent apiKey _) as [response|thrown].
    + destruct (responseParts response) as [ps|].
      * pose proof (firstImage_spec ps) as Hf.
        destruct (firstImage ps) as [u|]; [discriminate|].
        intros H. injection H as <-. cbn. auto.
      * intros H. injection H as <-. cbn. auto.
    + intros H. injection H as <-. split; [|reflexivity].
      now apply orElse_truthy.
  - intros H. injection H as <-. split; reflexivity.
Qed.

(** X14. As [handleGeminiEdit] calls it, with three arguments, the service
    takes the canvas data for the key, sends the string [image/png] as the
    image data and the prompt as its MIME type, and sends no prompt text;
    it never answers [ACCESS DENIED] unless the canvas data is empty. *)
Theorem handleGeminiEdit_call_shifts_arguments (base64 aiPrompt : string) :
  truthy base64 = true ->
  handleGeminiEdit_call generateContent base64 aiPrompt =
  match generateContent base64
          {| model := "gemini-2.5-flash-image";
             contents :=
               mkContent
                 (Some [ mkPart (Some (mkInlineData (Some "image/png") (Some aiPrompt)))
                                None;
                         mkPart None None ]) |} with
  | inl response =>
      match responseParts response with
      | Some ps =>
          match firstImage ps with
          | Some url => inl url
          | None => inr "GENERATION FAILED: NO IMAGE DATA RETURNED"
          end
      | None => inr "GENERATION FAILED: NO IMAGE DATA RETURNED"
      end
  | inr thrown => inr (orElse thrown "AI PROTOCOL FAILURE")
  end.
Proof.
  intros Hk.
  unfold handleGeminiEdit_call, editImageWithGemini. rewrite Hk. cbn [negb].
  unfold request.
  destruct (generateContent base64 _) as [response|thrown].
  - destruct (responseParts response) as [ps|]; [|reflexivity].
    destruct (firstImage ps); reflexivity.
  - assert (Ht : truthy (orElse thrown "AI PROTOCOL FAILURE") = true)
      by now apply orElse_truthy.
    unfold orElse at 1. now rewrite Ht.
Qed.

End Gemini.

(** ** Fetching, exporting, editing with the AI *)

Section LongOperations.

Variable measureText : Font -> string -> Q.

Lemma getYouTubeID_truthy (url v : string) :
  getYouTubeID url = Some v -> truthyOpt (getYouTubeID url) = true.
Proof.
  intros H. rewrite H. unfold getYouTubeID in H.
  destruct (exec regExp url) as [m|]; [|discriminate].
  destruct (m 7) as [g|]; [|discriminate].
  destruct (Nat.eqb (String.length g) 11) eqn:E; [|discriminate].
  injection H as <-. destruct g; [discriminate E|reflexivity].
Qed.

(** X7. A fetch that cannot deliver changes nothing in an idle session but
    the error message: with a URL that [getYouTubeID] refuses, the click on
    EXECUTE sends nothing and shows [INVALID TARGET URL]; with a URL it
    accepts and a request that fails, the session is idle again and shows
    [CONNECTION FAILED (Check URL or network)]. *)
Theorem failed_fetch_keeps_work (ss : Session) :
  isProcessing (app ss) = false ->
  inflight ss = [] ->
  match getYouTubeID (youtubeUrl (app ss)) with
  | None =>
      step measureText ClickExecute ss =
      sync (setErrorMsg (Some "INVALID TARGET URL")) ss
  | Some _ =>
      run_events measureText [ClickExecute; FetchSettled None] ss =
      sync (setErrorMsg (Some "CONNECTION FAILED (Check URL or network)")) ss
  end.
Proof.
  intros Hidle Hnone. destruct ss as [s ops]. cbn [app inflight] in *. subst ops.
  destruct (getYouTubeID (youtubeUrl s)) as [v|] eqn:Hid.
  - apply getYouTubeID_truthy in Hid.
    unfold run_events. cbn [fold_left step app]. unfold clickAsync, executeDisabled.
    cbn [app]. rewrite Hidle. unfold handleFetchYouTube_begin. rewrite Hid.
    cbn [negb inflight app]. unfold settle. cbn [inflight removeFirst app Operation_eqb].
    unfold sync. cbn [app inflight]. f_equal.
    unfold handleFetchYouTube_settle.
    destruct s; cbn in Hidle; subst. reflexivity.
  - cbn [step app]. unfold clickAsync, executeDisabled. cbn [app]. rewrite Hidle.
    unfold handleFetchYouTube_begin. rewrite Hid. reflexivity.
Qed.

(** X8. A fetch that delivers starts afresh: in an idle session with a URL
    that [getYouTubeID] accepts, after the click on EXECUTE and the arrival
    of the image the session is idle, shows the new image with the default
    adjustments, no overlay, no selection and no error; URL, prompt, text
    input and drag state are as before. *)
Theorem successful_fetch_starts_afresh (ss : Session) (objectUrl : string) :
  isProcessing (app ss) = false ->
  inflight ss = [] ->
  getYouTubeID (youtubeUrl (app ss)) <> None ->
  run_events measureText [ClickExecute; FetchSettled (Some objectUrl)] ss =
  mkSession
    {| youtubeUrl := youtubeUrl (app ss);
       currentImage := Some objectUrl;
       adjustments := DEFAULT_ADJUSTMENTS;
       aiPrompt := aiPrompt (app ss);
       isProcessing := false;
       errorMsg := None;
       textOverlays := [];
       newText := newText (app ss);
       selectedTextId := None;
       isDragging := isDragging (app ss);
       dragOffset := dragOffset (app ss) |}
    [].
Proof.
  intros Hidle Hnone Hid. destruct ss as [s ops]. cbn [app inflight] in *. subst ops.
  destruct (getYouTubeID (youtubeUrl s)) as [v|] eqn:Hv; [|contradiction].
  apply getYouTubeID_truthy in Hv.
  unfold run_events. cbn [fold_left step app]. unfold clickAsync, executeDisabled.
  cbn [app]. rewrite Hidle. unfold handleFetchYouTube_begin. rewrite Hv.
  cbn [negb inflight app]. unfold settle. cbn [inflight removeFirst app Operation_eqb].
  reflexivity.
Qed.

(** X9. An export leaves no trace in the session: from an idle session with
    an image, the click on EXPORT and the end of the drawing bring back
    exactly the session as it was; without an image the click does nothing. *)
Theorem export_leaves_no_trace (ss : Session) :
  isProcessing (app ss) = false ->
  inflight ss = [] ->
  run_events measureText [ClickExport; ExportDrawn] ss = ss /\
  (truthyOpt (currentImage (app ss)) = false ->
   step measureText ClickExport ss = ss).
Proof.
  intros Hidle Hnone. destruct ss as [s ops]. cbn [app inflight] in *. subst ops.
  split.
  - unfold run_events. cbn [fold_left step app]. unfold clickAsync, exportDisabled.
    cbn [app]. rewrite Hidle, orb_false_r.
    destruct (truthyOpt (currentImage s)) eqn:Himg; cbn [negb].
    + unfold handleDownload_begin. rewrite Himg. cbn [negb inflight app].
      unfold settle. cbn [inflight removeFirst app Operation_eqb].
      f_equal. unfold handleDownload_finish.
      destruct s; cbn in Hidle; subst. reflexivity.
    + reflexivity.
  - intros Himg. cbn [step app]. unfold clickAsync, exportDisabled.
    cbn [app]. now rewrite Himg.
Qed.

(** X10. A prompt of white space only starts nothing: the COMPILE_EDIT button
    is enabled for it (the prompt is not the empty string), but its click
    leaves the whole session as it is. *)
Theorem blank_prompt_starts_nothing (ss : Session) :
  trim (aiPrompt (app ss)) = "" ->
  step measureText ClickCompileEdit ss = ss.
Proof.
  intros Hblank. cbn [step]. unfold clickAsync.
  destruct (compileEditDisabled (app ss)); [reflexivity|].
  unfold handleGeminiEdit_begin. rewrite Hblank. cbn [truthy negb].
  rewrite orb_true_r. now destruct ss.
Qed.

(** X11. An AI edit, from click to answer, on an idle session with an image
    and a prompt that is not blank.  When the service resolves, the session
    shows the new image with the default adjustments, no overlay and an
    empty prompt.  When it rejects, nothing changes but the error message,
    which is never empty. *)
Theorem ai_edit_outcome (generateContent : GeminiService.GenerateContent)
        (base64 : string) (ss : Session) :
  isProcessing (app ss) = false ->
  inflight ss = [] ->
  truthyOpt (currentImage (app ss)) = true ->
  trim (aiPrompt (app ss)) <> "" ->
  let answer := handleGeminiEdit_call generateContent base64 (aiPrompt (app ss)) in
  let ss' := run_events measureText [ClickCompileEdit; GeminiSettled answer] ss in
  match answer with
  | inl newImage =>
      inflight ss' = [] /\ isProcessing (app ss') = false /\
      currentImage (app ss') = Some newImage /\
      adjustments (app ss') = DEFAULT_ADJUSTMENTS /\
      textOverlays (app ss') = [] /\ aiPrompt (app ss') = "" /\
      errorMsg (app ss') = None
  | inr message =>
      ss' = sync (setErrorMsg (Some message)) ss /\ truthy message = true
  end.
Proof.
  intros Hidle Hnone Himg Hprompt answer ss'.
  destruct ss as [s ops]. cbn [app inflight] in *. subst ops.
  assert (Hp : truthy (trim (aiPrompt s)) = true).
  { destruct (truthy (trim (aiPrompt s))) eqn:E; [reflexivity|].
    apply truthy_false_iff in E. contradiction. }
  assert (Hp' : truthy (aiPrompt s) = true).
  { destruct (aiPrompt s); [cbn in Hp; discriminate|reflexivity]. }
  assert (Hss : ss' = mkSession (handleGeminiEdit_settle answer
                                   (setErrorMsg None (setIsProcessing true s))) []).
  { subst ss'. unfold run_events. cbn [fold_left step app].
    unfold clickAsync, compileEditDisabled. cbn [app].
    rewrite Himg, Hidle, Hp'. cbn [negb orb].
    unfold handleGeminiEdit_begin. rewrite Himg, Hp. cbn [negb orb inflight app].
    unfold settle. cbn [inflight removeFirst app Operation_eqb]. reflexivity. }
  rewrite Hss. clear Hss ss'.
  destruct answer as [newImage|message] eqn:Ha.
  - cbn. repeat split; reflexivity.
  - split.
    + unfold sync. cbn [app inflight]. f_equal.
      destruct s; cbn in Hidle; subst. reflexivity.
    + subst answer. unfold handleGeminiEdit_call in Ha.
      destruct (GeminiService.editImageWithGemini _ _ _ _ _) as [u|m0];
        [discriminate|].
      injection Ha as <-. apply (orElse_truthy (Some m0)). reflexivity.
Qed.

End LongOperations.

(** ** Adding, adjusting, the controls of the selected text *)

Section Editing.

Variable measureText : Font -> string -> Q.

(** X15. The text input is emptied by a successful add, so a second click on
    ADD without typing adds nothing: after two clicks the session is what it
    was after the first. *)
Theorem add_twice_adds_once (now1 now2 : N) (ss : Session) :
  step measureText (ClickAdd now2) (step measureText (ClickAdd now1) ss) =
  step measureText (ClickAdd now1) ss.
Proof.
  cbn [step]. unfold sync. cbn [app inflight]. f_equal.
  destruct (negb (truthy (trim (newText (app ss))))) eqn:Hblank.
  - assert (E : handleAddText now1 (app ss) = app ss)
      by (unfold handleAddText; now rewrite Hblank).
    rewrite E. unfold handleAddText. now rewrite Hblank.
  - assert (E : handleAddText now1 (app ss) =
                setSelectedTextId (Some (Date_now_toString now1))
                  (setNewText ""
                     (setTextOverlays
                        (textOverlays (app ss) ++
                         [mkOverlay (Date_now_toString now1) (newText (app ss))
                                    50%Q 50%Q "#00ff00" 48%Q "Share Tech Mono"])
                        (app ss))))
      by (unfold handleAddText; now rewrite Hblank).
    rewrite E. reflexivity.
Qed.

Lemma AdjustmentKey_eqb_eq (a b : AdjustmentKey) :
  AdjustmentKey_eqb a b = true <-> a = b.
Proof. destruct a, b; cbn; split; congruence. Qed.

(** X16. A slider writes its own knob and no other, whatever the value (no
    value is clamped or refused); writes to different knobs commute and of
    two writes to one knob the later stays; no other cell of the state is
    touched. *)
Theorem handleAdjustmentChange_laws :
  (forall key key' v s,
      getAdjustment (adjustments (handleAdjustmentChange key v s)) key' =
      if AdjustmentKey_eqb key key' then v else getAdjustment (adjustments s) key') /\
  (forall k1 k2 v1 v2 s,
      AdjustmentKey_eqb k1 k2 = false ->
      handleAdjustmentChange k1 v1 (handleAdjustmentChange k2 v2 s) =
      handleAdjustmentChange k2 v2 (handleAdjustmentChange k1 v1 s)) /\
  (forall key v1 v2 s,
      handleAdjustmentChange key v2 (handleAdjustmentChange key v1 s) =
      handleAdjustmentChange key v2 s) /\
  (forall key v s,
      setAdjustments (adjustments s) (handleAdjustmentChange key v s) = s).
Proof.
  repeat split.
  - intros key key' v s. destruct key, key'; reflexivity.
  - intros k1 k2 v1 v2 s H. destruct k1, k2; try discriminate H; reflexivity.
  - intros key v1 v2 s. destruct key; reflexivity.
  - intros key v s. destruct s. reflexivity.
Qed.

Lemma map_untouched {A : Type} (f : A -> A) (l : list A) :
  (forall a, In a l -> f a = a) -> map f l = l.
Proof.
  induction l as [|a l IH]; intros H; cbn [map]; [reflexivity|].
  rewrite (H a (or_introl eq_refl)), IH; [reflexivity|].
  intros b Hb. apply H. now right.
Qed.

Lemma stale_map (sel : option string) (g : TextOverlay -> TextOverlay)
      (l : list TextOverlay) :
  match sel with
  | Some sid => existsb (fun t => String.eqb (id t) sid) l = false
  | None => True
  end ->
  map (fun t => if strictEq sel (id t) then g t else t) l = l.
Proof.
  intros H. apply map_untouched. intros t Hin.
  destruct sel as [sid|]; [|reflexivity]. cbn [strictEq].
  destruct (String.eqb sid (id t)) eqn:E; [|reflexivity].
  apply String.eqb_eq in E. subst sid.
  assert (existsb (fun u => String.eqb (id u) (id t)) l = true).
  { apply existsb_exists. exists t. split; [exact Hin|apply String.eqb_refl]. }
  congruence.
Qed.

(** X17. With a selection that names no overlay of the list (the state the
    delete button and the AI edit can leave), the controls of the selected
    text and the drag are silent no-ops: the whole state stays as it is. *)
Theorem stale_selection_changes_nothing
        (u : OverlayUpdate) (canvas : Canvas) (rect : DOMRect) (e : MouseEvent)
        (s : AppState) :
  selectionValid s = false ->
  updateSelectedText u s = s /\ handleCanvasMouseMove canvas rect e s = s.
Proof.
  unfold selectionValid. intros H.
  destruct (selectedTextId s) as [sid|] eqn:Hsel; [|discriminate].
  split.
  - unfold updateSelectedText. rewrite Hsel.
    destruct (negb (truthyOpt (Some sid))); [reflexivity|].
    rewrite (stale_map (Some sid)) by exact H. now destruct s.
  - unfold handleCanvasMouseMove. rewrite Hsel.
    destruct (negb (isDragging s) || negb (truthyOpt (Some sid))); [reflexivity|].
    rewrite (stale_map (Some sid)) by exact H. now destruct s.
Qed.

(** Writing a key other than [id] keeps the identifier; a later write to
    the same key hides the earlier one; writes to different keys commute. *)
Lemma setOverlayField_id (t : TextOverlay) (u : OverlayUpdate) :
  keyOf u <> F_id -> id (setOverlayField t u) = id t.
Proof. destruct u; intros H; try reflexivity. now contradiction H. Qed.

Lemma setOverlayField_read (t : TextOverlay) (u : OverlayUpdate) (k : OverlayKey) :
  getOverlayField (setOverlayField t u) k =
  if OverlayKey_eqb (keyOf u) k then valueOf u else getOverlayField t k.
Proof. destruct u, k; reflexivity. Qed.

Lemma setOverlayField_twice (t : TextOverlay) (u1 u2 : OverlayUpdate) :
  keyOf u1 = keyOf u2 ->
  setOverlayField (setOverlayField t u1) u2 = setOverlayField t u2.
Proof. destruct u1, u2; intros H; try discriminate H; reflexivity. Qed.

Lemma setOverlayField_comm (t : TextOverlay) (u1 u2 : OverlayUpdate) :
  keyOf u1 <> keyOf u2 ->
  setOverlayField (setOverlayField t u1) u2 = setOverlayField (setOverlayField t u2) u1.
Proof. destruct u1, u2; intros H; try reflexivity; now contradiction H. Qed.

(** Two passes of [map] over the list, each rewriting the overlays with
    the selected identifier and keeping that identifier, are one pass. *)
Lemma map_selected_twice (sel : option string) (f g : TextOverlay -> TextOverlay)
      (l : list TextOverlay) :
  (forall t, id (f t) = id t) ->
  map (fun t => if strictEq sel (id t) then g t else t)
      (map (fun t => if strictEq sel (id t) then f t else t) l) =
  map (fun t => if strictEq sel (id t) then g (f t) else t) l.
Proof.
  intros Hf. rewrite map_map. apply map_ext. intros t.
  destruct (strictEq sel (id t)) eqn:E; [|now rewrite E].
  now rewrite Hf, E.
Qed.

Lemma updateSelectedText_twice (u1 u2 : OverlayUpdate) (s : AppState) :
  keyOf u1 <> F_id ->
  updateSelectedText u2 (updateSelectedText u1 s) =
  if negb (truthyOpt (selectedTextId s)) then s
  else setTextOverlays
         (map (fun t => if strictEq (selectedTextId s) (id t)
                        then setOverlayField (setOverlayField t u1) u2 else t)
              (textOverlays s)) s.
Proof.
  intros H1. unfold updateSelectedText.
  destruct (negb (truthyOpt (selectedTextId s))) eqn:E; [now rewrite E|].
  destruct s as [c0 c1 c2 c3 c4 c5 c6 c7 c8 c9 c10].
  cbn [selectedTextId textOverlays setTextOverlays] in *. rewrite E.
  rewrite map_selected_twice; [reflexivity|].
  intros t. now apply setOverlayField_id.
Qed.

(** X18. The controls of the selected text, with a selection: a write
    reaches the overlays that carry the selected identifier and no other
    (the list keeps its length and its order, an overlay with another
    identifier is unchanged); in an overlay it reaches, the key reads the
    written value, whatever it is, and every other key reads what it read
    before; of two writes to one key the later stays, and writes to
    different keys commute (for keys other than [id], which no control
    writes); no other cell of the state is touched. *)
Theorem updateSelectedText_laws (s : AppState) (sid : string) :
  selectedTextId s = Some sid -> truthy sid = true ->
  (forall u i t,
      nth_error (textOverlays s) i = Some t ->
      exists t',
        nth_error (textOverlays (updateSelectedText u s)) i = Some t' /\
        (id t <> sid -> t' = t) /\
        (id t = sid ->
         forall k, getOverlayField t' k =
                   if OverlayKey_eqb (keyOf u) k then valueOf u
                   else getOverlayField t k)) /\
  (forall u, List.length (textOverlays (updateSelectedText u s)) =
             List.length (textOverlays s)) /\
  (forall u1 u2,
      keyOf u1 = keyOf u2 -> keyOf u1 <> F_id ->
      updateSelectedText u2 (updateSelectedText u1 s) = updateSelectedText u2 s) /\
  (forall u1 u2,
      keyOf u1 <> keyOf u2 -> keyOf u1 <> F_id -> keyOf u2 <> F_id ->
      updateSelectedText u2 (updateSelectedText u1 s) =
      updateSelectedText u1 (updateSelectedText u2 s)) /\
  (forall u, setTextOverlays (textOverlays s) (updateSelectedText u s) = s).
Proof.
  intros Hsel Hsid.
  assert (Hon : negb (truthyOpt (selectedTextId s)) = false)
    by (rewrite Hsel; cbn [truthyOpt]; now rewrite Hsid).
  split; [|split; [|split; [|split]]].
  - intros u i t Hi. unfold updateSelectedText. rewrite Hon.
    cbn [textOverlays setTextOverlays]. rewrite nth_error_map, Hi, Hsel.
    cbn [option_map strictEq]. eexists. split; [reflexivity|]. split.
    + intros Hne. destruct (String.eqb sid (id t)) eqn:E; [|reflexivity].
      apply String.eqb_eq in E. now contradiction Hne.
    + intros <- k. rewrite String.eqb_refl. apply setOverlayField_read.
  - intros u. unfold updateSelectedText. rewrite Hon.
    cbn [textOverlays setTextOverlays]. apply length_map.
  - intros u1 u2 Hsame H1. rewrite updateSelectedText_twice by exact H1.
    rewrite Hon. unfold updateSelectedText. rewrite Hon. f_equal.
    apply map_ext. intros t. now rewrite setOverlayField_twice.
  - intros u1 u2 Hdiff H1 H2. rewrite !updateSelectedText_twice by assumption.
    rewrite Hon. f_equal. apply map_ext. intros t.
    now rewrite setOverlayField_comm.
  - intros u. unfold updateSelectedText. rewrite Hon. now destruct s.
Qed.

Lemma find_map_same_id (sel : option string) (f : TextOverlay -> TextOverlay)
      (l : list TextOverlay) :
  (forall t, id (f t) = id t) ->
  find (fun t => strictEq sel (id t)) (map f l) =
  option_map f (find (fun t => strictEq sel (id t)) l).
Proof.
  intros Hf. induction l as [|t l IH]; cbn [map find]; [reflexivity|].
  rewrite Hf. destruct (strictEq sel (id t)); [reflexivity|exact IH].
Qed.

Lemma find_selected_exists (sid : string) (l : list TextOverlay) :
  existsb (fun t => String.eqb (id t) sid) l = true ->
  exists t, find (fun t => strictEq (Some sid) (id t)) l = Some t /\ id t = sid.
Proof.
  induction l as [|t l IH]; cbn [existsb find strictEq]; [discriminate|].
  intros H. destruct (String.eqb sid (id t)) eqn:E.
  - exists t. split; [reflexivity|]. apply String.eqb_eq in E. auto.
  - rewrite String.eqb_sym, E in H. cbn [orb] in H. now apply IH.
Qed.

(** X19. What a control of the selected text writes, it shows: with a
    selection that names an overlay of the list, after the font family, the
    size or the colour was set to a value, the control shows that value (a
    value that JavaScript counts as false, the empty string or the size 0,
    shows as the default instead). *)
Theorem controls_show_what_they_wrote (s : AppState) (sid : string) :
  selectedTextId s = Some sid -> truthy sid = true -> selectionValid s = true ->
  (forall v, shownFontFamily (updateSelectedText (U_fontFamily v) s) =
             if truthy v then v else "Share Tech Mono") /\
  (forall v, shownFontSize (updateSelectedText (U_fontSize v) s) =
             if Qeq_bool v 0 then 48%Q else v) /\
  (forall v, shownColor (updateSelectedText (U_color v) s) =
             if truthy v then v else "#00ff00").
Proof.
  intros Hsel Hsid Hvalid. unfold selectionValid in Hvalid. rewrite Hsel in Hvalid.
  destruct (find_selected_exists sid _ Hvalid) as (t & Hfind & Hid).
  assert (Hfound : forall u,
             (forall t', id (setOverlayField t' u) = id t') ->
             findSelected (updateSelectedText u s) = Some (setOverlayField t u)).
  { intros u Hu. unfold findSelected, updateSelectedText. rewrite Hsel.
    cbn [truthyOpt]. rewrite Hsid.
    cbn [negb textOverlays selectedTextId setTextOverlays]. rewrite Hsel.
    rewrite find_map_same_id.
    - rewrite Hfind. cbn [option_map]. rewrite <- Hid at 1.
      now rewrite strictEq_refl.
    - intros t'. destruct (strictEq _ _); [apply Hu|reflexivity]. }
  repeat split; intros v.
  - unfold shownFontFamily. rewrite Hfound by reflexivity. reflexivity.
  - unfold shownFontSize. rewrite Hfound by reflexivity. reflexivity.
  - unfold shownColor. rewrite Hfound by reflexivity. reflexivity.
Qed.

End Editing.

(** ** Pointer coordinates and the drag *)

Section Pointer.

Local Open Scope Q_scope.

Variable measureText : Font -> string -> Q.

(** X20. [getCanvasCoordinates] maps the rectangle the canvas takes on the
    screen onto the bitmap: the point at the fractions [u], [v] of the
    rectangle goes to the fractions [u], [v] of the bitmap, whatever the
    scaling; so the corners go to the corners, and on a canvas shown at its
    native size the result is the offset from the corner of the rectangle. *)
Theorem getCanvasCoordinates_scales
        (canvas : Canvas) (rect : DOMRect) (u v : Q) :
  ~ rect_width rect == 0 -> ~ rect_height rect == 0 ->
  let e := mkMouse (rect_left rect + u * rect_width rect)
                   (rect_top rect + v * rect_height rect) in
  px (getCanvasCoordinates canvas rect e) == u * NtoQ (width canvas) /\
  py (getCanvasCoordinates canvas rect e) == v * NtoQ (height canvas) /\
  (rect_width rect == NtoQ (width canvas) ->
   rect_height rect == NtoQ (height canvas) ->
   px (getCanvasCoordinates canvas rect e) == clientX e - rect_left rect /\
   py (getCanvasCoordinates canvas rect e) == clientY e - rect_top rect).
Proof.
  intros Hw Hh e. unfold getCanvasCoordinates. subst e.
  cbn [px py clientX clientY]. split; [field; exact Hw|]. split; [field; exact Hh|].
  intros Ew Eh. rewrite <- Ew, <- Eh. split; field; assumption.
Qed.

Lemma moveTo_moveTo (t : TextOverlay) (a b c d : Q) :
  moveTo (moveTo t a b) c d = moveTo t c d.
Proof. reflexivity. Qed.

(** X21. A drag does not depend on the path of the pointer: a pointer-move
    after another pointer-move leaves the state that the second one alone
    would have left. *)
Theorem drag_is_path_independent
        (canvas : Canvas) (rect : DOMRect) (e1 e2 : MouseEvent) (s : AppState) :
  handleCanvasMouseMove canvas rect e2 (handleCanvasMouseMove canvas rect e1 s) =
  handleCanvasMouseMove canvas rect e2 s.
Proof.
  unfold handleCanvasMouseMove at 2.
  destruct (negb (isDragging s) || negb (truthyOpt (selectedTextId s))) eqn:Hc;
    [reflexivity|].
  unfold handleCanvasMouseMove.
  cbn [isDragging selectedTextId dragOffset textOverlays setTextOverlays].
  rewrite Hc. rewrite map_map. unfold setTextOverlays. cbn. f_equal.
  apply map_ext. intros t.
  destruct (strictEq (selectedTextId s) (id t)) eqn:E.
  - cbn [moveTo id]. rewrite E. reflexivity.
  - rewrite E. reflexivity.
Qed.

(** X22. Outside a drag the pointer moves nothing.  After the pointer went
    up or left the canvas, the selection is kept and every pointer-move
    leaves the state as it is; and after a press on a loaded image at a point
    that no box contains, nothing is selected, no overlay has changed and
    every pointer-move leaves the state as it is. *)
Theorem pointer_moves_nothing_outside_a_drag
        (canvas : Canvas) (rect : DOMRect) (e1 e2 : MouseEvent) (s : AppState) :
  (selectedTextId (handleCanvasMouseUp s) = selectedTextId s /\
   textOverlays (handleCanvasMouseUp s) = textOverlays s /\
   handleCanvasMouseMove canvas rect e2 (handleCanvasMouseUp s) =
   handleCanvasMouseUp s) /\
  (truthyOpt (currentImage s) = true ->
   hitTest measureText canvas (getCanvasCoordinates canvas rect e1) (textOverlays s)
   = None ->
   let s1 := handleCanvasMouseDown measureText canvas rect e1 s in
   selectedTextId s1 = None /\ textOverlays s1 = textOverlays s /\
   handleCanvasMouseMove canvas rect e2 s1 = s1).
Proof.
  split.
  - repeat split.
  - intros Himg Hmiss s1. subst s1. unfold handleCanvasMouseDown.
    rewrite Himg. cbn [negb]. rewrite Hmiss. repeat split.
    unfold handleCanvasMouseMove. cbn [selectedTextId setSelectedTextId truthyOpt negb].
    now rewrite orb_true_r.
Qed.

(** X23. A drag moves the overlays that carry the identifier of the overlay
    that was hit, and no other: after a press that hits an overlay and a
    pointer-move, the list has its length, and every overlay with another
    identifier is at its place, unchanged. *)
Theorem drag_leaves_the_others
        (canvas : Canvas) (rect : DOMRect) (e1 e2 : MouseEvent)
        (s : AppState) (o : TextOverlay) :
  truthyOpt (currentImage s) = true ->
  hitTest measureText canvas (getCanvasCoordinates canvas rect e1) (textOverlays s)
  = Some o ->
  let s2 := dragged measureText canvas rect e1 e2 s in
  List.length (textOverlays s2) = List.length (textOverlays s) /\
  forall i t,
    nth_error (textOverlays s) i = Some t -> id t <> id o ->
    nth_error (textOverlays s2) i = Some t.
Proof.
  intros Himg Hhit s2. subst s2. unfold dragged, handleCanvasMouseDown.
  rewrite Himg. cbn [negb]. rewrite Hhit. unfold handleCanvasMouseMove.
  cbn [isDragging selectedTextId dragOffset textOverlays setDragOffset
       setIsDragging setSelectedTextId negb orb truthyOpt].
  destruct (negb (truthy (id o))).
  - split; [reflexivity|]. intros i t Hi _. exact Hi.
  - cbn [textOverlays setTextOverlays]. split; [apply length_map|].
    intros i t Hi Hne. rewrite nth_error_map, Hi. cbn [option_map strictEq].
    destruct (String.eqb (id o) (id t)) eqn:E; [|reflexivity].
    apply String.eqb_eq in E. congruence.
Qed.

End Pointer.

(** ** What [drawToCanvas] paints *)

Section Picture.

Local Open Scope Q_scope.

Variable measureText : Font -> string -> Q.

Lemma textsOf_app (a b : list Paint) : textsOf (a ++ b) = textsOf a ++ textsOf b.
Proof.
  induction a as [|p a IH]; [reflexivity|].
  destruct p; cbn [List.app textsOf]; now rewrite IH.
Qed.

Lemma imagesOf_app (a b : list Paint) : imagesOf (a ++ b) = imagesOf a ++ imagesOf b.
Proof.
  induction a as [|p a IH]; [reflexivity|].
  destruct p; cbn [List.app imagesOf]; now rewrite IH.
Qed.

(** One round of the [forEach]: one text more, no image, and the outline
    when the overlay is the selected one and the canvas is the preview. *)
Lemma drawOverlay_paints (sel : option string) (c : Canvas) (o : TextOverlay) :
  filter (context c) = [] ->
  let c' := drawOverlay measureText sel c o in
  textsOf (bitmap c') = textsOf (bitmap c) ++ [paintedOverlay (width c) (height c) o] /\
  imagesOf (bitmap c') = imagesOf (bitmap c) /\
  outlines (bitmap c') =
    outlines (bitmap c) ++
    (if (strictEq sel (id o) && isPreview (element c))%bool
     then [outlineOf measureText c o] else []) /\
  filter (context c') = [].
Proof.
  destruct c as [e w h st bm]. destruct st as [f0 f1 f2 f3 f4 f5 f6 f7 f8 f9 f10 f11].
  cbn [context filter]. intros ->.
  cbv beta iota zeta delta
      [drawOverlay paint withContext selectionRect outlineOf renderFont
       fontSizePxOf paintedOverlay width height context bitmap element
       set_filter set_fillStyle set_font set_textAlign set_textBaseline
       set_shadowColor set_shadowBlur set_shadowOffsetX set_shadowOffsetY
       set_strokeStyle set_lineWidth setLineDash
       filter fillStyle font textAlign textBaseline shadowColor shadowBlur
       shadowOffsetX shadowOffsetY strokeStyle lineWidth lineDash].
  destruct (strictEq sel (id o) && isPreview e)%bool;
    cbv beta iota zeta delta
      [width height context bitmap element
       filter fillStyle font textAlign textBaseline shadowColor shadowBlur
       shadowOffsetX shadowOffsetY strokeStyle lineWidth lineDash];
    rewrite ?textsOf_app, ?imagesOf_app, ?outlines_app;
    cbn [textsOf imagesOf outlines List.app
         filter fillStyle font textAlign textBaseline shadowColor shadowBlur
         shadowOffsetX shadowOffsetY];
    rewrite ?app_nil_r; repeat split; reflexivity.
Qed.

Lemma forEach_paints (sel : option string) (overlays : list TextOverlay) :
  forall c,
    filter (context c) = [] ->
    let c' := fold_left (drawOverlay measureText sel) overlays c in
    textsOf (bitmap c') =
      textsOf (bitmap c) ++ map (paintedOverlay (width c) (height c)) overlays /\
    imagesOf (bitmap c') = imagesOf (bitmap c) /\
    outlines (bitmap c') =
      outlines (bitmap c) ++
      (if isPreview (element c)
       then map (outlineOf measureText c)
                (List.filter (fun o => strictEq sel (id o)) overlays)
       else []).
Proof.
  induction overlays as [|o overlays IH]; intros c Hf; cbn [fold_left map List.filter].
  - rewrite !app_nil_r. destruct (isPreview (element c)); now rewrite ?app_nil_r.
  - destruct (drawOverlay_paints sel c o Hf) as (Ht & Hi & Ho & Hf').
    destruct (drawOverlay_frame measureText sel c o) as (He & Hw & Hh & _).
    destruct (IH _ Hf') as (Ht2 & Hi2 & Ho2).
    rewrite Ht2, Hi2, Ho2, Ht, Hi, Ho, He, Hw, Hh.
    repeat split.
    + now rewrite <- app_assoc.
    + rewrite <- app_assoc. f_equal.
      destruct (isPreview (element c)); rewrite ?andb_true_r, ?andb_false_r.
      * destruct (strictEq sel (id o)); cbn [List.app map].
        -- f_equal. apply map_ext. intros a.
           now apply outlineOf_ext.
        -- apply map_ext. intros a. now apply outlineOf_ext.
      * reflexivity.
Qed.

(** X24. The picture [drawToCanvas] leaves, on either canvas and whatever is
    selected: the canvas has the natural size of the image; the image is
    painted first and once, at the origin, under the six filter functions of
    the adjustments; then one text per overlay, in the order of the list
    (the later on top), each centred on its percentage position, in its
    colour, bold, sized in thousandths of the image width, with a black
    shadow offset by (4, 4), and under no filter. *)
Theorem drawToCanvas_picture
        (canvas : Canvas) (img : Image) (adjs : AdjustmentSettings)
        (overlays : list TextOverlay) (sel : option string) :
  let c' := drawToCanvas measureText canvas img adjs overlays sel in
  width c' = naturalWidth img /\ height c' = naturalHeight img /\
  (exists st rest, bitmap c' = DrawImage img 0 0 st :: rest) /\
  imagesOf (bitmap c') = [(img, 0, 0, filterString adjs)] /\
  textsOf (bitmap c') =
    map (paintedOverlay (naturalWidth img) (naturalHeight img)) overlays.
Proof.
  intros c'. subst c'. unfold drawToCanvas.
  set (c5 := withContext (set_filter []) _).
  assert (H5 : filter (context c5) = []) by reflexivity.
  destruct (forEach_paints sel overlays c5 H5) as (Ht & Hi & _).
  destruct (forEach_frame measureText sel overlays c5) as (_ & Hw & Hh & more & Hb).
  rewrite Hw, Hh, Ht, Hi, Hb. repeat split.
  do 2 eexists. reflexivity.
Qed.

(** X25. The dashed outlines on a drawn canvas: none on the hidden export
    canvas, whatever selection is passed; on the preview one for each
    overlay that carries the selected identifier, in list order, so none
    when nothing is selected or the selection names no overlay. *)
Theorem drawToCanvas_outlines
        (canvas : Canvas) (img : Image) (adjs : AdjustmentSettings)
        (overlays : list TextOverlay) (sel : option string) :
  outlines (bitmap (drawToCanvas measureText canvas img adjs overlays sel)) =
  if isPreview (element canvas)
  then map (outlineAt measureText (naturalWidth img) (naturalHeight img))
           (List.filter (fun o => strictEq sel (id o)) overlays)
  else [].
Proof.
  unfold drawToCanvas.
  set (c5 := withContext (set_filter []) _).
  assert (H5 : filter (context c5) = []) by reflexivity.
  destruct (forEach_paints sel overlays c5 H5) as (_ & _ & Ho).
  rewrite Ho. change (element c5) with (element canvas).
  destruct (isPreview (element canvas)); [|reflexivity].
  cbn [List.app]. apply map_ext. intros o. unfold outlineAt. now apply outlineOf_ext.
Qed.

End Picture.

(** ** Identifiers are never empty *)

Section TruthyIds.

Variable measureText : Font -> string -> Q.

Lemma idsTruthy_same (s s' : AppState) :
  textOverlays s' = textOverlays s -> selectedTextId s' = selectedTextId s ->
  idsTruthy s -> idsTruthy s'.
Proof. unfold idsTruthy. intros -> ->. auto. Qed.

Lemma idsTruthy_map (f : TextOverlay -> TextOverlay) (s s' : AppState) :
  (forall t, id (f t) = id t) ->
  textOverlays s' = map f (textOverlays s) -> selectedTextId s' = selectedTextId s ->
  idsTruthy s -> idsTruthy s'.
Proof.
  unfold idsTruthy. intros Hf -> -> [Ho Hs]. split; [|exact Hs].
  intros t Hin. apply in_map_iff in Hin. destruct Hin as (t0 & <- & Hin).
  rewrite Hf. now apply Ho.
Qed.

Lemma idsTruthy_cleared (s s' : AppState) :
  textOverlays s' = [] ->
  selectedTextId s' = None \/ selectedTextId s' = selectedTextId s ->
  idsTruthy s -> idsTruthy s'.
Proof.
  unfold idsTruthy. intros -> Hsel [_ Hs]. split; [intros t []|].
  destruct Hsel as [-> | ->]; [discriminate|exact Hs].
Qed.

Lemma clickAsync_idsTruthy (disabled : bool) (begin : AppState -> AppState * bool)
      (op : Operation) (ss : Session) :
  (textOverlays (fst (begin (app ss))) = textOverlays (app ss) /\
   selectedTextId (fst (begin (app ss))) = selectedTextId (app ss)) ->
  idsTruthy (app ss) -> idsTruthy (app (clickAsync disabled begin op ss)).
Proof.
  intros [H1 H2] Hinv. unfold clickAsync. destruct disabled; [exact Hinv|].
  destruct (begin (app ss)) as [s' started]. cbn [app fst] in *.
  now apply (idsTruthy_same (app ss)).
Qed.

Lemma settle_idsTruthy (op : Operation) (k : AppState -> AppState) (ss : Session) :
  (idsTruthy (app ss) -> idsTruthy (k (app ss))) ->
  idsTruthy (app ss) -> idsTruthy (app (settle op k ss)).
Proof.
  intros Hk Hinv. unfold settle.
  destruct (removeFirst op (inflight ss)); cbn [app]; auto.
Qed.

Lemma selectedControl_idsTruthy (u : OverlayUpdate) (ss : Session) :
  (forall t, id (setOverlayField t u) = id t) ->
  idsTruthy (app ss) -> idsTruthy (app (selectedControl u ss)).
Proof.
  intros Hu Hinv. unfold selectedControl.
  destruct (truthyOpt (selectedTextId (app ss))); [|exact Hinv].
  cbn [sync app]. unfold updateSelectedText.
  destruct (negb (truthyOpt (selectedTextId (app ss)))); [exact Hinv|].
  eapply (idsTruthy_map _ (app ss)); [|reflexivity|reflexivity|exact Hinv].
  intros t. cbn beta. destruct (strictEq _ _); [apply Hu|reflexivity].
Qed.

Lemma step_idsTruthy (ev : Event) (ss : Session) :
  idsTruthy (app ss) -> idsTruthy (app (step measureText ev ss)).
Proof.
  intros Hinv. destruct ev; cbn [step].
  - apply clickAsync_idsTruthy; [|exact Hinv]. unfold handleFetchYouTube_begin.
    destruct (negb (truthyOpt (getYouTubeID (youtubeUrl (app ss))))); split; reflexivity.
  - apply clickAsync_idsTruthy; [|exact Hinv]. unfold handleDownload_begin.
    destruct (negb (truthyOpt (currentImage (app ss)))); split; reflexivity.
  - apply clickAsync_idsTruthy; [|exact Hinv]. unfold handleGeminiEdit_begin.
    destruct (negb (truthyOpt (currentImage (app ss)))
              || negb (truthy (trim (aiPrompt (app ss))))); split; reflexivity.
  - cbn [sync app]. apply (idsTruthy_cleared (app ss)); auto.
  - cbn [sync app]. unfold handleAddText.
    destruct (negb (truthy (trim (newText (app ss))))); [exact Hinv|].
    destruct Hinv as [Ho Hs]. split.
    + cbn [textOverlays setSelectedTextId setNewText setTextOverlays].
      intros t Hin. apply in_app_or in Hin. destruct Hin as [Hin|[<-|[]]].
      * now apply Ho.
      * apply Date_now_toString_truthy.
    + cbn [selectedTextId setSelectedTextId]. intros sid H. injection H as <-.
      apply Date_now_toString_truthy.
  - destruct (hasRow tid (app ss)) eqn:Hrow; [|exact Hinv].
    cbn [sync app]. destruct Hinv as [Ho Hs]. split; [exact Ho|].
    cbn [selectedTextId selectOverlay setSelectedTextId]. intros sid H.
    injection H as <-. unfold hasRow in Hrow. apply existsb_exists in Hrow.
    destruct Hrow as (t & Hin & E). apply String.eqb_eq in E. subst tid.
    now apply Ho.
  - destruct (hasRow tid (app ss)); [|exact Hinv].
    cbn [sync app]. destruct Hinv as [Ho Hs]. split; [|exact Hs].
    cbn [textOverlays deleteOverlay setTextOverlays]. intros t Hin.
    apply filter_In in Hin. now apply Ho.
  - exact Hinv.
  - exact Hinv.
  - exact Hinv.
  - exact Hinv.
  - now apply selectedControl_idsTruthy.
  - now apply selectedControl_idsTruthy.
  - now apply selectedControl_idsTruthy.
  - cbn [sync app]. unfold handleCanvasMouseDown.
    destruct (negb (truthyOpt (currentImage (app ss)))); [exact Hinv|].
    destruct (hitTest measureText canvas _ _) as [o|] eqn:Hhit.
    + apply (hitTest_In measureText) in Hhit. destruct Hinv as [Ho Hs].
      split; [exact Ho|]. cbn. intros sid H. injection H as <-. now apply Ho.
    + destruct Hinv as [Ho Hs]. split; [exact Ho|]. cbn. discriminate.
  - cbn [sync app]. unfold handleCanvasMouseMove.
    destruct (negb (isDragging (app ss)) || negb (truthyOpt (selectedTextId (app ss))));
      [exact Hinv|].
    eapply (idsTruthy_map _ (app ss)); [|reflexivity|reflexivity|exact Hinv].
    intros t. cbn beta. now destruct (strictEq _ _).
  - exact Hinv.
  - exact Hinv.
  - apply settle_idsTruthy; [|exact Hinv]. intros H.
    destruct response; [|exact H]. apply (idsTruthy_cleared (app ss)); auto.
  - apply settle_idsTruthy; [|exact Hinv]. auto.
  - apply settle_idsTruthy; [|exact Hinv]. intros H.
    destruct result; [|exact H]. apply (idsTruthy_cleared (app ss)); auto.
Qed.

(** X26. In every session reached from the initial one, the identifier of
    every overlay of the list is a non-empty string, and so is the
    selection when there is one: the tests [!selectedTextId] of the handlers
    never take a selection for none. *)
Theorem reachable_ids_are_truthy (evs : list Event) :
  idsTruthy (app (run_events measureText evs initialSession)).
Proof.
  unfold run_events.
  assert (H : forall ss, idsTruthy (app ss) ->
              idsTruthy (app (fold_left (fun acc ev => step measureText ev acc) evs ss))).
  { induction evs as [|ev evs IH]; intros ss Hss; cbn [fold_left]; [exact Hss|].
    apply IH. now apply step_idsTruthy. }
  apply H. split; [intros t []|discriminate].
Qed.

End TruthyIds.

(** ** Dragging, in the sessions the program reaches *)

Section DragInSession.

Variable measureText : Font -> string -> Q.

Local Open Scope Q_scope.

Lemma run_events_idsTruthy (evs : list Event) (ss : Session) :
  idsTruthy (app ss) -> idsTruthy (app (run_events measureText evs ss)).
Proof.
  unfold run_events. revert ss.
  induction evs as [|ev evs IH]; intros ss Hss; cbn [fold_left]; [exact Hss|].
  apply IH. now apply step_idsTruthy.
Qed.

(** C7. In every session the program reaches, on the canvas of a loaded
    image (the page has the canvas only then) that has a size and is shown
    with a size: when the pointer goes down at a point [P] where the drag
    takes the overlay [O] (the hit test resolves to [O], so [P] is inside
    the box of [O]) and then moves to [P'] while dragging, the pixel anchor
    of [O] is where it was plus [P' - P], in exact arithmetic, and nothing
    else of [O] changes.  The overlay keeps its distance to the pointer: its
    centre does not snap to it. *)
Theorem drag_preserves_offset
        (evs : list Event) (canvas : Canvas) (rect : DOMRect) (e1 e2 : MouseEvent)
        (o : TextOverlay) (i : nat) :
  let s := app (run_events measureText evs initialSession) in
  truthyOpt (currentImage s) = true ->
  (0 < width canvas)%N -> (0 < height canvas)%N ->
  0 < rect_width rect -> 0 < rect_height rect ->
  nth_error (textOverlays s) i = Some o ->
  hitTest measureText canvas (getCanvasCoordinates canvas rect e1) (textOverlays s)
  = Some o ->
  exists o',
    nth_error (textOverlays (dragged measureText canvas rect e1 e2 s)) i = Some o' /\
    anchorMovedBy canvas o o'
                  (getCanvasCoordinates canvas rect e1)
                  (getCanvasCoordinates canvas rect e2) /\
    sameAppearance o o'.
Proof.
  intros s Himg Hw Hh _ _ Hnth Hhit.
  assert (Hids : idsTruthy s).
  { apply run_events_idsTruthy. split; [intros t []|discriminate]. }
  apply (drag_moves_the_hit_overlay measureText canvas rect e1 e2 s o i); auto.
  apply (proj1 Hids). eapply nth_error_In. exact Hnth.
Qed.

End DragInSession.

Lemma drag_preserves_offset_witness :
  let s := app (run_events monoMeasure twoLabelEvents initialSession) in
  let p1 := getCanvasCoordinates preview720 halfSize pointerOffCentre in
  let p2 := getCanvasCoordinates preview720 halfSize pointerMoved in
  (px p1 - px (textAnchor preview720 labelB) == - (40) /\
   py p1 - py (textAnchor preview720 labelB) == - (10))%Q /\
  exists o',
    nth_error (textOverlays
                 (dragged monoMeasure preview720 halfSize pointerOffCentre
                          pointerMoved s)) 1 = Some o' /\
    anchorMovedBy preview720 labelB o' p1 p2 /\
    sameAppearance labelB o'.
Proof.
  intros s p1 p2. split.
  - split; vm_compute; reflexivity.
  - apply (drag_preserves_offset monoMeasure twoLabelEvents preview720 halfSize
             pointerOffCentre pointerMoved labelB 1).
    + reflexivity.
    + reflexivity.
    + reflexivity.
    + reflexivity.
    + reflexivity.
    + reflexivity.
    + vm_compute. reflexivity.
Defined.

(** The same drag, evaluated: the press is at (600, 350) on the canvas, 40
    left of and 10 above the anchor (640, 360) of the upper label; the
    pointer moves to (660, 360); the anchor of the label is then at
    (700, 370), still 40 right of and 10 below the pointer, and not at the
    pointer. *)
Example drag_keeps_the_distance_to_the_pointer :
  let s := app (run_events monoMeasure twoLabelEvents initialSession) in
  let s2 := dragged monoMeasure preview720 halfSize pointerOffCentre pointerMoved s in
  let p2 := getCanvasCoordinates preview720 halfSize pointerMoved in
  (px p2 == 660 /\ py p2 == 360)%Q /\
  exists o',
    nth_error (textOverlays s2) 1 = Some o' /\
    (px (textAnchor preview720 o') == 700 /\
     py (textAnchor preview720 o') == 370)%Q /\
    nth_error (textOverlays s2) 0 = Some labelA.
Proof.
  intros s s2 p2. split; [split; vm_compute; reflexivity|].
  eexists. split; [vm_compute; reflexivity|].
  split; [split; vm_compute; reflexivity|vm_compute; reflexivity].
Qed.

(** ** The further properties at sample inputs *)

Lemma getYouTubeID_watch_url_witness :
  getYouTubeID "https://www.youtube.com/watch?v=dQw4w9WgXcQ&t=42s" = Some "dQw4w9WgXcQ".
Proof.
  apply (getYouTubeID_watch_url "https://www.youtube.com/" "dQw4w9WgXcQ" "&t=42s");
    reflexivity.
Defined.

Lemma getYouTubeID_short_link_witness :
  getYouTubeID "https://youtu.be/dQw4w9WgXcQ" = Some "dQw4w9WgXcQ".
Proof.
  apply (getYouTubeID_short_link "https://" "dQw4w9WgXcQ" ""); reflexivity.
Defined.

Lemma getYouTubeID_embed_url_witness :
  getYouTubeID "https://www.youtube.com/embed/dQw4w9WgXcQ#t" = Some "dQw4w9WgXcQ".
Proof.
  apply (getYouTubeID_embed_url "https://www.youtube.com/" "dQw4w9WgXcQ" "#t");
    reflexivity.
Defined.

Lemma getYouTubeID_short_v_refused_witness :
  getYouTubeID "https://youtu.be/vQw4w9WgXcQ" = None.
Proof.
  apply (getYouTubeID_short_v_refused "https://" "Qw4w9WgXcQ" ""); reflexivity.
Defined.

Lemma getYouTubeID_needs_marker_witness :
  getYouTubeID "dQw4w9WgXcQ" = None /\ getYouTubeID "" = None.
Proof.
  split.
  - apply (getYouTubeID_needs_marker "dQw4w9WgXcQ"). reflexivity.
  - apply (getYouTubeID_needs_marker ""). reflexivity.
Defined.

Lemma getYouTubeID_is_piece_of_url_witness :
  String.length "dQw4w9WgXcQ" = 11 /\
  allChars notHashAmpQuestion "dQw4w9WgXcQ" = true /\
  exists front back,
    "https://youtu.be/dQw4w9WgXcQ?t=1" = (front ++ "dQw4w9WgXcQ" ++ back)%string.
Proof.
  apply (getYouTubeID_is_piece_of_url "https://youtu.be/dQw4w9WgXcQ?t=1").
  vm_compute. reflexivity.
Defined.

Lemma failed_fetch_keeps_work_witness :
  run_events monoMeasure [ClickExecute; FetchSettled None] labelled =
  sync (setErrorMsg (Some "CONNECTION FAILED (Check URL or network)")) labelled /\
  step monoMeasure ClickExecute initialSession =
  sync (setErrorMsg (Some "INVALID TARGET URL")) initialSession.
Proof.
  split.
  - apply (failed_fetch_keeps_work monoMeasure labelled); reflexivity.
  - apply (failed_fetch_keeps_work monoMeasure initialSession); reflexivity.
Defined.

Lemma successful_fetch_starts_afresh_witness :
  run_events monoMeasure [ClickExecute; FetchSettled (Some "blob:again")] labelled =
  mkSession
    (mkState "https://youtu.be/dQw4w9WgXcQ" (Some "blob:again") DEFAULT_ADJUSTMENTS
             "" false None [] "" None false (mkPoint 0%Q 0%Q))
    [].
Proof.
  apply (successful_fetch_starts_afresh monoMeasure labelled "blob:again").
  - reflexivity.
  - reflexivity.
  - vm_compute. discriminate.
Defined.

Lemma export_leaves_no_trace_witness :
  run_events monoMeasure [ClickExport; ExportDrawn] labelled = labelled /\
  step monoMeasure ClickExport initialSession = initialSession.
Proof.
  split.
  - apply (export_leaves_no_trace monoMeasure labelled); reflexivity.
  - apply (export_leaves_no_trace monoMeasure initialSession); reflexivity.
Defined.

Lemma blank_prompt_starts_nothing_witness :
  compileEditDisabled (app blankPrompted) = false /\
  step monoMeasure ClickCompileEdit blankPrompted = blankPrompted.
Proof.
  split; [reflexivity|].
  apply (blank_prompt_starts_nothing monoMeasure blankPrompted). reflexivity.
Defined.

Lemma ai_edit_outcome_witness :
  (run_events monoMeasure
     [ClickCompileEdit;
      GeminiSettled (handleGeminiEdit_call libraryFails "AAAA" "add a sunset")]
     prompted =
   sync (setErrorMsg (Some "AI PROTOCOL FAILURE")) prompted /\
   truthy "AI PROTOCOL FAILURE" = true).
Proof.
  apply (ai_edit_outcome monoMeasure libraryFails "AAAA" prompted).
  - reflexivity.
  - reflexivity.
  - reflexivity.
  - vm_compute. discriminate.
Defined.

Lemma editImageWithGemini_resolves_witness :
  truthy "key" = true /\
  exists response ps before part inline d after,
    libraryAnswers "key" (GeminiService.request "AAAA" "image/png" (Some "add a sunset"))
    = inl response /\
    GeminiService.responseParts response = Some ps /\
    ps = before ++ part :: after /\
    forallb (fun q => negb (GeminiService.carriesImage q)) before = true /\
    GeminiService.inlineData part = Some inline /\
    GeminiService.data inline = Some d /\ truthy d = true /\
    "data:image/jpeg;base64,QUJD" =
    ("data:" ++ GeminiService.orElse (GeminiService.mimeType inline) "image/png"
             ++ ";base64," ++ d)%string.
Proof.
  apply (editImageWithGemini_resolves libraryAnswers "key" "AAAA" "image/png"
           (Some "add a sunset")).
  reflexivity.
Defined.

Lemma editImageWithGemini_rejects_witness :
  truthy "AI PROTOCOL FAILURE" = true /\
  "AI PROTOCOL FAILURE" = GeminiService.orElse None "AI PROTOCOL FAILURE".
Proof.
  apply (editImageWithGemini_rejects libraryFails "key" "AAAA" "image/png"
           (Some "add a sunset") "AI PROTOCOL FAILURE").
  reflexivity.
Defined.

Lemma handleGeminiEdit_call_shifts_arguments_witness :
  handleGeminiEdit_call libraryAnswers "AAAA" "add a sunset" =
  inl "data:image/jpeg;base64,QUJD".
Proof.
  apply (handleGeminiEdit_call_shifts_arguments libraryAnswers "AAAA" "add a sunset").
  reflexivity.
Defined.

Lemma handleAdjustmentChange_laws_witness :
  handleAdjustmentChange K_brightness 150%Q
    (handleAdjustmentChange K_blur 3%Q initialState) =
  handleAdjustmentChange K_blur 3%Q
    (handleAdjustmentChange K_brightness 150%Q initialState).
Proof.
  apply (proj1 (proj2 handleAdjustmentChange_laws)). reflexivity.
Defined.

Lemma stale_selection_changes_nothing_witness :
  updateSelectedText (U_color "#ff0000") afterDelete = afterDelete /\
  handleCanvasMouseMove preview720 halfSize pointerMoved afterDelete = afterDelete.
Proof.
  apply (stale_selection_changes_nothing (U_color "#ff0000") preview720 halfSize
           pointerMoved afterDelete).
  reflexivity.
Defined.

Lemma updateSelectedText_laws_witness :
  let s := app (run_events monoMeasure twoLabelEvents initialSession) in
  (textOverlays s = [labelA; labelB] /\ selectedTextId s = Some (id labelB)) /\
  (exists a' b',
      textOverlays (updateSelectedText (U_color "#ff0000") s) = [a'; b'] /\
      a' = labelA /\
      getOverlayField b' F_color = inl "#ff0000" /\
      getOverlayField b' F_text = getOverlayField labelB F_text /\
      getOverlayField b' F_fontSize = getOverlayField labelB F_fontSize) /\
  updateSelectedText (U_fontSize 64%Q) (updateSelectedText (U_fontSize 32%Q) s) =
  updateSelectedText (U_fontSize 64%Q) s /\
  updateSelectedText (U_color "#ff0000") (updateSelectedText (U_fontSize 32%Q) s) =
  updateSelectedText (U_fontSize 32%Q) (updateSelectedText (U_color "#ff0000") s).
Proof.
  intros s.
  destruct (updateSelectedText_laws s (id labelB) eq_refl eq_refl)
    as (Hread & Hlen & Htwice & Hcomm & Hframe).
  split; [split; reflexivity|]. split; [|split].
  - destruct (Hread (U_color "#ff0000") 0%nat labelA eq_refl) as (a' & Ha & Hsame & _).
    destruct (Hread (U_color "#ff0000") 1%nat labelB eq_refl) as (b' & Hb & _ & Hkeys).
    exists a', b'. split; [|split; [|split; [|split]]].
    + specialize (Hlen (U_color "#ff0000")).
      destruct (textOverlays (updateSelectedText (U_color "#ff0000") s))
        as [|t0 [|t1 [|t2 l]]]; try discriminate Hlen.
      cbn in Ha, Hb. now injection Ha as ->; injection Hb as ->.
    + apply Hsame. discriminate.
    + apply (Hkeys eq_refl F_color).
    + apply (Hkeys eq_refl F_text).
    + apply (Hkeys eq_refl F_fontSize).
  - apply Htwice; [reflexivity|discriminate].
  - apply Hcomm; discriminate.
Defined.

Lemma controls_show_what_they_wrote_witness :
  let s := app labelled in
  (forall v, shownFontFamily (updateSelectedText (U_fontFamily v) s) =
             if truthy v then v else "Share Tech Mono") /\
  (forall v, shownFontSize (updateSelectedText (U_fontSize v) s) =
             if Qeq_bool v 0 then 48%Q else v) /\
  (forall v, shownColor (updateSelectedText (U_color v) s) =
             if truthy v then v else "#00ff00").
Proof.
  intros s.
  apply (controls_show_what_they_wrote s "1700000000000"); reflexivity.
Defined.

Lemma getCanvasCoordinates_scales_witness :
  let e := mkMouse (0 + (1 # 2) * 640)%Q (0 + (1 # 2) * 360)%Q in
  (px (getCanvasCoordinates preview720 halfSize e) == (1 # 2) * NtoQ 1280)%Q /\
  (py (getCanvasCoordinates preview720 halfSize e) == (1 # 2) * NtoQ 720)%Q /\
  ((640 == NtoQ 1280)%Q -> (360 == NtoQ 720)%Q ->
   (px (getCanvasCoordinates preview720 halfSize e) == clientX e - 0)%Q /\
   (py (getCanvasCoordinates preview720 halfSize e) == clientY e - 0)%Q).
Proof.
  apply (getCanvasCoordinates_scales preview720 halfSize (1 # 2)%Q (1 # 2)%Q);
    intros H; vm_compute in H; discriminate H.
Defined.

Lemma pointer_moves_nothing_outside_a_drag_witness :
  let s1 := handleCanvasMouseDown monoMeasure preview720 halfSize pointerElsewhere
                                  twoLabels in
  selectedTextId s1 = None /\ textOverlays s1 = textOverlays twoLabels /\
  handleCanvasMouseMove preview720 halfSize pointerMoved s1 = s1.
Proof.
  apply (proj2 (pointer_moves_nothing_outside_a_drag monoMeasure preview720 halfSize
                  pointerElsewhere pointerMoved twoLabels)).
  - reflexivity.
  - vm_compute. reflexivity.
Defined.

Lemma drag_leaves_the_others_witness :
  let s2 := dragged monoMeasure preview720 halfSize pointerDown pointerMoved twoLabels in
  List.length (textOverlays s2) = List.length (textOverlays twoLabels) /\
  forall i t,
    nth_error (textOverlays twoLabels) i = Some t -> id t <> id labelB ->
    nth_error (textOverlays s2) i = Some t.
Proof.
  apply (drag_leaves_the_others monoMeasure preview720 halfSize pointerDown
           pointerMoved twoLabels labelB).
  - reflexivity.
  - vm_compute. reflexivity.
Defined.

Lemma selection_valid_elsewhere_witness :
  selectionValid (app (step monoMeasure MouseUp labelled)) = true /\
  selectionValid
    (app (step monoMeasure (MouseDown preview720 halfSize pointerElsewhere) labelled))
  = true.
Proof.
  split.
  - apply (selection_valid_elsewhere monoMeasure MouseUp labelled); reflexivity.
  - apply (selection_valid_elsewhere monoMeasure
             (MouseDown preview720 halfSize pointerElsewhere) labelled); reflexivity.
Defined.
